(** * walletfinderbot: team-supply analysis (src/analysis/teamSupply.js)
    and two handlers of the bot

    A shallow embedding of the wallet classification pipeline: the
    significant-holder filter, the per-wallet classifier [analyzeWallet],
    the batch scheduler [analyzeWalletsWithTimeout] with its per-wallet
    timeout race, and the orchestrator [analyzeTeamSupply].

    External collaborators (Solana API, inactivity and funding analysers,
    logger, cancellation token) are fields of an environment [Env]. Each
    call is identified by its place in the source and by the index of the
    wallet it is made for, so one environment describes one run whatever
    the interleaving of the concurrent classifications. Time is counted in
    milliseconds; only awaited calls and timers take time.

    Holders are taken as the data model describes them: an address, which
    is a string, and a balance in raw base units, which is an integer, as
    is the total supply. Errors are [Error] objects, told apart by their
    message.

    The log of group messages ([logGroupMessage], [initialize]) and the
    search command ([SearchHandler.handleCommand]) are embedded as
    computations over a state of their own: the disk, and the calls made
    to the bot, to [searchWallets] and to the logger. *)

From Stdlib Require Import ZArith NArith QArith Qround String Ascii List Bool Lia.
From stdpp Require Import base decidable gmap strings pretty.
Import ListNotations.
Open Scope string_scope.
Open Scope Z_scope.

(** ** JavaScript numbers

    The IEEE-754 binary64 values that [BigNumber.prototype.toNumber] can
    return: a finite number is [m * 2^ex], kept with [m] odd (or [0 0]) so
    that equal numbers are equal terms. The sign of zero is not kept. *)
Module JsNumber.

Inductive t : Type :=
| Num (m : Z) (ex : Z)
| Infinity (negative : bool)
| NaN.

Fixpoint strip (p : positive) (ex : Z) : positive * Z :=
  match p with
  | xO p' => strip p' (ex + 1)
  | _ => (p, ex)
  end.

Definition normal (m ex : Z) : t :=
  match m with
  | Z0 => Num 0 0
  | Zpos p => let '(q, e) := strip p ex in Num (Zpos q) e
  | Zneg p => let '(q, e) := strip p ex in Num (Zneg q) e
  end.

(** Round [n / d] to the nearest integer, ties to even ([0 <= n], [0 < d]). *)
Definition roundHalfEven (n d : Z) : Z :=
  let q := n / d in
  let r := n mod d in
  if 2 * r <? d then q
  else if d <? 2 * r then q + 1
  else if Z.even q then q else q + 1.

(** [floor (log2 (n / d))] for [0 < n], [0 < d]. *)
Definition ilog2 (n d : Z) : Z :=
  let e0 := Z.log2 n - Z.log2 d in
  if n * 2 ^ Z.max 0 (- e0) <? d * 2 ^ Z.max 0 e0 then e0 - 1 else e0.

(** The binary64 number nearest to [n / d], for [0 <= n] and [0 < d]:
    53 significant bits, exponent of the last place at least -1074. *)
Definition nearest (negative : bool) (n d : Z) : t :=
  if n =? 0 then Num 0 0
  else
    let u := Z.max (ilog2 n d - 52) (-1074) in
    let m := roundHalfEven (n * 2 ^ Z.max 0 (- u)) (d * 2 ^ Z.max 0 u) in
    if (971 <? u) || ((u =? 971) && (2 ^ 53 <=? m)) then Infinity negative
    else normal (if negative then - m else m) u.

Definition of_Z (z : Z) : t := nearest (z <? 0) (Z.abs z) 1.

(** The rational a finite number denotes. *)
Definition value (x : t) : option Q :=
  match x with
  | Num m ex =>
      Some (if 0 <=? ex then inject_Z (m * 2 ^ ex)
            else Qmake m (Z.to_pos (2 ^ (- ex))))
  | _ => None
  end.

End JsNumber.

(** ** bignumber.js, as configured on line 12:
    [BigNumber.config({ DECIMAL_PLACES: 18, ROUNDING_MODE: ROUND_DOWN })].

    A finite value is [c * 10^-e]. [plus] and [multipliedBy] are exact;
    [dividedBy] keeps [DECIMAL_PLACES] fractional digits and rounds towards
    zero. The sign of zero is not kept. *)
Module BigNumber.

Definition DECIMAL_PLACES : nat := 18.

Inductive t : Type :=
| Fin (c : Z) (e : nat)
| Inf (negative : bool)
| NaN.

Definition pow10 (n : nat) : Z := 10 ^ Z.of_nat n.

(** [new BigNumber(z)] for an integer [z]. *)
Definition of_Z (z : Z) : t := Fin z 0.

Definition plus (x y : t) : t :=
  match x, y with
  | NaN, _ | _, NaN => NaN
  | Inf a, Inf b => if Bool.eqb a b then Inf a else NaN
  | Inf a, Fin _ _ => Inf a
  | Fin _ _, Inf b => Inf b
  | Fin a ea, Fin b eb => Fin (a * pow10 (Nat.max ea eb - ea) + b * pow10 (Nat.max ea eb - eb)) (Nat.max ea eb)
  end.

Definition multipliedBy (x y : t) : t :=
  match x, y with
  | NaN, _ | _, NaN => NaN
  | Inf a, Inf b => Inf (xorb a b)
  | Inf a, Fin b _ => if b =? 0 then NaN else Inf (xorb a (b <? 0))
  | Fin a _, Inf b => if a =? 0 then NaN else Inf (xorb (a <? 0) b)
  | Fin a ea, Fin b eb => Fin (a * b) (ea + eb)
  end.

Definition dividedBy (x y : t) : t :=
  match x, y with
  | NaN, _ | _, NaN => NaN
  | Inf _, Inf _ => NaN
  | Inf a, Fin b _ => Inf (xorb a (b <? 0))
  | Fin _ _, Inf _ => Fin 0 0
  | Fin a ea, Fin b eb =>
      if b =? 0 then (if a =? 0 then NaN else Inf (a <? 0))
      else Fin (Z.quot (a * pow10 (DECIMAL_PLACES + eb)) (b * pow10 ea)) DECIMAL_PLACES
  end.

Definition isGreaterThanOrEqualTo (x y : t) : bool :=
  match x, y with
  | NaN, _ | _, NaN => false
  | Inf a, Inf b => implb a b
  | Inf a, Fin _ _ => negb a
  | Fin _ _, Inf b => b
  | Fin a ea, Fin b eb => b * pow10 ea <=? a * pow10 eb
  end.

Definition toNumber (x : t) : JsNumber.t :=
  match x with
  | NaN => JsNumber.NaN
  | Inf a => JsNumber.Infinity a
  | Fin c e => JsNumber.nearest (c <? 0) (Z.abs c) (pow10 e)
  end.

(** The rational a finite value denotes. *)
Definition value (x : t) : option Q :=
  match x with
  | Fin c e => Some (Qmake c (Z.to_pos (pow10 e)))
  | _ => None
  end.

End BigNumber.

(** ** Constants (lines 15-38) *)

Definition KNOWN_LP_POOLS : gset string :=
  {[ "5Q544fKrFoe6tsEbD7S8EmxGTJYAKtTVhAW5Q5pge4j1";
     "6EF8rrecthR5Dkzon8Nwu78hRvfCKubJ14M5uBEwF6P";
     "MoonCVVNZFSYkqNXP6bxHLPL6QQJiMagDL3qcqUQTrG";
     "LBUZKhRxPF3XUpBCjp4YzTKgLccjZhTSDM9YuVaPwxo";
     "5quBtoiQqxF9Jv6KYKctB59NT3gtJD2Y65kdnB1Uev3h";
     "675kPX9MHTjS2zt1qfr1NYHuzeLXfQM9H24wFSUt1Mp8";
     "CPMMoo8L3F4NbTegBCKVNunggL7H1ZpdTHKxQB5qKP1C";
     "GpMZbSM2GgvTKHJirzeGfMFoaZ8UR2X7F4v8vHTvxFbL" ]}.

Definition FRESH_WALLET_THRESHOLD : nat := 100.
Definition SUPPLY_THRESHOLD : BigNumber.t := BigNumber.Fin 1 3.
Definition WALLET_ANALYSIS_TIMEOUT : N := 30000.
Definition BATCH_SIZE : nat := 5.
Definition BATCH_DELAY : N := 200.

Definition TEAM_WALLET_CATEGORIES : gset string :=
  {[ "Fresh"; "Inactive"; "No Token"; "No ATA Transaction" ]}.

(** [Set.prototype.has]. *)
Definition has (s : gset string) (x : string) : bool := bool_decide (x ∈ s).

Definition isTeamWalletCategory (category : string) : bool :=
  has TEAM_WALLET_CATEGORIES category.


(** ** JavaScript values *)

(** A property that may be missing, [null], or set. *)
Inductive JsOpt (A : Type) : Type :=
| Undefined
| Null
| Val (a : A).
Arguments Undefined {A}.
Arguments Null {A}.
Arguments Val {A} a.

(** [new Error(message)]. *)
Record JsError : Type := Error { message : string }.

(** [String.prototype.includes]. *)
Definition includes (s sub : string) : bool :=
  match String.index 0 sub s with
  | Some _ => true
  | None => false
  end.

(** [s.slice(0, n)]. *)
Definition slice0 (n : nat) (s : string) : string := String.substring 0 n s.

(** [string || null]: the empty string is falsy. *)
Definition stringOrNull (x : option string) : JsOpt string :=
  match x with
  | Some EmptyString => Null
  | Some s => Val s
  | None => Null
  end.

(** [object || null]. *)
Definition objectOrNull {A : Type} (x : option A) : JsOpt A :=
  match x with
  | Some a => Val a
  | None => Null
  end.

(** [x?.field]. *)
Definition optional {A B : Type} (field : A -> option B) (x : option A) : option B :=
  match x with
  | Some a => field a
  | None => None
  end.

(** ** Data model *)

Record Holder : Type := { address : string; balance : Z }.

Record AssetInfo : Type :=
  { supply_total : Z; symbol : string; name : string; decimals : Z }.

Record TokenInfo : Type :=
  { total_supply : Z;
    ti_symbol : string;
    ti_name : string;
    ti_decimals : Z;
    ti_address : string }.

(** The opaque record the funding analyser attaches to a wallet. *)
Record FundingDetails : Type := { details : string }.

Record FundingInfo : Type :=
  { fi_funderAddress : option string;
    fi_fundingDetails : option FundingDetails }.

(** What [checkInactivityPeriod] resolves to (when not [null]). *)
Record InactivityCheck : Type :=
  { ic_category : option string;
    isInactive : bool;
    ic_daysSinceLastActivity : option Z }.

(** [{ ...wallet, category, daysSinceLastActivity, funderAddress,
       fundingDetails }] or [{ ...wallet, category: 'Error', error }]:
    [spread] holds the properties copied from the holder. *)
Record ClassifiedWallet : Type :=
  { spread : Holder;
    category : string;
    daysSinceLastActivity : JsOpt Z;
    funderAddress : JsOpt string;
    fundingDetails : JsOpt FundingDetails;
    error : JsOpt string }.

Record TeamWallet : Type :=
  { tw_address : string;
    tw_balance : string;
    tw_percentage : JsNumber.t;
    tw_category : string;
    tw_funderAddress : JsOpt string;
    tw_fundingDetails : JsOpt FundingDetails }.

Record ScanTokenInfo : Type :=
  { st_totalSupply : Z;
    st_symbol : string;
    st_name : string;
    st_decimals : Z;
    st_address : string }.

Record ScanData : Type :=
  { sd_tokenInfo : ScanTokenInfo;
    sd_analyzedWallets : list ClassifiedWallet;
    sd_teamWallets : list TeamWallet;
    sd_totalSupplyControlled : JsNumber.t;
    sd_tokenAddress : string }.

Record TrackingInfo : Type :=
  { tr_tokenAddress : string;
    tr_tokenSymbol : string;
    tr_totalSupply : Z;
    tr_decimals : Z;
    tr_totalSupplyControlled : JsNumber.t;
    tr_teamWallets : list TeamWallet;
    tr_allWalletsDetails : list ClassifiedWallet }.

Record AnalysisResult : Type :=
  { scanData : ScanData; trackingInfo : TrackingInfo }.

(** ** The environment of one run *)

(** The six [checkCancellation()] calls of [analyzeTeamSupply]
    (lines 82, 102, 108, 124, 137, 155). *)
Inductive Step : Type :=
| FetchTokenInfo
| FetchHolders
| FilterHolders
| AnalyzeWallets
| FilterTeamWallets
| CalculateSupply.

Definition stepNumber (s : Step) : nat :=
  match s with
  | FetchTokenInfo => 1
  | FetchHolders => 2
  | FilterHolders => 3
  | AnalyzeWallets => 4
  | FilterTeamWallets => 5
  | CalculateSupply => 6
  end.

(** The places where [cancellationToken.isCancelled()] is called. *)
Inductive PollSite : Type :=
| PollStep (s : Step)          (* line 74, in checkCancellation *)
| PollCatch                    (* line 196 *)
| PollBatch (i : nat)          (* line 251, i = first index of the batch *)
| PollSchedule (index : nat)   (* line 217 *)
| PollClassify (index : nat)   (* line 282 *)
| PollInactivity (index : nat) (* line 309 *)
| PollFunding (index : nat).   (* line 339 *)

(** The awaited calls to collaborators. *)
Inductive Call : Type :=
| CallGetAsset
| CallGetHolders
| CallSignatures (index : nat) (limit : nat)
| CallInactivity (index : nat)
| CallFunding (index : nat).

(** A call of the logger: its line in teamSupply.js (for [logStep], the
    line of the call of [logStep]) and which execution of that line it is
    (wallet index, first index of the batch, step number). *)
Record LogSite : Type := LogAt { line : nat; instance : nat }.

Inductive Event : Type :=
| EvPoll (site : PollSite) (answer : bool)
| EvCall (c : Call)
| EvLog (l : LogSite).

(** How an awaited promise settles, and how many milliseconds after the call. *)
Inductive Reply (A : Type) : Type :=
| Returns (after : N) (a : A)
| Throws (after : N) (e : JsError)
| NeverSettles.
Arguments Returns {A} after a.
Arguments Throws {A} after e.
Arguments NeverSettles {A}.

(** A failure of [getSolanaApi()] is not told apart from a failure of the
    call made on the object it returns. *)
Record Env : Type :=
  { (* null, or what isCancelled() answers at each place it is called *)
    cancellationToken : option (PollSite -> bool);
    (* None: the logger call returns; Some e: it throws e *)
    logger : LogSite -> option JsError;
    (* solanaApi.getAsset(tokenAddress, ...): null is None *)
    getAsset : string -> Reply (option AssetInfo);
    getHolders : string -> Reply (list Holder);
    (* solanaApi.getSignaturesForAddress(address, { limit }, ...), for the
       wallet at this index: the length of the array it resolves to *)
    getSignaturesForAddress : nat -> string -> nat -> Reply nat;
    (* checkInactivityPeriod(address, tokenAddress, ...) *)
    checkInactivityPeriod : nat -> string -> string -> Reply (option InactivityCheck);
    (* analyzeFunding([{ address }], ...): null is None, as is a null entry *)
    analyzeFunding : nat -> string -> Reply (option (list (option FundingInfo))) }.

(** ** Asynchronous computations

    A computation runs from a state of the world (the clock, what has been
    observed so far, and the scheduler's closure variable
    [lastProgressLog]) and either resolves, rejects, or stays pending.
    Observations carry the instant at which they are made; those of
    concurrent computations are kept computation by computation, so the
    list is not sorted by instant. *)

Record World : Type :=
  { now : N;
    trace : list (N * Event);
    lastProgressLog : nat }.

Inductive Outcome (A : Type) : Type :=
| Resolved (a : A)
| Rejected (e : JsError)
| Pending.
Arguments Resolved {A} a.
Arguments Rejected {A} e.
Arguments Pending {A}.

Definition M (A : Type) : Type := World -> World * Outcome A.

Definition ret {A : Type} (a : A) : M A := fun w => (w, Resolved a).

Definition throw {A : Type} (e : JsError) : M A := fun w => (w, Rejected e).

Definition bind {A B : Type} (m : M A) (k : A -> M B) : M B :=
  fun w =>
    match m w with
    | (w', Resolved a) => k a w'
    | (w', Rejected e) => (w', Rejected e)
    | (w', Pending) => (w', Pending)
    end.

(** [try { m } catch (e) { handler e }]. *)
Definition tryCatch {A : Type} (m : M A) (handler : JsError -> M A) : M A :=
  fun w =>
    match m w with
    | (w', Rejected e) => handler e w'
    | r => r
    end.

Declare Scope js_scope.
Delimit Scope js_scope with js.
Notation "'let*' x ':=' m 'in' k" := (bind m (fun x => k))
  (at level 10, x name, m at level 100, k at level 200) : js_scope.
Notation "'let*' ' p ':=' m 'in' k" := (bind m (fun x => match x with p => k end))
  (at level 10, p pattern, m at level 100, k at level 200) : js_scope.
Notation "m ';;' k" := (bind m (fun _ => k))
  (at level 100, k at level 200, right associativity) : js_scope.
Open Scope js_scope.

Definition emit (ev : Event) (w : World) : World :=
  {| now := now w; trace := trace w ++ [(now w, ev)]; lastProgressLog := lastProgressLog w |}.

Definition tick (d : N) (w : World) : World :=
  {| now := (now w + d)%N; trace := trace w; lastProgressLog := lastProgressLog w |}.

(** [await new Promise(resolve => setTimeout(resolve, d))]. *)
Definition sleep (d : N) : M unit := fun w => (tick d w, Resolved tt).

(** [await call(...)]. *)
Definition await {A : Type} (c : Call) (r : Reply A) : M A :=
  fun w =>
    match r with
    | Returns d a => (tick d (emit (EvCall c) w), Resolved a)
    | Throws d e => (tick d (emit (EvCall c) w), Rejected e)
    | NeverSettles => (emit (EvCall c) w, Pending)
    end.

Definition cancelledAt (env : Env) (site : PollSite) : bool :=
  match cancellationToken env with
  | Some isCancelled => isCancelled site
  | None => false
  end.

(** [cancellationToken && cancellationToken.isCancelled()]. *)
Definition poll (env : Env) (site : PollSite) : M bool :=
  fun w =>
    match cancellationToken env with
    | Some isCancelled => (emit (EvPoll site (isCancelled site)) w, Resolved (isCancelled site))
    | None => (w, Resolved false)
    end.

(** [logger.info(...)], [logger.debug(...)], [logger.warn(...)],
    [logger.error(...)]. *)
Definition log (env : Env) (l : LogSite) : M unit :=
  fun w =>
    match logger env l with
    | None => (emit (EvLog l) w, Resolved tt)
    | Some e => (emit (EvLog l) w, Rejected e)
    end.

Definition cancelled : JsError := Error "Analysis cancelled by user".

(** Reading and assigning the closure variable [lastProgressLog]. *)
Definition readLastProgressLog : M nat := fun w => (w, Resolved (lastProgressLog w)).

Definition writeLastProgressLog (n : nat) : M unit :=
  fun w => ({| now := now w; trace := trace w; lastProgressLog := n |}, Resolved tt).

(** ** The classifier (lines 280-433) *)

Section Classifier.

Variable env : Env.

(** [hasExcessiveTransactions], lines 396-411. *)
Definition hasExcessiveTransactions (index : nat) (address : string) : M bool :=
  tryCatch
    (let* signatures :=
       await (CallSignatures index 1001) (getSignaturesForAddress env index address 1001) in
     ret (1000 <=? signatures)%nat)
    (fun _ => ret false).

(** [isFreshWallet], lines 416-433. *)
Definition isFreshWallet (index : nat) (address : string) : M bool :=
  tryCatch
    (let* initialSignatures :=
       await (CallSignatures index (FRESH_WALLET_THRESHOLD + 1))
             (getSignaturesForAddress env index address (FRESH_WALLET_THRESHOLD + 1)) in
     ret (initialSignatures <? FRESH_WALLET_THRESHOLD)%nat)
    (fun _ => ret false).

(** [{ ...wallet, category: 'Error', error: error.message }]. *)
Definition errorWallet (wallet : Holder) (e : JsError) : ClassifiedWallet :=
  {| spread := wallet;
     category := "Error";
     daysSinceLastActivity := Undefined;
     funderAddress := Undefined;
     fundingDetails := Undefined;
     error := Val (message e) |}.

Definition classified (wallet : Holder) (category : string) (days : JsOpt Z)
    (funder : JsOpt string) (funding : JsOpt FundingDetails) : ClassifiedWallet :=
  {| spread := wallet;
     category := category;
     daysSinceLastActivity := days;
     funderAddress := funder;
     fundingDetails := funding;
     error := Undefined |}.

(** [inactivityCheck.category === c]. *)
Definition categoryIs (ic : InactivityCheck) (c : string) : bool :=
  match ic_category ic with
  | Some c' => String.eqb c' c
  | None => false
  end.

(** Lines 317-327: the category and inactivity age read off the result of
    the inactivity check; they start as ["Normal"] and [null]. *)
Definition inactivityCategory (inactivityCheck : option InactivityCheck)
    : string * JsOpt Z :=
  match inactivityCheck with
  | Some ic =>
      if categoryIs ic "No Token" then ("No Token", Null)
      else if categoryIs ic "No ATA Transaction" then ("No ATA Transaction", Null)
      else if isInactive ic
           then ("Inactive",
                 match ic_daysSinceLastActivity ic with
                 | Some d => Val d
                 | None => Undefined
                 end)
      else ("Normal", Null)
  | None => ("Normal", Null)
  end.

(** Line 331: [inactivityError.message &&
    !inactivityError.message.includes('No Token')]. *)
Definition worthLogging (inactivityError : JsError) : bool :=
  negb (String.eqb (message inactivityError) "")
  && negb (includes (message inactivityError) "No Token").

(** Lines 307-335: the inactivity check and the handler that swallows
    whatever it throws. *)
Definition inactivityStage (index : nat) (wallet : Holder) (tokenAddress : string)
    : M (string * JsOpt Z) :=
  tryCatch
    (let* c := poll env (PollInactivity index) in
     if c then throw cancelled
     else
       let* inactivityCheck :=
         await (CallInactivity index)
               (checkInactivityPeriod env index (address wallet) tokenAddress) in
       ret (inactivityCategory inactivityCheck))
    (fun inactivityError =>
       (if worthLogging inactivityError then log env (LogAt 332 index) else ret tt) ;;
       ret ("Normal", Null)).

(** Lines 338-375: the cancellation check, the funding analysis and the
    two ways of returning the wallet. *)
Definition fundingStage (index : nat) (wallet : Holder) (category : string)
    (days : JsOpt Z) : M ClassifiedWallet :=
  let* c := poll env (PollFunding index) in
  if c then throw cancelled
  else
    let* returned :=
      tryCatch
        (let* fundingResult :=
           await (CallFunding index) (analyzeFunding env index (address wallet)) in
         match fundingResult with
         | Some (fundingInfo :: _) =>
             ret (Some (classified wallet category days
                          (stringOrNull (optional fi_funderAddress fundingInfo))
                          (objectOrNull (optional fi_fundingDetails fundingInfo))))
         | _ => ret None
         end)
        (fun fundingError => log env (LogAt 365 index) ;; ret None) in
    match returned with
    | Some w => ret w
    | None => ret (classified wallet category days Null Null)
    end.

(** Lines 302-375: what follows the fast track. *)
Definition detailedAnalysis (index : nat) (wallet : Holder) (tokenAddress : string)
    : M ClassifiedWallet :=
  let* isFresh := isFreshWallet index (address wallet) in
  let* ' (category, days) :=
    (if isFresh then ret ("Fresh", Null)
     else inactivityStage index wallet tokenAddress) in
  fundingStage index wallet category days.

(** Lines 286-376: the body of the outer [try]. *)
Definition analyzeWallet_try (index : nat) (wallet : Holder) (tokenAddress : string)
    : M ClassifiedWallet :=
  let* excessive := hasExcessiveTransactions index (address wallet) in
  if excessive then ret (classified wallet "Normal" Null Null Null)
  else detailedAnalysis index wallet tokenAddress.

(** Lines 377-390: the handler of the outer [try]. *)
Definition analyzeWallet_catch (index : nat) (wallet : Holder) (e : JsError)
    : M ClassifiedWallet :=
  if includes (message e) "cancelled" then throw e
  else log env (LogAt 384 index) ;; ret (errorWallet wallet e).

(** [analyzeWallet], lines 280-391. [index] is not a parameter of the
    source function: it names the invocation, so that the environment can
    answer each wallet's calls separately. *)
Definition analyzeWallet (index : nat) (wallet : Holder) (tokenAddress : string)
    : M ClassifiedWallet :=
  let* c := poll env (PollClassify index) in
  if c then throw cancelled
  else tryCatch (analyzeWallet_try index wallet tokenAddress)
                (analyzeWallet_catch index wallet).

End Classifier.

(** ** The batch scheduler (lines 209-275) *)

(** [Promise.race([m, new Promise((_, reject) => setTimeout(() => reject(e), d))])]:
    [m] wins when it settles before the timer fires, and also when it
    settles at the very instant the timer is due: [m] is called, and its
    first awaited call made, before the timer is armed, so what [m] waits
    for is served first. When the timer wins, [m] is not stopped, but what
    it observes after the timer has fired is left out of the record of the
    run. *)
Definition race {A : Type} (m : M A) (d : N) (e : JsError) : M A :=
  fun w =>
    let '(w', o) := m w in
    let deadline := (now w + d)%N in
    let timeout :=
      ({| now := deadline;
          trace := trace w ++
                   List.filter (fun ev => (fst ev <=? deadline)%N)
                          (skipn (length (trace w)) (trace w'));
          lastProgressLog := lastProgressLog w' |},
       Rejected e) in
    match o with
    | Pending => timeout
    | _ => if (now w' <=? deadline)%N then (w', o) else timeout
    end.

(** The promises of one batch, started one after the other at the same
    instant: each runs from the instant the batch starts, and the
    synchronous effects (observations, [lastProgressLog]) accumulate in the
    order of the calls. The result pairs each outcome with its instant. *)
Fixpoint startAll {A : Type} (start : N) (ms : list (M A)) (w : World)
    : World * list (N * Outcome A) :=
  match ms with
  | [] => (w, [])
  | m :: rest =>
      let '(w1, o) :=
        m {| now := start; trace := trace w; lastProgressLog := lastProgressLog w |} in
      let '(w2, os) := startAll start rest w1 in
      (w2, (now w1, o) :: os)
  end.

(** The first promise to reject: the earliest, and among those of one
    instant the first started. *)
Fixpoint firstRejection {A : Type} (os : list (N * Outcome A)) : option (N * JsError) :=
  match os with
  | [] => None
  | (t, o) :: rest =>
      match o, firstRejection rest with
      | Rejected e, Some (t', e') => if (t' <? t)%N then Some (t', e') else Some (t, e)
      | Rejected e, None => Some (t, e)
      | _, r => r
      end
  end.

(** The values of the promises when all of them have resolved, with the
    instant the last one did. *)
Fixpoint allResolved {A : Type} (start : N) (os : list (N * Outcome A)) : option (N * list A) :=
  match os with
  | [] => Some (start, [])
  | (t, Resolved a) :: rest =>
      match allResolved start rest with
      | Some (t', l) => Some (N.max t t', a :: l)
      | None => None
      end
  | _ => None
  end.

(** [await Promise.all(ms)]. *)
Definition promiseAll {A : Type} (ms : list (M A)) : M (list A) :=
  fun w =>
    let '(w', os) := startAll (now w) ms w in
    let at_ (t : N) :=
      {| now := t; trace := trace w'; lastProgressLog := lastProgressLog w' |} in
    match firstRejection os with
    | Some (t, e) => (at_ t, Rejected e)
    | None =>
        match allResolved (now w) os with
        | Some (t, l) => (at_ t, Resolved l)
        | None => (at_ (now w), Pending)
        end
    end.

(** [batch.map((wallet, batchIndex) => f(wallet, i + batchIndex))]. *)
Fixpoint mapFrom {A B : Type} (f : A -> nat -> B) (i : nat) (l : list A) : list B :=
  match l with
  | [] => []
  | x :: rest => f x i :: mapFrom f (S i) rest
  end.

(** [wallets.slice(i, j)]. *)
Definition slice {A : Type} (i j : nat) (l : list A) : list A :=
  firstn (j - i) (skipn i l).

Section Scheduler.

Variable env : Env.
Variable wallets : list Holder.
Variable tokenAddress : string.

(** [Math.max(1, Math.ceil(wallets.length / 10))]. *)
Definition progressStep : nat := Nat.max 1 ((length wallets + 9) / 10).

Definition timeoutError (wallet : Holder) : JsError :=
  Error ("Wallet analysis timeout for " ++ slice0 8 (address wallet) ++ "...").

(** [analyzeWalletWithTimeout], lines 215-245. *)
Definition analyzeWalletWithTimeout (wallet : Holder) (index : nat) : M ClassifiedWallet :=
  let* c := poll env (PollSchedule index) in
  if c then throw cancelled
  else
    (let* last := readLastProgressLog in
     if (last + progressStep <=? index)%nat
     then log env (LogAt 223 index) ;; writeLastProgressLog index
     else ret tt) ;;
    tryCatch
      (race (analyzeWallet env index wallet tokenAddress)
            WALLET_ANALYSIS_TIMEOUT (timeoutError wallet))
      (fun e => log env (LogAt 238 index) ;; ret (errorWallet wallet e)).

(** The [for] loop of lines 249-271; [fuel] bounds the number of batches. *)
Fixpoint batches (fuel : nat) (i : nat) (analyzedWallets : list ClassifiedWallet)
    : M (list ClassifiedWallet) :=
  if (i <? length wallets)%nat then
    match fuel with
    | O => fun w => (w, Pending)
    | S fuel' =>
        let* c := poll env (PollBatch i) in
        if c then log env (LogAt 252 i) ;; throw cancelled
        else
          let batch := slice i (i + BATCH_SIZE) wallets in
          log env (LogAt 257 i) ;;
          let* batchResults := promiseAll (mapFrom analyzeWalletWithTimeout i batch) in
          (if (i + BATCH_SIZE <? length wallets)%nat then sleep BATCH_DELAY else ret tt) ;;
          batches fuel' (i + BATCH_SIZE)%nat (analyzedWallets ++ batchResults)
    end
  else ret analyzedWallets.

(** [analyzeWalletsWithTimeout], lines 209-275. Each round of the loop
    moves [i] forward by [BATCH_SIZE], so [length wallets] rounds are
    enough. *)
Definition analyzeWalletsWithTimeout : M (list ClassifiedWallet) :=
  writeLastProgressLog 0 ;;
  let* analyzedWallets := batches (length wallets) 0 [] in
  log env (LogAt 273 0) ;;
  ret analyzedWallets.

End Scheduler.

(** ** The orchestrator (lines 52-204) *)

Section Orchestrator.

Variable env : Env.
Variable tokenAddress : string.

(** [checkCancellation], lines 73-78; [logStep] calls [logger.debug]. *)
Definition checkCancellation (s : Step) : M unit :=
  let* c := poll env (PollStep s) in
  if c then log env (LogAt 75 (stepNumber s)) ;; throw cancelled
  else ret tt.

(** The predicate of the filter of lines 109-119. *)
Definition isSignificant (tokenInfo : TokenInfo) (holder : Holder) : bool :=
  if has KNOWN_LP_POOLS (address holder) then false
  else
    let rawBalance := BigNumber.of_Z (balance holder) in
    let percentage :=
      BigNumber.dividedBy rawBalance (BigNumber.of_Z (total_supply tokenInfo)) in
    BigNumber.isGreaterThanOrEqualTo percentage SUPPLY_THRESHOLD.

(** Lines 138-150. *)
Definition teamWalletsOf (tokenInfo : TokenInfo) (analyzedWallets : list ClassifiedWallet)
    : list TeamWallet :=
  map (fun w =>
         {| tw_address := address (spread w);
            tw_balance := pretty (balance (spread w));
            tw_percentage :=
              BigNumber.toNumber
                (BigNumber.multipliedBy
                   (BigNumber.dividedBy (BigNumber.of_Z (balance (spread w)))
                                        (BigNumber.of_Z (total_supply tokenInfo)))
                   (BigNumber.of_Z 100));
            tw_category := category w;
            tw_funderAddress :=
              match funderAddress w with
              | Val (String a s) => Val (String a s)
              | _ => Null
              end;
            tw_fundingDetails :=
              match fundingDetails w with
              | Val d => Val d
              | _ => Null
              end |})
      (List.filter (fun w => isTeamWalletCategory (category w)) analyzedWallets).

(** Lines 156-160. *)
Definition teamSupplyHeldOf (analyzedWallets : list ClassifiedWallet) : BigNumber.t :=
  fold_left
    (fun total wallet => BigNumber.plus total (BigNumber.of_Z (balance (spread wallet))))
    (List.filter (fun w => isTeamWalletCategory (category w)) analyzedWallets)
    (BigNumber.of_Z 0).

(** Lines 162-165. *)
Definition totalSupplyControlledOf (tokenInfo : TokenInfo)
    (analyzedWallets : list ClassifiedWallet) : JsNumber.t :=
  BigNumber.toNumber
    (BigNumber.multipliedBy
       (BigNumber.dividedBy (teamSupplyHeldOf analyzedWallets)
                            (BigNumber.of_Z (total_supply tokenInfo)))
       (BigNumber.of_Z 100)).

(** The object returned on lines 170-193. *)
Definition resultObject (tokenInfo : TokenInfo) (analyzedWallets : list ClassifiedWallet)
    (teamWallets : list TeamWallet) (totalSupplyControlled : JsNumber.t) : AnalysisResult :=
  {| scanData :=
       {| sd_tokenInfo :=
            {| st_totalSupply := total_supply tokenInfo;
               st_symbol := ti_symbol tokenInfo;
               st_name := ti_name tokenInfo;
               st_decimals := ti_decimals tokenInfo;
               st_address := tokenAddress |};
          sd_analyzedWallets := analyzedWallets;
          sd_teamWallets := teamWallets;
          sd_totalSupplyControlled := totalSupplyControlled;
          sd_tokenAddress := tokenAddress |};
     trackingInfo :=
       {| tr_tokenAddress := tokenAddress;
          tr_tokenSymbol := ti_symbol tokenInfo;
          tr_totalSupply := total_supply tokenInfo;
          tr_decimals := ti_decimals tokenInfo;
          tr_totalSupplyControlled := totalSupplyControlled;
          tr_teamWallets := teamWallets;
          tr_allWalletsDetails := analyzedWallets |} |}.

(** Lines 134-193: from the analysed wallets to the result. *)
Definition aggregate (tokenInfo : TokenInfo) (analyzedWallets : list ClassifiedWallet)
    : M AnalysisResult :=
  log env (LogAt 134 0) ;;
  checkCancellation FilterTeamWallets ;;
  let teamWallets := teamWalletsOf tokenInfo analyzedWallets in
  log env (LogAt 152 0) ;;
  checkCancellation CalculateSupply ;;
  let totalSupplyControlled := totalSupplyControlledOf tokenInfo analyzedWallets in
  log env (LogAt 167 0) ;;
  ret (resultObject tokenInfo analyzedWallets teamWallets totalSupplyControlled).

(** Lines 81-193: the body of the [try]. *)
Definition analyzeTeamSupply_try : M AnalysisResult :=
  checkCancellation FetchTokenInfo ;;
  log env (LogAt 83 0) ;;
  let* assetInfo := await CallGetAsset (getAsset env tokenAddress) in
  match assetInfo with
  | None => throw (Error "No token info found")
  | Some assetInfo =>
      let tokenInfo :=
        {| total_supply := supply_total assetInfo;
           ti_symbol := symbol assetInfo;
           ti_name := name assetInfo;
           ti_decimals := decimals assetInfo;
           ti_address := tokenAddress |} in
      log env (LogAt 99 0) ;;
      checkCancellation FetchHolders ;;
      log env (LogAt 103 0) ;;
      let* allHolders := await CallGetHolders (getHolders env tokenAddress) in
      log env (LogAt 105 0) ;;
      checkCancellation FilterHolders ;;
      let significantHolders := List.filter (isSignificant tokenInfo) allHolders in
      log env (LogAt 121 0) ;;
      checkCancellation AnalyzeWallets ;;
      log env (LogAt 125 0) ;;
      let* analyzedWallets :=
        analyzeWalletsWithTimeout env significantHolders tokenAddress in
      aggregate tokenInfo analyzedWallets
  end.

(** Lines 195-203: the handler of the [try]. *)
Definition analyzeTeamSupply_catch (e : JsError) : M AnalysisResult :=
  let* c := poll env PollCatch in
  if c then log env (LogAt 197 0) ;; throw cancelled
  else log env (LogAt 201 0) ;; throw e.

(** [analyzeTeamSupply], lines 52-204. *)
Definition analyzeTeamSupply : M AnalysisResult :=
  log env (LogAt 54 0) ;;
  tryCatch analyzeTeamSupply_try analyzeTeamSupply_catch.

End Orchestrator.

(** A run starts at instant 0 with nothing observed. *)
Definition start : World := {| now := 0; trace := []; lastProgressLog := 0 |}.

(** * Handlers of the bot *)

(** ** Computations over a state of their own

    The code of the handlers runs one step after the other; a computation
    resolves (returns), rejects (throws) or, when it awaits a promise that
    never settles, stays pending. *)

Module IO.

Definition t (S A : Type) : Type := S -> S * Outcome A.

Definition ret {S A : Type} (a : A) : t S A := fun s => (s, Resolved a).

Definition throw {S A : Type} (e : JsError) : t S A := fun s => (s, Rejected e).

Definition bind {S A B : Type} (m : t S A) (k : A -> t S B) : t S B :=
  fun s =>
    match m s with
    | (s', Resolved a) => k a s'
    | (s', Rejected e) => (s', Rejected e)
    | (s', Pending) => (s', Pending)
    end.

(** [try { m } catch (e) { handler e }]. *)
Definition tryCatch {S A : Type} (m : t S A) (handler : JsError -> t S A) : t S A :=
  fun s =>
    match m s with
    | (s', Rejected e) => handler e s'
    | r => r
    end.

(** A computation that never stays pending. *)
Definition settles {S A : Type} (m : t S A) : Prop := forall s, snd (m s) <> Pending.

(** A computation that leaves the part [part] of the state as it is. *)
Definition keeps {S A P : Type} (part : S -> P) (m : t S A) : Prop :=
  forall s, part (fst (m s)) = part s.

End IO.

Declare Scope io_scope.
Delimit Scope io_scope with io.
Notation "'let*' x ':=' m 'in' k" := (IO.bind m (fun x => k))
  (at level 10, x name, m at level 100, k at level 200) : io_scope.
Notation "m ';;' k" := (IO.bind m (fun _ => k))
  (at level 100, k at level 200, right associativity) : io_scope.

(** Errors the engine raises; the text of their message is the engine's. *)
Definition TypeError (message : string) : JsError := Error message.
Definition RangeError (message : string) : JsError := Error message.

(** ** Telegram messages, as far as the handlers read them *)

Record User : Type :=
  { from_id : Z;
    from_username : option string;
    from_first_name : option string;
    from_last_name : option string }.

Record Chat : Type := { chat_id : Z; chat_title : option string }.

Record Message : Type :=
  { msg_from : option User;
    msg_chat : option Chat;
    msg_date : option Z;      (* seconds since the epoch *)
    msg_text : option string }.

(** [msg.from.id] and the like: reading a property of [undefined] throws. *)
Definition property {S A B : Type} (object : option A) (field : A -> B) (name : string)
    : IO.t S B :=
  match object with
  | Some o => IO.ret (field o)
  | None =>
      IO.throw (TypeError ("Cannot read properties of undefined (reading '" ++ name ++ "')"))
  end.

(** ** The log of group messages (src/unnamed/part_000) *)

Module GroupMessages.

Local Open Scope io_scope.

(** *** The two patterns (lines 9-10) *)

(** A range [lo-hi] of a character class. *)
Definition range (lo hi : ascii) (c : ascii) : bool :=
  (nat_of_ascii lo <=? nat_of_ascii c)%nat && (nat_of_ascii c <=? nat_of_ascii hi)%nat.

(** [[1-9A-HJ-NP-Za-km-z]]. *)
Definition base58 (c : ascii) : bool :=
  range "1" "9" c || range "A" "H" c || range "J" "N" c || range "P" "Z" c
  || range "a" "k" c || range "m" "z" c.

(** [[a-fA-F0-9]]. *)
Definition hex (c : ascii) : bool :=
  range "a" "f" c || range "A" "F" c || range "0" "9" c.

(** How many characters of the class [s] starts with. *)
Fixpoint classRun (class : ascii -> bool) (s : string) : nat :=
  match s with
  | String c s' => if class c then S (classRun class s') else O
  | EmptyString => O
  end.

Fixpoint drop (n : nat) (s : string) : string :=
  match n, s with
  | S n', String _ s' => drop n' s'
  | _, _ => s
  end.

(** [class{min,max}] at the start of [s]: as many characters as there
    are, up to [max]; what is left of [s] when that makes [min] at least. *)
Definition repeated (class : ascii -> bool) (min max : nat) (s : string) : option string :=
  let n := Nat.min max (classRun class s) in
  if (min <=? n)%nat then Some (drop n s) else None.

(** A literal at the start of [s]. *)
Fixpoint literal (l s : string) : option string :=
  match l, s with
  | EmptyString, _ => Some s
  | String a l', String b s' => if Ascii.eqb a b then literal l' s' else None
  | String _ _, EmptyString => None
  end.

(** [RegExp.prototype.test] for a pattern without flags: the pattern is
    tried at each position of the text, from the left. *)
Fixpoint test (pattern : string -> option string) (text : string) : bool :=
  match pattern text with
  | Some _ => true
  | None =>
      match text with
      | String _ rest => test pattern rest
      | EmptyString => false
      end
  end.

Definition SOLANA_ADDRESS_REGEX : string -> option string := repeated base58 32 44.

Definition ETHEREUM_ADDRESS_REGEX : string -> option string :=
  fun s =>
    match literal "0x" s with
    | Some rest => repeated hex 40 40 rest
    | None => None
    end.

(** [containsValidAddress], lines 13-15. *)
Definition containsValidAddress (text : string) : bool :=
  test SOLANA_ADDRESS_REGEX text || test ETHEREUM_ADDRESS_REGEX text.

(** *** The file and the disk *)

(** The object of lines 30-39; [date] is the instant in milliseconds that
    [toISOString] writes out. *)
Record MessageData : Type :=
  { userId : Z;
    username : option string;
    firstName : option string;
    lastName : option string;
    chatId : Z;
    chatTitle : option string;
    date : Z;
    text : string }.

(** An element of the array in the file: a message logged earlier, or any
    other JSON value. *)
Inductive Item : Type :=
| Logged (m : MessageData)
| Foreign (json : string).

(** The text of the file, by what [data.trim()] and [JSON.parse(data)]
    make of it. *)
Inductive Content : Type :=
| Blank                                (* nothing but white space *)
| Malformed (parseError : JsError)     (* JSON.parse throws *)
| Array (messages : list Item)         (* a JSON array *)
| NotArray.                            (* any other JSON value *)

Record Disk : Type :=
  { dataDir : bool;                             (* the directory exists *)
    GROUP_MESSAGES_FILE : option Content }.     (* None: no such file *)

(** What goes wrong, when something does: the calls of [fs] that throw,
    and the calls of the logger that throw, by line. *)
Record Faults : Type :=
  { readFileSync_throws : option JsError;
    writeFileSync_throws : option JsError;
    mkdirSync_throws : option JsError;
    logger_throws : nat -> option JsError }.

(** The disk, and the lines of the calls made to the logger. *)
Record State : Type := { disk : Disk; logged : list nat }.

Section Code.

Variable faults : Faults.

Definition logger (line : nat) : IO.t State unit :=
  fun s =>
    ({| disk := disk s; logged := (logged s ++ [line])%list |},
     match logger_throws faults line with
     | Some e => Rejected e
     | None => Resolved tt
     end).

Definition existsSync {A : Type} (path : Disk -> option A) : IO.t State bool :=
  fun s => (s, Resolved (match path (disk s) with Some _ => true | None => false end)).

Definition ENOENT : JsError := Error "ENOENT: no such file or directory".

Definition readFileSync : IO.t State Content :=
  fun s =>
    match readFileSync_throws faults, GROUP_MESSAGES_FILE (disk s) with
    | Some e, _ => (s, Rejected e)
    | None, Some data => (s, Resolved data)
    | None, None => (s, Rejected ENOENT)
    end.

(** Writing replaces the file; it needs the directory. *)
Definition writeFileSync (data : Content) : IO.t State unit :=
  fun s =>
    match writeFileSync_throws faults with
    | Some e => (s, Rejected e)
    | None =>
        if dataDir (disk s)
        then ({| disk := {| dataDir := true; GROUP_MESSAGES_FILE := Some data |};
                 logged := logged s |}, Resolved tt)
        else (s, Rejected ENOENT)
    end.

Definition mkdirSync : IO.t State unit :=
  fun s =>
    match mkdirSync_throws faults with
    | Some e => (s, Rejected e)
    | None =>
        ({| disk := {| dataDir := true;
                       GROUP_MESSAGES_FILE := GROUP_MESSAGES_FILE (disk s) |};
            logged := logged s |}, Resolved tt)
    end.

(** [new Date(seconds * 1000).toISOString()]: a missing date makes [NaN],
    and an instant more than 8.64e15 ms from the epoch is no date. *)
Definition toISOString (seconds : option Z) : IO.t State Z :=
  match seconds with
  | Some t =>
      if Z.abs (t * 1000) <=? 8640000000000000 then IO.ret (t * 1000)
      else IO.throw (RangeError "Invalid time value")
  | None => IO.throw (RangeError "Invalid time value")
  end.

(** Lines 30-39. *)
Definition messageDataOf (msg : Message) (text : string) : IO.t State MessageData :=
  let* userId := property (msg_from msg) from_id "id" in
  let* username := property (msg_from msg) from_username "username" in
  let* firstName := property (msg_from msg) from_first_name "first_name" in
  let* lastName := property (msg_from msg) from_last_name "last_name" in
  let* chatId := property (msg_chat msg) chat_id "id" in
  let* chatTitle := property (msg_chat msg) chat_title "title" in
  let* date := toISOString (msg_date msg) in
  IO.ret {| userId := userId; username := username; firstName := firstName;
            lastName := lastName; chatId := chatId; chatTitle := chatTitle;
            date := date; text := text |}.

(** Lines 41-54: the messages already in the file. [None] stands for a
    value that is not an array. *)
Definition existingMessages : IO.t State (option (list Item)) :=
  let* there := existsSync GROUP_MESSAGES_FILE in
  if there then
    IO.tryCatch
      (let* data := readFileSync in
       match data with
       | Blank => IO.ret (Some [])
       | Malformed parseError => IO.throw parseError
       | Array messages => IO.ret (Some messages)
       | NotArray => IO.ret None
       end)
      (fun parseError => logger 50 ;; IO.ret (Some []))
  else IO.ret (Some []).

(** [messages.push(messageData)], line 56. *)
Definition push (messages : option (list Item)) (messageData : MessageData)
    : IO.t State (list Item) :=
  match messages with
  | Some l => IO.ret (l ++ [Logged messageData])%list
  | None => IO.throw (TypeError "messages.push is not a function")
  end.

(** Lines 20-64: the body of the outer [try]. *)
Definition logGroupMessage_try (msg : option Message) : IO.t State unit :=
  match msg with
  | None => logger 22
  | Some msg =>
      match msg_text msg with
      | None | Some EmptyString => logger 22
      | Some text =>
          if negb (containsValidAddress text) then IO.ret tt
          else
            let* messageData := messageDataOf msg text in
            let* messages := existingMessages in
            let* messages := push messages messageData in
            IO.tryCatch
              (writeFileSync (Array messages) ;; logger 61)
              (fun writeError => logger 63)
      end
  end.

(** [logGroupMessage], lines 18-68. *)
Definition logGroupMessage (msg : option Message) : IO.t State unit :=
  IO.tryCatch (logGroupMessage_try msg) (fun error => logger 66).

(** [initialize], lines 71-85. *)
Definition initialize : IO.t State unit :=
  let* there := existsSync (fun d => if dataDir d then Some tt else None) in
  (if there then IO.ret tt else mkdirSync) ;;
  let* there := existsSync GROUP_MESSAGES_FILE in
  if there then IO.ret tt
  else IO.tryCatch (writeFileSync (Array [])) (fun error => logger 82).

End Code.

(** Nothing goes wrong. *)
Definition faultless : Faults :=
  {| readFileSync_throws := None;
     writeFileSync_throws := None;
     mkdirSync_throws := None;
     logger_throws := fun _ => None |}.

(** The messages a file holds for the next call: those of a readable JSON
    array, none otherwise. *)
Definition kept (faults : Faults) (d : Disk) : list Item :=
  match readFileSync_throws faults, GROUP_MESSAGES_FILE d with
  | None, Some (Array messages) => messages
  | _, _ => []
  end.

(** [messageData] is the record that lines 30-39 make of [msg]: the
    message has a text in which an address is found, and a sender, a chat
    and a date that can be read. *)
Definition recordOf (msg : Message) (messageData : MessageData) : Prop :=
  exists input,
    msg_text msg = Some input
    /\ containsValidAddress input = true
    /\ forall s : State, messageDataOf msg input s = (s, Resolved messageData).

(** The state after the messages of a list have been handed to
    [logGroupMessage] one after the other. *)
Definition logAll (faults : Faults) (msgs : list Message) (s : State) : State :=
  fold_left (fun s msg => fst (logGroupMessage faults (Some msg) s)) msgs s.

(** All the characters of [s] are of the class. *)
Fixpoint every (class : ascii -> bool) (s : string) : bool :=
  match s with
  | String c s' => class c && every class s'
  | EmptyString => true
  end.

End GroupMessages.

(** ** The search command (src/unnamed/part_001) *)

Module SearchHandler.

Local Open Scope io_scope.

(** The options given to [bot.sendLongMessage]. *)
Record SendOptions : Type :=
  { parse_mode : option string;
    disable_web_page_preview : option bool;
    message_thread_id : option Z }.

(** A call of [bot.sendLongMessage]. *)
Record Sent : Type := { chatId : Z; message : string; options : SendOptions }.

(** A call of [searchWallets]. *)
Record Search : Type :=
  { tokenAddress : string; searchCriteria : list string; mainContext : string }.

(** The collaborators: how the promise of each call settles, and the
    calls of the logger that throw, by line. *)
Record Env : Type :=
  { sendLongMessage : Sent -> Outcome unit;
    searchWallets : Search -> Outcome (list string);
    logger_throws : nat -> option JsError }.

(** The calls made so far. *)
Record State : Type :=
  { sent : list Sent; searches : list Search; logged : list nat }.

Section Code.

Variable env : Env.

Definition logger (line : nat) : IO.t State unit :=
  fun s =>
    ({| sent := sent s; searches := searches s; logged := (logged s ++ [line])%list |},
     match logger_throws env line with
     | Some e => Rejected e
     | None => Resolved tt
     end).

(** [await bot.sendLongMessage(chatId, message, options)]. *)
Definition send (chatId : Z) (message : string) (options : SendOptions) : IO.t State unit :=
  fun s =>
    let call := {| chatId := chatId; message := message; options := options |} in
    ({| sent := (sent s ++ [call])%list; searches := searches s; logged := logged s |},
     sendLongMessage env call).

(** [{ message_thread_id: messageThreadId }]. *)
Definition inThread (messageThreadId : option Z) : SendOptions :=
  {| parse_mode := None;
     disable_web_page_preview := None;
     message_thread_id := messageThreadId |}.

(** [_parseArgs], lines 45-48: [undefined] cannot be destructured. *)
Definition _parseArgs (args : option (list string))
    : IO.t State (option string * list string) :=
  match args with
  | None => IO.throw (TypeError "args is not iterable")
  | Some [] => IO.ret (None, [])
  | Some (tokenAddress :: searchCriteria) => IO.ret (Some tokenAddress, searchCriteria)
  end.

(** [_sendInitialMessage], lines 50-56. *)
Definition _sendInitialMessage (chatId : Z) (tokenAddress : string)
    (messageThreadId : option Z) : IO.t State unit :=
  send chatId ("Searching wallets for coin: " ++ tokenAddress) (inThread messageThreadId).

(** [_performSearch], lines 58-60. *)
Definition _performSearch (tokenAddress : string) (searchCriteria : list string)
    : IO.t State (list string) :=
  fun s =>
    let call := {| tokenAddress := tokenAddress;
                   searchCriteria := searchCriteria;
                   mainContext := "searchWallet" |} in
    ({| sent := sent s; searches := (searches s ++ [call])%list; logged := logged s |},
     searchWallets env call).

Definition newline : string := String (ascii_of_nat 10) EmptyString.

(** [_sendResults], lines 62-84. *)
Definition _sendResults (chatId : Z) (results : list string) (messageThreadId : option Z)
    : IO.t State unit :=
  if (length results =? 0)%nat
  then send chatId "No matching wallets found." (inThread messageThreadId)
  else
    let message :=
      "Found " ++ pretty (length results) ++ " matching wallet(s):" ++ newline ++ newline in
    let message := message ++ String.concat "" results in
    send chatId message
         {| parse_mode := Some "HTML";
            disable_web_page_preview := Some true;
            message_thread_id := messageThreadId |}.

(** Lines 15-37: the body of the [try]. *)
Definition handleCommand_try (msg : Message) (args : option (list string))
    (messageThreadId : option Z) : IO.t State unit :=
  let* parsed := _parseArgs args in
  match fst parsed with
  | None | Some EmptyString =>
      let* chatId := property (msg_chat msg) chat_id "id" in
      send chatId "Please provide a token address." (inThread messageThreadId)
  | Some tokenAddress =>
      if (length (snd parsed) =? 0)%nat then
        let* chatId := property (msg_chat msg) chat_id "id" in
        send chatId "Please provide search criteria." (inThread messageThreadId)
      else
        let* chatId := property (msg_chat msg) chat_id "id" in
        _sendInitialMessage chatId tokenAddress messageThreadId ;;
        let* results := _performSearch tokenAddress (snd parsed) in
        let* chatId := property (msg_chat msg) chat_id "id" in
        _sendResults chatId results messageThreadId
  end.

(** [handleCommand], lines 9-43. *)
Definition handleCommand (msg : Message) (args : option (list string))
    (messageThreadId : option Z) : IO.t State unit :=
  let* userId := property (msg_from msg) from_id "id" in
  let* username := property (msg_from msg) from_username "username" in
  logger 11 ;;
  IO.tryCatch (handleCommand_try msg args messageThreadId)
              (fun error => logger 40 ;; IO.throw error).

End Code.

(** What the command reports for a list of results. *)
Definition report (chatId : Z) (results : list string) (messageThreadId : option Z) : Sent :=
  match results with
  | [] =>
      {| chatId := chatId; message := "No matching wallets found.";
         options := inThread messageThreadId |}
  | _ =>
      {| chatId := chatId;
         message := "Found " ++ pretty (length results) ++ " matching wallet(s):"
                    ++ newline ++ newline ++ String.concat "" results;
         options := {| parse_mode := Some "HTML";
                       disable_web_page_preview := Some true;
                       message_thread_id := messageThreadId |} |}
  end.

End SearchHandler.

(** ** The arithmetic the specification speaks of *)

(** Truncation of a rational towards zero. *)
Definition Qtruncate (q : Q) : Z :=
  if Qle_bool 0 q then Qfloor q else Qceiling q.

(** [q] cut to 18 fractional digits, never rounded up in magnitude. *)
Definition fixed18 (q : Q) : Q :=
  (inject_Z (Qtruncate (q * inject_Z (10 ^ 18))) / inject_Z (10 ^ 18))%Q.

(** [balance / totalSupply] in 18-digit truncating decimal arithmetic. *)
Definition spec_share (balance totalSupply : Z) : Q :=
  fixed18 (inject_Z balance / inject_Z totalSupply).

(** [100 * (teamBalance / totalSupply)], the division in 18-digit
    truncating decimal arithmetic. *)
Definition spec_totalSupplyControlled (teamBalance totalSupply : Z) : Q :=
  (inject_Z 100 * spec_share teamBalance totalSupply)%Q.

(** The sum of the balances of the wallets whose category is a team
    category. *)
Definition teamBalance (analyzedWallets : list ClassifiedWallet) : Z :=
  fold_right Z.add 0
    (map (fun w => balance (spread w))
         (List.filter (fun w => bool_decide (category w ∈ TEAM_WALLET_CATEGORIES)) analyzedWallets)).

(** ** Vocabulary of the statements *)

(** The world once the token has been asked at [site]. *)
Definition polled (env : Env) (site : PollSite) (w : World) : World :=
  fst (poll env site w).

(** The logger never throws. *)
Definition quiet (env : Env) : Prop := forall l, logger env l = None.

(** The polls made by the orchestrator and the scheduler themselves, as
    opposed to those made inside a wallet's classification. *)
Definition fatal (site : PollSite) : bool :=
  match site with
  | PollStep _ | PollCatch | PollBatch _ | PollSchedule _ => true
  | PollClassify _ | PollInactivity _ | PollFunding _ => false
  end.

(** The order in which polls are certain to happen in a run: the first
    four steps, then everything asked while the scheduler runs, then the
    last two steps; the poll of the handler comes after whatever threw. *)
Definition phase (site : PollSite) : nat :=
  match site with
  | PollStep s => match s with
                  | FilterTeamWallets => 6
                  | CalculateSupply => 7
                  | _ => stepNumber s
                  end
  | PollBatch _ | PollSchedule _ | PollClassify _ | PollInactivity _ | PollFunding _ => 5
  | PollCatch => 8
  end.

(** A token that, once it has reported cancelled, reports cancelled at
    every later poll. *)
Definition staysCancelled (env : Env) : Prop :=
  forall s s', (phase s < phase s')%nat ->
               cancelledAt env s = true -> cancelledAt env s' = true.

(** The token reported cancelled at [site] during the run that ended in
    world [w]. *)
Definition reportedCancelled (w : World) (site : PollSite) : Prop :=
  exists t, In (t, EvPoll site true) (trace w).





(** Every observation of kind [C] in [tr'] was already in [tr]. *)
Definition addsNo (C : Event -> Prop) (tr tr' : list (N * Event)) : Prop :=
  forall t ev, In (t, ev) tr' -> C ev -> In (t, ev) tr.

(** A computation that makes no observation of kind [C]. *)
Definition silent {A : Type} (C : Event -> Prop) (m : M A) : Prop :=
  forall w, addsNo C (trace w) (trace (fst (m w))).

(** A computation that makes no observation of kind [C] unless it rejects
    with the cancellation error. *)
Definition guarded {A : Type} (C : Event -> Prop) (m : M A) : Prop :=
  forall w, addsNo C (trace w) (trace (fst (m w))) \/ snd (m w) = Rejected cancelled.

(** A computation that always settles, and rejects only with the
    cancellation error. *)
Definition clean {A : Type} (m : M A) : Prop :=
  forall w, (exists a, snd (m w) = Resolved a) \/ snd (m w) = Rejected cancelled.

(** The closed enumeration of wallet categories. *)
Definition WalletCategory : list string :=
  ["Normal"; "Fresh"; "Inactive"; "No Token"; "No ATA Transaction"; "Error"].

(** The fields of an entry agree with its category: an [Error] entry
    carries a message and nothing else; any other entry carries no message,
    funder fields that are [null] or set (a funder address is never the
    empty string), and an inactivity age only when it is [Inactive]. *)
Definition coherent (v : ClassifiedWallet) : Prop :=
  (category v = "Error" ->
   (exists msg, error v = Val msg)
   /\ daysSinceLastActivity v = Undefined
   /\ funderAddress v = Undefined
   /\ fundingDetails v = Undefined)
  /\ (category v <> "Error" ->
      error v = Undefined
      /\ (funderAddress v = Null \/ exists f, funderAddress v = Val f /\ f <> "")
      /\ (fundingDetails v = Null \/ exists g, fundingDetails v = Val g)
      /\ (category v <> "Inactive" -> daysSinceLastActivity v = Null)).

(** The token information of lines 90-97, read off the asset. *)
Definition tokenInfoOf (tokenAddress : string) (assetInfo : AssetInfo) : TokenInfo :=
  {| total_supply := supply_total assetInfo;
     ti_symbol := symbol assetInfo;
     ti_name := name assetInfo;
     ti_decimals := decimals assetInfo;
     ti_address := tokenAddress |}.

(** The holders [getHolders] returns for a token. *)
Definition holdersReturned (env : Env) (tokenAddress : string) : list Holder :=
  match getHolders env tokenAddress with
  | Returns _ allHolders => allHolders
  | _ => []
  end.

(** A computation that never stays pending. *)
Definition settling {A : Type} (m : M A) : Prop := forall w, snd (m w) <> Pending.

(** A computation that takes at most [d] milliseconds. *)
Definition within {A : Type} (d : N) (m : M A) : Prop :=
  forall w, (now (fst (m w)) <= now w + d)%N.

(** The number of rounds of the batch loop for [n] wallets. *)
Definition rounds (n : nat) : nat := (n + (BATCH_SIZE - 1)) / BATCH_SIZE.

(** The rounds at their longest, with the pause between two of them. *)
Definition worstCase (n : nat) : N :=
  (N.of_nat (rounds n) * WALLET_ANALYSIS_TIMEOUT
   + N.of_nat (rounds n - 1) * BATCH_DELAY)%N.

(** The calls to collaborators among some observations. *)
Definition isCall (ev : N * Event) : bool :=
  match snd ev with
  | EvCall _ => true
  | _ => false
  end.

Definition calls (tr : list (N * Event)) : nat := length (List.filter isCall tr).

(** A computation that only adds to the record of the run, and adds at
    most [k] calls to collaborators. *)
Definition spends {A : Type} (k : nat) (m : M A) : Prop :=
  forall w, exists new,
    trace (fst (m w)) = (trace w ++ new)%list /\ (calls new <= k)%nat.

(** ** Scenarios *)

Module Scenario.

Definition alice : Holder := {| address := "AliceWallet1111"; balance := 1 |}.
Definition bob : Holder := {| address := "BobWallet2222222"; balance := 1 |}.
Definition carol : Holder := {| address := "CarolWallet33333"; balance := 1 |}.

Definition asset (supply : Z) : AssetInfo :=
  {| supply_total := supply; symbol := "TKN"; name := "Token"; decimals := 0 |}.

(** A supply of 3 held by three wallets with few transactions. *)
Definition threeFresh : Env :=
  {| cancellationToken := None;
     logger := fun _ => None;
     getAsset := fun _ => Returns 10 (Some (asset 3));
     getHolders := fun _ => Returns 20 [alice; bob; carol];
     getSignaturesForAddress := fun _ _ _ => Returns 5 5%nat;
     checkInactivityPeriod := fun _ _ _ => Returns 5 None;
     analyzeFunding := fun _ _ => Returns 7 (Some []) |}.

(** A busy wallet: a thousand signatures or more. *)
Definition busy : Env :=
  {| cancellationToken := None;
     logger := fun _ => None;
     getAsset := fun _ => Returns 10 (Some (asset 3));
     getHolders := fun _ => Returns 20 [alice];
     getSignaturesForAddress := fun _ _ _ => Returns 5 1001%nat;
     checkInactivityPeriod := fun _ _ _ => Returns 5 None;
     analyzeFunding := fun _ _ => Returns 7 (Some []) |}.

(** An established wallet whose inactivity check throws [e]; the logger
    throws [thrown] when asked to report it. *)
Definition inactivityFails (e : JsError) (thrown : option JsError) : Env :=
  {| cancellationToken := None;
     logger := fun l => if (line l =? 332)%nat then thrown else None;
     getAsset := fun _ => Returns 10 (Some (asset 3));
     getHolders := fun _ => Returns 20 [alice];
     getSignaturesForAddress := fun _ _ _ => Returns 5 500%nat;
     checkInactivityPeriod := fun _ _ _ => Throws 5 e;
     analyzeFunding := fun _ _ => Returns 7 (Some []) |}.

(** The user cancels while the first wallet is being classified: the token
    reports cancelled from the poll before the funding analysis on. *)
Definition cancelledDuringClassification : Env :=
  {| cancellationToken :=
       Some (fun site => match site with
                         | PollFunding _ | PollCatch
                         | PollStep FilterTeamWallets | PollStep CalculateSupply => true
                         | _ => false
                         end);
     logger := fun _ => None;
     getAsset := fun _ => Returns 10 (Some (asset 3));
     getHolders := fun _ => Returns 20 [alice];
     getSignaturesForAddress := fun _ _ _ => Returns 5 500%nat;
     checkInactivityPeriod := fun _ _ _ => Returns 5 None;
     analyzeFunding := fun _ _ => Returns 7 (Some []) |}.

(** Three wallets in one batch; the signature lookup of the second never
    answers. *)
Definition secondHangs : Env :=
  {| cancellationToken := None;
     logger := fun _ => None;
     getAsset := fun _ => Returns 10 (Some (asset 3));
     getHolders := fun _ => Returns 20 [alice; bob; carol];
     getSignaturesForAddress :=
       fun index _ _ => if (index =? 1)%nat then NeverSettles else Returns 5 5%nat;
     checkInactivityPeriod := fun _ _ _ => Returns 5 None;
     analyzeFunding := fun _ _ => Returns 7 (Some []) |}.

(** The token has been cancelled before the run starts. *)
Definition cancelledFromTheStart : Env :=
  {| cancellationToken := Some (fun _ => true);
     logger := fun _ => None;
     getAsset := fun _ => Returns 10 (Some (asset 3));
     getHolders := fun _ => Returns 20 [alice];
     getSignaturesForAddress := fun _ _ _ => Returns 5 500%nat;
     checkInactivityPeriod := fun _ _ _ => Returns 5 None;
     analyzeFunding := fun _ _ => Returns 7 (Some []) |}.

End Scenario.

(** Further scenarios. *)
Module Cases.

Definition dormantCheck : InactivityCheck :=
  {| ic_category := Some "No Token"; isInactive := true;
     ic_daysSinceLastActivity := Some 40 |}.

Definition funded : FundingInfo :=
  {| fi_funderAddress := Some "FunderWallet4444";
     fi_fundingDetails := Some {| details := "exchange" |} |}.

(** An established wallet that never held the token, funded from a known
    address. *)
Definition dormant : Env :=
  {| cancellationToken := None;
     logger := fun _ => None;
     getAsset := fun _ => Returns 10 (Some (Scenario.asset 3));
     getHolders := fun _ => Returns 20 [Scenario.alice];
     getSignaturesForAddress := fun _ _ _ => Returns 5 500%nat;
     checkInactivityPeriod := fun _ _ _ => Returns 5 (Some dormantCheck);
     analyzeFunding := fun _ _ => Returns 7 (Some [Some funded; None]) |}.

(** A message of a group chat quoting a token address. *)
Definition quoting : Message :=
  {| msg_from := Some {| from_id := 7; from_username := Some "dana";
                         from_first_name := Some "Dana"; from_last_name := None |};
     msg_chat := Some {| chat_id := -100; chat_title := Some "traders" |};
     msg_date := Some 1700000000;
     msg_text := Some "look at 5Q544fKrFoe6tsEbD7S8EmxGTJYAKtTVhAW5Q5pge4j1 today" |}.

(** A disk whose file holds one value written by something else. *)
Definition used : GroupMessages.State :=
  {| GroupMessages.disk :=
       {| GroupMessages.dataDir := true;
          GroupMessages.GROUP_MESSAGES_FILE :=
            Some (GroupMessages.Array [GroupMessages.Foreign "{}"]) |};
     GroupMessages.logged := [] |}.

(** A bot that sends every message, and a search that finds two wallets. *)
Definition twoFound : SearchHandler.Env :=
  {| SearchHandler.sendLongMessage := fun _ => Resolved tt;
     SearchHandler.searchWallets := fun _ => Resolved ["<b>one</b>"; "<b>two</b>"];
     SearchHandler.logger_throws := fun _ => None |}.

Definition idle : SearchHandler.State :=
  {| SearchHandler.sent := []; SearchHandler.searches := []; SearchHandler.logged := [] |}.


(** Six holders of a supply of 6, hence two batches. *)
Definition six : list Holder :=
  [ {| address := "Holder1"; balance := 1 |}; {| address := "Holder2"; balance := 1 |};
    {| address := "Holder3"; balance := 1 |}; {| address := "Holder4"; balance := 1 |};
    {| address := "Holder5"; balance := 1 |}; {| address := "Holder6"; balance := 1 |} ].

(** The user cancels while the first batch is being analysed: the token
    reports cancelled from the poll before the second batch on. *)
Definition cancelledAfterFirstBatch : Env :=
  {| cancellationToken :=
       Some (fun site => match site with
                         | PollBatch i | PollSchedule i | PollClassify i
                         | PollInactivity i | PollFunding i => (5 <=? i)%nat
                         | PollStep FilterTeamWallets | PollStep CalculateSupply
                         | PollCatch => true
                         | PollStep _ => false
                         end);
     logger := fun _ => None;
     getAsset := fun _ => Returns 10 (Some (Scenario.asset 6));
     getHolders := fun _ => Returns 20 six;
     getSignaturesForAddress := fun _ _ _ => Returns 5 5%nat;
     checkInactivityPeriod := fun _ _ _ => Returns 5 None;
     analyzeFunding := fun _ _ => Returns 7 (Some []) |}.

End Cases.

(** * Properties *)

(** ** Decimal arithmetic *)

Lemma Qtruncate_comp (p q : Q) : (p == q)%Q -> Qtruncate p = Qtruncate q.
Proof.
  intros E. unfold Qtruncate.
  assert (Qle_bool 0 p = Qle_bool 0 q) as ->.
  { apply eq_true_iff_eq. rewrite !Qle_bool_iff. now rewrite E. }
  destruct (Qle_bool 0 q); [now apply Qfloor_comp | now apply Qceiling_comp].
Qed.

Lemma Qtruncate_Qmake (n : Z) (d : positive) : Qtruncate (n # d) = Z.quot n (Zpos d).
Proof.
  unfold Qtruncate. destruct (Qle_bool 0 (n # d)) eqn:E.
  - apply Qle_bool_iff in E. unfold Qle in E. simpl in E.
    simpl. symmetry. apply Z.quot_div_nonneg; lia.
  - assert (n < 0) as Hn.
    { destruct (Z.ltb_spec n 0); [assumption|].
      assert (Qle_bool 0 (n # d) = true) as C; [|congruence].
      apply Qle_bool_iff. unfold Qle. simpl. lia. }
    unfold Qceiling. simpl.
    rewrite <- (Z.opp_involutive n) at 2. rewrite Z.quot_opp_l by lia.
    f_equal. symmetry. apply Z.quot_div_nonneg; lia.
Qed.

Lemma Qtruncate_ratio (a b k : Z) :
  0 < b -> Qtruncate (inject_Z a / inject_Z b * inject_Z k) = Z.quot (a * k) b.
Proof.
  intros Hb. destruct b as [|p|p]; try lia.
  rewrite (Qtruncate_comp _ ((a * k) # p)).
  - apply Qtruncate_Qmake.
  - unfold Qeq, Qdiv, Qmult, Qinv, inject_Z. simpl. lia.
Qed.

Lemma pow10_0 : BigNumber.pow10 0 = 1.
Proof. reflexivity. Qed.

Lemma dividedBy_integers (a b : Z) :
  b <> 0 ->
  BigNumber.dividedBy (BigNumber.of_Z a) (BigNumber.of_Z b)
  = BigNumber.Fin (Z.quot (a * 10 ^ 18) b) 18.
Proof.
  intros Hb. unfold BigNumber.dividedBy, BigNumber.of_Z.
  destruct (Z.eqb_spec b 0); [contradiction|].
  rewrite pow10_0, Z.mul_1_r. reflexivity.
Qed.

(** The share of a holder reaches the threshold exactly when a thousand
    times the balance reaches the supply: cutting the quotient at 18
    digits cannot move it across a bound with 3 digits. *)
Lemma share_threshold (b T : Z) :
  0 < T -> (10 ^ 15 <= Z.quot (b * 10 ^ 18) T <-> T <= 1000 * b).
Proof.
  intros HT. split; intros H.
  - destruct (Z.le_gt_cases 0 b) as [Hb|Hb].
    + rewrite Z.quot_div_nonneg in H by lia.
      assert (10 ^ 15 * T <= b * 10 ^ 18).
      { etransitivity; [|apply (Z.mul_div_le (b * 10 ^ 18) T); lia]. nia. }
      lia.
    + assert (Z.quot (b * 10 ^ 18) T <= 0); [|lia].
      apply Z.quot_le_upper_bound; lia.
  - assert (0 <= b) by lia.
    rewrite Z.quot_div_nonneg by lia.
    apply Z.div_le_lower_bound; lia.
Qed.

Lemma has_spec (s : gset string) (x : string) : has s x = true <-> x ∈ s.
Proof. unfold has. apply bool_decide_eq_true. Qed.

Lemma isSignificant_spec (tokenInfo : TokenInfo) (h : Holder) :
  0 < total_supply tokenInfo ->
  isSignificant tokenInfo h = true
  <-> (address h ∉ KNOWN_LP_POOLS)
      /\ (1 # 1000 <= spec_share (balance h) (total_supply tokenInfo))%Q.
Proof.
  intros HT. unfold isSignificant.
  assert ((1 # 1000 <= spec_share (balance h) (total_supply tokenInfo))%Q
          <-> 10 ^ 15 <= Z.quot (balance h * 10 ^ 18) (total_supply tokenInfo)) as Hs.
  { unfold spec_share, fixed18. rewrite Qtruncate_ratio by assumption.
    unfold Qle, Qdiv, Qmult, Qinv, inject_Z. simpl. lia. }
  destruct (has KNOWN_LP_POOLS (address h)) eqn:E.
  - apply has_spec in E. split; [discriminate | tauto].
  - assert (address h ∉ KNOWN_LP_POOLS) as Hn.
    { intros C. apply has_spec in C. congruence. }
    rewrite dividedBy_integers by lia. rewrite Hs.
    unfold BigNumber.isGreaterThanOrEqualTo, SUPPLY_THRESHOLD.
    rewrite Z.leb_le. unfold BigNumber.pow10. simpl Z.of_nat.
    split; [intros; split; [assumption | lia] | intros [_ ?]; lia].
Qed.

(** C2. A holder is in the significant-holder list exactly when it is a
    holder whose address is not a known liquidity pool and whose share
    [balance / totalSupply], in 18-digit truncating decimal arithmetic, is
    at least 0.001. So a holder at exactly 0.1% of the supply is kept and a
    known pool is dropped whatever its balance. *)
Theorem significant_holders_iff (tokenInfo : TokenInfo) (allHolders : list Holder) :
  0 < total_supply tokenInfo ->
  (forall h,
      In h (List.filter (isSignificant tokenInfo) allHolders)
      <-> In h allHolders
          /\ (address h ∉ KNOWN_LP_POOLS)
          /\ (1 # 1000 <= spec_share (balance h) (total_supply tokenInfo))%Q)
  /\ (forall h,
         In h allHolders -> address h ∉ KNOWN_LP_POOLS ->
         1000 * balance h = total_supply tokenInfo ->
         In h (List.filter (isSignificant tokenInfo) allHolders))
  /\ (forall h,
         address h ∈ KNOWN_LP_POOLS ->
         ~ In h (List.filter (isSignificant tokenInfo) allHolders)).
Proof.
  intros HT.
  assert (forall h,
      In h (List.filter (isSignificant tokenInfo) allHolders)
      <-> In h allHolders
          /\ (address h ∉ KNOWN_LP_POOLS)
          /\ (1 # 1000 <= spec_share (balance h) (total_supply tokenInfo))%Q) as Hiff.
  { intros h. rewrite filter_In, isSignificant_spec by assumption. reflexivity. }
  split; [exact Hiff|]. split.
  - intros h Hin Hp Hb. apply Hiff. repeat split; try assumption.
    unfold spec_share, fixed18. rewrite Qtruncate_ratio by assumption.
    assert (10 ^ 15 <= Z.quot (balance h * 10 ^ 18) (total_supply tokenInfo))
      by (apply share_threshold; lia).
    unfold Qle, Qdiv, Qmult, Qinv, inject_Z. simpl. lia.
  - intros h Hp Hin. apply Hiff in Hin. tauto.
Qed.

(** ** Computations: how they resolve *)

Lemma bind_resolved {A B : Type} (m : M A) (k : A -> M B) (w w' : World) (b : B) :
  bind m k w = (w', Resolved b) ->
  exists w1 a, m w = (w1, Resolved a) /\ k a w1 = (w', Resolved b).
Proof.
  unfold bind. destruct (m w) as [w1 [a|e|]]; intros H; try discriminate.
  exists w1, a. split; [reflexivity | assumption].
Qed.

Lemma tryCatch_resolved {A : Type} (m : M A) (h : JsError -> M A) (w w' : World) (a : A) :
  tryCatch m h w = (w', Resolved a) ->
  m w = (w', Resolved a)
  \/ exists w1 e, m w = (w1, Rejected e) /\ h e w1 = (w', Resolved a).
Proof.
  unfold tryCatch. destruct (m w) as [w1 [a'|e|]]; intros H; try discriminate.
  - left. assumption.
  - right. exists w1, e. split; [reflexivity | assumption].
Qed.

Lemma bind_step {A B : Type} (m : M A) (k : A -> M B) (w w1 : World) (a : A) :
  m w = (w1, Resolved a) -> bind m k w = k a w1.
Proof. intros H. unfold bind. rewrite H. reflexivity. Qed.

Lemma bind_rejected {A B : Type} (m : M A) (k : A -> M B) (w w1 : World) (e : JsError) :
  m w = (w1, Rejected e) -> bind m k w = (w1, Rejected e).
Proof. intros H. unfold bind. rewrite H. reflexivity. Qed.

Lemma tryCatch_step {A : Type} (m : M A) (h : JsError -> M A) (w w1 : World) (a : A) :
  m w = (w1, Resolved a) -> tryCatch m h w = (w1, Resolved a).
Proof. intros H. unfold tryCatch. rewrite H. reflexivity. Qed.

Lemma tryCatch_caught {A : Type} (m : M A) (h : JsError -> M A) (w w1 : World) (e : JsError) :
  m w = (w1, Rejected e) -> tryCatch m h w = h e w1.
Proof. intros H. unfold tryCatch. rewrite H. reflexivity. Qed.

(** Peel the successive steps off a computation known to resolve. *)
Ltac resolved H :=
  repeat (cbv beta in H;
          lazymatch type of H with
          | bind _ _ _ = (_, Resolved _) =>
              let w := fresh "w" in
              let a := fresh "a" in
              let E := fresh "E" in
              apply bind_resolved in H; destruct H as (w & a & E & H)
          end).

Lemma analyzeTeamSupply_catch_rejects (env : Env) (e : JsError) (w w' : World)
    (r : AnalysisResult) :
  analyzeTeamSupply_catch env e w <> (w', Resolved r).
Proof.
  unfold analyzeTeamSupply_catch. intros H. resolved H.
  destruct a; resolved H; discriminate.
Qed.

(** What a successful run returns. *)
Lemma analyzeTeamSupply_resolved (env : Env) (tokenAddress : string) (w w' : World)
    (result : AnalysisResult) :
  analyzeTeamSupply env tokenAddress w = (w', Resolved result) ->
  exists tokenInfo allHolders analyzedWallets w1 w2,
    analyzeWalletsWithTimeout env (List.filter (isSignificant tokenInfo) allHolders)
      tokenAddress w1 = (w2, Resolved analyzedWallets)
    /\ result = resultObject tokenAddress tokenInfo analyzedWallets
                  (teamWalletsOf tokenInfo analyzedWallets)
                  (totalSupplyControlledOf tokenInfo analyzedWallets).
Proof.
  unfold analyzeTeamSupply. intros H. resolved H.
  apply tryCatch_resolved in H. destruct H as [H | (w1 & e & _ & H)].
  2: { exfalso. eapply analyzeTeamSupply_catch_rejects. exact H. }
  unfold analyzeTeamSupply_try in H. resolved H.
  destruct a2 as [assetInfo|]; [|discriminate].
  resolved H. unfold aggregate in H. resolved H. inversion H; subst.
  match goal with
  | E : analyzeWalletsWithTimeout _ (List.filter _ ?hs) _ _ = (_, Resolved ?ws) |- _ =>
      eexists _, hs, ws, _, _; split; [exact E | reflexivity]
  end.
Qed.

(** The running total of lines 156-160 is the sum of the balances. *)
Lemma teamSupplyHeldOf_sum (analyzedWallets : list ClassifiedWallet) :
  teamSupplyHeldOf analyzedWallets = BigNumber.of_Z (teamBalance analyzedWallets).
Proof.
  unfold teamSupplyHeldOf, teamBalance, isTeamWalletCategory, has.
  generalize (List.filter (fun w => bool_decide (category w ∈ TEAM_WALLET_CATEGORIES))
                analyzedWallets) as l.
  assert (forall (l : list ClassifiedWallet) (z : Z),
             fold_left
               (fun total wallet =>
                  BigNumber.plus total (BigNumber.of_Z (balance (spread wallet))))
               l (BigNumber.of_Z z)
             = BigNumber.of_Z (z + fold_right Z.add 0 (map (fun w => balance (spread w)) l)))
    as Hfold.
  { induction l as [|x l IH]; intros z; simpl.
    - unfold BigNumber.of_Z. f_equal. lia.
    - unfold BigNumber.of_Z at 1 2. simpl BigNumber.plus.
      rewrite !pow10_0, !Z.mul_1_r. fold (BigNumber.of_Z (z + balance (spread x))).
      rewrite IH. unfold BigNumber.of_Z. f_equal. lia. }
  intros l. apply Hfold.
Qed.

Lemma totalSupplyControlledOf_integers (tokenInfo : TokenInfo)
    (analyzedWallets : list ClassifiedWallet) :
  total_supply tokenInfo <> 0 ->
  totalSupplyControlledOf tokenInfo analyzedWallets
  = BigNumber.toNumber
      (BigNumber.Fin
         (Z.quot (teamBalance analyzedWallets * 10 ^ 18) (total_supply tokenInfo) * 100) 18).
Proof.
  intros HT. unfold totalSupplyControlledOf.
  rewrite teamSupplyHeldOf_sum, dividedBy_integers by assumption.
  reflexivity.
Qed.

(** C1. In a run that completes, [totalSupplyControlled] is the number
    nearest to a decimal whose value is 100 times [teamBalance /
    totalSupply], the division carried out in 18-digit truncating decimal
    arithmetic; with a supply of 3 held by three team wallets of balance 1
    it is exactly 100. *)
Theorem totalSupplyControlled_fixed_precision (env : Env) (tokenAddress : string)
    (w0 w : World) (result : AnalysisResult) :
  analyzeTeamSupply env tokenAddress w0 = (w, Resolved result) ->
  0 < st_totalSupply (sd_tokenInfo (scanData result)) ->
  (exists (d : BigNumber.t) (q : Q),
      sd_totalSupplyControlled (scanData result) = BigNumber.toNumber d
      /\ BigNumber.value d = Some q
      /\ (q == spec_totalSupplyControlled
                 (teamBalance (sd_analyzedWallets (scanData result)))
                 (st_totalSupply (sd_tokenInfo (scanData result))))%Q)
  /\ (st_totalSupply (sd_tokenInfo (scanData result)) = 3 ->
      map (fun w => balance (spread w))
          (List.filter (fun w => bool_decide (category w ∈ TEAM_WALLET_CATEGORIES))
                       (sd_analyzedWallets (scanData result))) = [1; 1; 1] ->
      sd_totalSupplyControlled (scanData result) = JsNumber.of_Z 100).
Proof.
  intros Hrun HT.
  destruct (analyzeTeamSupply_resolved _ _ _ _ _ Hrun)
    as (tokenInfo & allHolders & analyzedWallets & w1 & w2 & _ & ->).
  simpl in *. rewrite totalSupplyControlledOf_integers by lia. split.
  - eexists _, _. split; [reflexivity|]. split; [reflexivity|].
    unfold spec_totalSupplyControlled, spec_share, fixed18.
    rewrite Qtruncate_ratio by assumption.
    unfold Qeq, Qdiv, Qmult, Qinv, inject_Z. simpl. lia.
  - intros H3 Hb. unfold teamBalance. rewrite Hb, H3. reflexivity.
Qed.

(** C9. The two views of a result never diverge: they hold the same
    analysed wallets, the same team wallets and the same percentage. *)
Theorem views_agree (env : Env) (tokenAddress : string) (w0 w : World)
    (result : AnalysisResult) :
  analyzeTeamSupply env tokenAddress w0 = (w, Resolved result) ->
  sd_analyzedWallets (scanData result) = tr_allWalletsDetails (trackingInfo result)
  /\ sd_teamWallets (scanData result) = tr_teamWallets (trackingInfo result)
  /\ sd_totalSupplyControlled (scanData result)
     = tr_totalSupplyControlled (trackingInfo result).
Proof.
  intros Hrun.
  destruct (analyzeTeamSupply_resolved _ _ _ _ _ Hrun)
    as (tokenInfo & allHolders & analyzedWallets & w1 & w2 & _ & ->).
  repeat split.
Qed.

(** ** The classifier *)

Lemma poll_eq (env : Env) (site : PollSite) (w : World) :
  poll env site w = (polled env site w, Resolved (cancelledAt env site)).
Proof.
  unfold polled, poll, cancelledAt. destruct (cancellationToken env); reflexivity.
Qed.


Lemma hasExcessiveTransactions_returns (env : Env) (index : nat) (a : string)
    (d : N) (signatures : nat) (w : World) :
  getSignaturesForAddress env index a 1001 = Returns d signatures ->
  hasExcessiveTransactions env index a w
  = (tick d (emit (EvCall (CallSignatures index 1001)) w),
     Resolved (1000 <=? signatures)%nat).
Proof.
  intros H. unfold hasExcessiveTransactions, tryCatch, bind, await. rewrite H. reflexivity.
Qed.

Lemma hasExcessiveTransactions_throws (env : Env) (index : nat) (a : string)
    (d : N) (e : JsError) (w : World) :
  getSignaturesForAddress env index a 1001 = Throws d e ->
  hasExcessiveTransactions env index a w
  = (tick d (emit (EvCall (CallSignatures index 1001)) w), Resolved false).
Proof.
  intros H. unfold hasExcessiveTransactions, tryCatch, bind, await. rewrite H. reflexivity.
Qed.

Lemma analyzeWallet_started (env : Env) (index : nat) (wallet : Holder)
    (tokenAddress : string) (w : World) :
  cancelledAt env (PollClassify index) = false ->
  analyzeWallet env index wallet tokenAddress w
  = tryCatch (analyzeWallet_try env index wallet tokenAddress)
             (analyzeWallet_catch env index wallet)
             (polled env (PollClassify index) w).
Proof.
  intros H. unfold analyzeWallet. rewrite (bind_step _ _ _ _ _ (poll_eq _ _ _)), H.
  reflexivity.
Qed.

(** C5. A wallet whose signature lookup (limit 1001) returns at least 1000
    entries is returned at once as [Normal] with [null] inactivity age,
    funder and funding details, the lookup being the only call made; a
    lookup that throws counts as "not excessive" and the classification
    goes on with the detailed analysis. *)
Theorem excessive_activity_short_circuit (env : Env) (index : nat) (wallet : Holder)
    (tokenAddress : string) (w : World) :
  cancelledAt env (PollClassify index) = false ->
  (forall d signatures,
      getSignaturesForAddress env index (address wallet) 1001 = Returns d signatures ->
      (1000 <= signatures)%nat ->
      analyzeWallet env index wallet tokenAddress w
      = (tick d (emit (EvCall (CallSignatures index 1001))
                      (polled env (PollClassify index) w)),
         Resolved {| spread := wallet;
                     category := "Normal";
                     daysSinceLastActivity := Null;
                     funderAddress := Null;
                     fundingDetails := Null;
                     error := Undefined |}))
  /\ (forall d e,
         getSignaturesForAddress env index (address wallet) 1001 = Throws d e ->
         hasExcessiveTransactions env index (address wallet)
           (polled env (PollClassify index) w)
         = (tick d (emit (EvCall (CallSignatures index 1001))
                         (polled env (PollClassify index) w)),
            Resolved false)
         /\ analyzeWallet env index wallet tokenAddress w
            = tryCatch (detailedAnalysis env index wallet tokenAddress)
                       (analyzeWallet_catch env index wallet)
                       (tick d (emit (EvCall (CallSignatures index 1001))
                                     (polled env (PollClassify index) w)))).
Proof.
  intros Hc. split.
  - intros d signatures Hs Hn.
    rewrite analyzeWallet_started by assumption.
    apply tryCatch_step. unfold analyzeWallet_try.
    rewrite (bind_step _ _ _ _ _ (hasExcessiveTransactions_returns _ _ _ _ _ _ Hs)).
    apply Nat.leb_le in Hn. rewrite Hn. reflexivity.
  - intros d e Hs. split.
    + exact (hasExcessiveTransactions_throws _ _ _ _ _ _ Hs).
    + rewrite analyzeWallet_started by assumption.
      unfold tryCatch, analyzeWallet_try.
      rewrite (bind_step _ _ _ _ _ (hasExcessiveTransactions_throws _ _ _ _ _ _ Hs)).
      reflexivity.
Qed.

Lemma inactivityStage_swallows (env : Env) (index : nat) (wallet : Holder)
    (tokenAddress : string) (d : N) (e : JsError) (w : World) :
  cancelledAt env (PollInactivity index) = false ->
  checkInactivityPeriod env index (address wallet) tokenAddress = Throws d e ->
  (worthLogging e = true -> logger env (LogAt 332 index) = None) ->
  exists w', inactivityStage env index wallet tokenAddress w = (w', Resolved ("Normal", Null)).
Proof.
  intros Hc Ht Hl. unfold inactivityStage.
  rewrite (tryCatch_caught _ _ w
             (tick d (emit (EvCall (CallInactivity index))
                           (polled env (PollInactivity index) w))) e).
  2: { rewrite (bind_step _ _ _ _ _ (poll_eq _ _ _)), Hc.
       apply bind_rejected. unfold await. rewrite Ht. reflexivity. }
  destruct (worthLogging e).
  - unfold bind, log. rewrite Hl by reflexivity. eexists. reflexivity.
  - eexists. reflexivity.
Qed.

Lemma fundingStage_category (env : Env) (index : nat) (wallet : Holder) (c : string)
    (days : JsOpt Z) (w w' : World) (v : ClassifiedWallet) :
  fundingStage env index wallet c days w = (w', Resolved v) ->
  spread v = wallet /\ category v = c /\ daysSinceLastActivity v = days
  /\ error v = Undefined.
Proof.
  unfold fundingStage. intros H. resolved H.
  destruct a; [discriminate|]. resolved H.
  destruct a as [v'|].
  - inversion H; subst v'.
    apply tryCatch_resolved in E0. destruct E0 as [E0 | (w2 & e & _ & E0)].
    + resolved E0. destruct a as [[|fundingInfo l]|]; inversion E0; subst.
      repeat split.
    + resolved E0. discriminate.
  - inversion H; subst. repeat split.
Qed.

(** C6. When the inactivity check of a wallet that is neither busy nor
    fresh throws, whatever the message, the exception goes no further: the
    inactivity stage ends with category [Normal], the classification goes
    on with the funding stage, and (unless reporting a funding failure
    itself fails) a wallet that is returned has category [Normal] and no
    error. *)
Theorem inactivity_exception_swallowed (env : Env) (index : nat) (wallet : Holder)
    (tokenAddress : string) (w w1 w2 : World) (d : N) (e : JsError) :
  cancelledAt env (PollClassify index) = false ->
  hasExcessiveTransactions env index (address wallet) (polled env (PollClassify index) w)
  = (w1, Resolved false) ->
  isFreshWallet env index (address wallet) w1 = (w2, Resolved false) ->
  cancelledAt env (PollInactivity index) = false ->
  checkInactivityPeriod env index (address wallet) tokenAddress = Throws d e ->
  (worthLogging e = true -> logger env (LogAt 332 index) = None) ->
  exists w3,
    inactivityStage env index wallet tokenAddress w2 = (w3, Resolved ("Normal", Null))
    /\ analyzeWallet env index wallet tokenAddress w
       = tryCatch (fundingStage env index wallet "Normal" Null)
                  (analyzeWallet_catch env index wallet) w3
    /\ (logger env (LogAt 365 index) = None ->
        forall w' v,
          analyzeWallet env index wallet tokenAddress w = (w', Resolved v) ->
          category v = "Normal" /\ error v = Undefined).
Proof.
  intros Hc Hx Hf Hi Ht Hl.
  destruct (inactivityStage_swallows env index wallet tokenAddress d e w2 Hi Ht Hl)
    as (w3 & Hs).
  assert (analyzeWallet env index wallet tokenAddress w
          = tryCatch (fundingStage env index wallet "Normal" Null)
                     (analyzeWallet_catch env index wallet) w3) as Heq.
  { rewrite analyzeWallet_started by assumption.
    unfold tryCatch, analyzeWallet_try.
    rewrite (bind_step _ _ _ _ _ Hx). unfold detailedAnalysis.
    rewrite (bind_step _ _ _ _ _ Hf). rewrite (bind_step _ _ _ _ _ Hs).
    reflexivity. }
  exists w3. split; [exact Hs|]. split; [exact Heq|].
  intros Hq w' v Hv. rewrite Heq in Hv.
  apply tryCatch_resolved in Hv. destruct Hv as [Hv | (w4 & e' & Hr & Hv)].
  - apply fundingStage_category in Hv. tauto.
  - exfalso. unfold fundingStage in Hr.
    rewrite (bind_step _ _ _ _ _ (poll_eq _ _ _)) in Hr.
    unfold analyzeWallet_catch in Hv.
    destruct (cancelledAt env (PollFunding index)).
    + inversion Hr; subst e'. discriminate.
    + unfold bind, tryCatch, await, log in Hr. rewrite Hq in Hr.
      destruct (analyzeFunding env index (address wallet)) as [? [[|? ?]|]|? ?|];
        discriminate.
Qed.

(** C10. The handler of [analyzeWallet] recognises a cancellation by the
    substring 'cancelled' of the message, not by the state of the token nor
    by the kind of the error. Whatever exception the body of the [try]
    throws, once it has reached the handler it is thrown again, as it is
    and without a word to the logger, when its message contains
    'cancelled', and it gives a wallet of category [Error] otherwise. And
    there is a run with no cancellation token at all in which an exception
    that is not the cancellation error (it is thrown by the logger while
    it reports a failed inactivity check) reaches the handler with such a
    message and is thrown again by [analyzeWallet], where the same
    exception with another message gives a wallet of category [Error]. *)
Theorem cancellation_recognised_by_substring :
  (forall (env : Env) (index : nat) (wallet : Holder) (tokenAddress : string)
          (w w1 : World) (e : JsError),
      cancelledAt env (PollClassify index) = false ->
      analyzeWallet_try env index wallet tokenAddress (polled env (PollClassify index) w)
      = (w1, Rejected e) ->
      (includes (message e) "cancelled" = true ->
       analyzeWallet env index wallet tokenAddress w = (w1, Rejected e))
      /\ (includes (message e) "cancelled" = false ->
          logger env (LogAt 384 index) = None ->
          analyzeWallet env index wallet tokenAddress w
          = (emit (EvLog (LogAt 384 index)) w1, Resolved (errorWallet wallet e))))
  /\ exists (env env' : Env) (index : nat) (wallet : Holder) (tokenAddress : string)
            (e e' : JsError) (w1 w1' : World),
       cancellationToken env = None
       /\ logger env (LogAt 384 index) = None
       /\ e <> cancelled
       /\ includes (message e) "cancelled" = true
       /\ analyzeWallet_try env index wallet tokenAddress start = (w1, Rejected e)
       /\ analyzeWallet env index wallet tokenAddress start = (w1, Rejected e)
       /\ cancellationToken env' = None
       /\ includes (message e') "cancelled" = false
       /\ analyzeWallet_try env' index wallet tokenAddress start = (w1', Rejected e')
       /\ analyzeWallet env' index wallet tokenAddress start
          = (emit (EvLog (LogAt 384 index)) w1', Resolved (errorWallet wallet e')).
Proof.
  split.
  - intros env index wallet tokenAddress w w1 e Hc Htry.
    rewrite (analyzeWallet_started _ _ _ _ _ Hc), (tryCatch_caught _ _ _ _ _ Htry).
    unfold analyzeWallet_catch. split.
    + intros ->. reflexivity.
    + intros -> Hl. unfold bind, log. rewrite Hl. reflexivity.
  - exists (Scenario.inactivityFails (Error "rpc failure") (Some (Error "write cancelled"))),
           (Scenario.inactivityFails (Error "rpc failure") (Some (Error "write failed"))),
           0%nat, Scenario.alice, "mint",
           (Error "write cancelled"), (Error "write failed").
    eexists. eexists.
    split; [reflexivity|]. split; [reflexivity|]. split; [discriminate|].
    split; [reflexivity|]. split; [vm_compute; reflexivity|].
    split; [vm_compute; reflexivity|]. split; [reflexivity|]. split; [reflexivity|].
    split; vm_compute; reflexivity.
Qed.

(** C4 (what the code does). The user cancels while a wallet is being
    classified: the classification throws the cancellation error, the
    scheduler's wrapper catches it and records the wallet with category
    [Error], and the scheduler returns normally. *)
Theorem cancellation_recorded_as_error_entry :
  let env := Scenario.cancelledDuringClassification in
  let wallet := Scenario.alice in
  (exists w, analyzeWallet env 0 wallet "mint" start = (w, Rejected cancelled))
  /\ (exists w, analyzeWalletWithTimeout env [wallet] "mint" wallet 0 start
                = (w, Resolved {| spread := wallet;
                                  category := "Error";
                                  daysSinceLastActivity := Undefined;
                                  funderAddress := Undefined;
                                  fundingDetails := Undefined;
                                  error := Val "Analysis cancelled by user" |}))
  /\ (exists w, analyzeWalletsWithTimeout env [wallet] "mint" start
                = (w, Resolved [errorWallet wallet cancelled])).
Proof.
  cbv zeta. split; [|split]; eexists; vm_compute; reflexivity.
Qed.

(** ** The scheduler: what it returns *)

Lemma analyzeWallet_spread (env : Env) (index : nat) (wallet : Holder)
    (tokenAddress : string) (w w' : World) (v : ClassifiedWallet) :
  analyzeWallet env index wallet tokenAddress w = (w', Resolved v) -> spread v = wallet.
Proof.
  unfold analyzeWallet. intros H. resolved H. destruct a; [discriminate|].
  apply tryCatch_resolved in H. destruct H as [H | (w1 & e & _ & H)].
  - unfold analyzeWallet_try in H. resolved H. destruct a.
    + inversion H. reflexivity.
    + unfold detailedAnalysis in H. resolved H.
      match type of H with
      | (let '(_, _) := ?p in _) _ = _ => destruct p as [c days]
      end.
      apply fundingStage_category in H. tauto.
  - unfold analyzeWallet_catch in H. destruct (includes (message e) "cancelled").
    + discriminate.
    + resolved H. inversion H. reflexivity.
Qed.

Lemma race_resolved {A : Type} (m : M A) (d : N) (e : JsError) (w w' : World) (a : A) :
  race m d e w = (w', Resolved a) -> m w = (w', Resolved a).
Proof.
  unfold race. destruct (m w) as [w1 [a'|e'|]]; try discriminate.
  - destruct (now w1 <=? now w + d)%N; [tauto | discriminate].
  - destruct (now w1 <=? now w + d)%N; discriminate.
Qed.

Lemma analyzeWalletWithTimeout_spread (env : Env) (wallets : list Holder)
    (tokenAddress : string) (wallet : Holder) (index : nat) (w w' : World)
    (v : ClassifiedWallet) :
  analyzeWalletWithTimeout env wallets tokenAddress wallet index w = (w', Resolved v) ->
  spread v = wallet.
Proof.
  unfold analyzeWalletWithTimeout. intros H. resolved H. destruct a; [discriminate|].
  resolved H. apply tryCatch_resolved in H. destruct H as [H | (w2 & e & _ & H)].
  - apply race_resolved in H. eapply analyzeWallet_spread. exact H.
  - resolved H. inversion H. reflexivity.
Qed.

Lemma allResolved_startAll {A : Type} (P : M A -> A -> Prop) (ms : list (M A)) :
  (forall m w w' a, In m ms -> m w = (w', Resolved a) -> P m a) ->
  forall (s0 s : N) (w : World) (t : N) (l : list A),
    allResolved s0 (snd (startAll s ms w)) = Some (t, l) -> Forall2 P ms l.
Proof.
  induction ms as [|m ms IH]; intros HP s0 s w t l H; simpl in H.
  - inversion H. constructor.
  - destruct (m {| now := s; trace := trace w; lastProgressLog := lastProgressLog w |})
      as [w1 o] eqn:Em.
    destruct (startAll s ms w1) as [w2 os] eqn:Es. simpl in H.
    destruct o as [a|e|]; try discriminate.
    destruct (allResolved s0 os) as [[t' l']|] eqn:Ea; [|discriminate].
    inversion H; subst. constructor.
    + eapply HP; [left; reflexivity | exact Em].
    + eapply (IH (fun m w w' a Hin => HP m w w' a (or_intror Hin)) s0 s w1).
      rewrite Es. exact Ea.
Qed.

Lemma promiseAll_resolved {A : Type} (P : M A -> A -> Prop) (ms : list (M A))
    (w w' : World) (l : list A) :
  (forall m w w' a, In m ms -> m w = (w', Resolved a) -> P m a) ->
  promiseAll ms w = (w', Resolved l) -> Forall2 P ms l.
Proof.
  intros HP. unfold promiseAll.
  destruct (startAll (now w) ms w) as [w1 os] eqn:Es.
  destruct (firstRejection os) as [[t e]|]; [discriminate|].
  destruct (allResolved (now w) os) as [[t l']|] eqn:Ea; [|discriminate].
  intros H. inversion H; subst.
  eapply (allResolved_startAll P ms HP (now w) (now w) w). rewrite Es. exact Ea.
Qed.

Lemma mapFrom_resolved_spread (env : Env) (wallets : list Holder) (tokenAddress : string)
    (batch : list Holder) (i : nat) (l : list ClassifiedWallet) :
  Forall2 (fun m v => exists w w', m w = (w', Resolved v))
          (mapFrom (analyzeWalletWithTimeout env wallets tokenAddress) i batch) l ->
  map spread l = batch.
Proof.
  revert i l. induction batch as [|x batch IH]; intros i l H; simpl in H.
  - inversion H. reflexivity.
  - inversion H as [|m v ms l' (w & w' & Hv) Hrest]; subst. simpl. f_equal.
    + eapply analyzeWalletWithTimeout_spread. exact Hv.
    + eapply IH. exact Hrest.
Qed.

Lemma firstn_slice {A : Type} (l : list A) (i n : nat) :
  (firstn i l ++ slice i (i + n) l)%list = firstn (i + n) l.
Proof.
  unfold slice. replace (i + n - i)%nat with n by lia.
  rewrite <- (firstn_skipn i l) at 3.
  destruct (Nat.le_gt_cases (length l) i) as [Hl|Hl].
  - rewrite (skipn_all2 l Hl), firstn_nil, !app_nil_r.
    rewrite !firstn_all2 by lia. reflexivity.
  - rewrite firstn_app, length_firstn, Nat.min_l by lia.
    replace (i + n - i)%nat with n by lia.
    rewrite firstn_firstn, Nat.min_r by lia. reflexivity.
Qed.

Lemma batches_spread (env : Env) (wallets : list Holder) (tokenAddress : string)
    (fuel : nat) :
  forall (i : nat) (acc : list ClassifiedWallet) (w w' : World)
         (out : list ClassifiedWallet),
    batches env wallets tokenAddress fuel i acc w = (w', Resolved out) ->
    map spread acc = firstn i wallets ->
    map spread out = wallets.
Proof.
  induction fuel as [|fuel IH]; intros i acc w w' out H Hacc; simpl in H.
  - destruct (Nat.ltb_spec i (length wallets)); [discriminate|].
    inversion H; subst. rewrite Hacc. apply firstn_all2. lia.
  - destruct (Nat.ltb_spec i (length wallets)).
    + resolved H. destruct a.
      { resolved H. discriminate. }
      resolved H. eapply IH; [exact H|].
      rewrite map_app, Hacc.
      match goal with
      | E : promiseAll _ _ = (_, Resolved ?l) |- _ =>
          apply (promiseAll_resolved (fun m v => exists w w', m w = (w', Resolved v))) in E;
          [apply mapFrom_resolved_spread in E; rewrite E | eauto]
      end.
      apply firstn_slice.
    + inversion H; subst. rewrite Hacc. apply firstn_all2. lia.
Qed.

(** C3. When the scheduler returns, its array has one entry per input
    holder, in input order: the entry at index [i] carries the address and
    the balance of holder [i], whatever its category. *)
Theorem analyzedWallets_follow_input (env : Env) (wallets : list Holder)
    (tokenAddress : string) (w w' : World) (analyzedWallets : list ClassifiedWallet) :
  analyzeWalletsWithTimeout env wallets tokenAddress w = (w', Resolved analyzedWallets) ->
  length analyzedWallets = length wallets
  /\ map spread analyzedWallets = wallets
  /\ forall i holder,
       nth_error wallets i = Some holder ->
       exists v, nth_error analyzedWallets i = Some v
                 /\ address (spread v) = address holder
                 /\ balance (spread v) = balance holder.
Proof.
  unfold analyzeWalletsWithTimeout. intros H. resolved H. inversion H; subst.
  match goal with
  | E : batches _ _ _ _ _ _ _ = _ |- _ =>
      apply batches_spread in E; [|reflexivity]; rename E into Hs
  end.
  assert (length analyzedWallets = length wallets) as Hlen.
  { rewrite <- Hs, length_map. reflexivity. }
  split; [exact Hlen|]. split; [exact Hs|].
  intros i holder Hi.
  destruct (nth_error analyzedWallets i) as [v|] eqn:Ev.
  - exists v. split; [reflexivity|].
    assert (nth_error (map spread analyzedWallets) i = Some (spread v)) as Hm
      by (apply map_nth_error; exact Ev).
    rewrite Hs, Hi in Hm. inversion Hm. split; reflexivity.
  - apply nth_error_None in Ev.
    assert (i < length wallets)%nat by (apply nth_error_Some; congruence). lia.
Qed.

(** ** The scheduler: every wallet gets the entry its own classification earns *)











Lemma log_quiet (env : Env) (l : LogSite) (w : World) :
  quiet env -> log env l w = (emit (EvLog l) w, Resolved tt).
Proof. intros Hq. unfold log. rewrite Hq. reflexivity. Qed.








Section Entries.

Variable env : Env.
Variable wallets : list Holder.
Variable tokenAddress : string.

Hypothesis Hquiet : quiet env.
Hypothesis Hbatch : forall i, cancelledAt env (PollBatch i) = false.
Hypothesis Hschedule : forall index, cancelledAt env (PollSchedule index) = false.



End Entries.




(** ** Cancellation: which polls stop the run *)

Lemma skipn_In {A : Type} (n : nat) (l : list A) (x : A) : In x (skipn n l) -> In x l.
Proof.
  revert l. induction n as [|n IH]; intros l H; [exact H|].
  destruct l as [|y l]; [exact H|]. right. apply IH. exact H.
Qed.

Section Observations.

Variable C : Event -> Prop.

Lemma addsNo_refl (tr : list (N * Event)) : addsNo C tr tr.
Proof. intros t ev H _. exact H. Qed.

Lemma addsNo_trans (tr1 tr2 tr3 : list (N * Event)) :
  addsNo C tr1 tr2 -> addsNo C tr2 tr3 -> addsNo C tr1 tr3.
Proof. intros H12 H23 t ev H3 Hc. apply H12; [apply H23|]; assumption. Qed.

Lemma addsNo_emit (ev : Event) (w : World) :
  ~ C ev -> addsNo C (trace w) (trace (emit ev w)).
Proof.
  intros Hn t ev' H Hc. simpl in H. apply in_app_or in H. destruct H as [H|[H|[]]].
  - exact H.
  - inversion H; subst. contradiction.
Qed.

Lemma silent_guarded {A : Type} (m : M A) : silent C m -> guarded C m.
Proof. intros H w. left. apply H. Qed.

Lemma rejecting_guarded {A : Type} (m : M A) :
  (forall w, snd (m w) = Rejected cancelled) -> guarded C m.
Proof. intros H w. right. apply H. Qed.

Lemma silent_ret {A : Type} (a : A) : silent C (ret a).
Proof. intros w. apply addsNo_refl. Qed.

Lemma silent_throw {A : Type} (e : JsError) : silent C (@throw A e).
Proof. intros w. apply addsNo_refl. Qed.

Lemma silent_sleep (d : N) : silent C (sleep d).
Proof. intros w. apply addsNo_refl. Qed.

Lemma silent_readLastProgressLog : silent C readLastProgressLog.
Proof. intros w. apply addsNo_refl. Qed.

Lemma silent_writeLastProgressLog (n : nat) : silent C (writeLastProgressLog n).
Proof. intros w. apply addsNo_refl. Qed.

Lemma silent_log (env : Env) (l : LogSite) : ~ C (EvLog l) -> silent C (log env l).
Proof.
  intros Hn w. unfold log. destruct (logger env l); apply addsNo_emit; exact Hn.
Qed.

Lemma silent_await {A : Type} (c : Call) (r : Reply A) :
  ~ C (EvCall c) -> silent C (await c r).
Proof.
  intros Hn w. unfold await. destruct r; apply (addsNo_emit _ w Hn).
Qed.

Lemma silent_poll (env : Env) (site : PollSite) :
  ~ C (EvPoll site (cancelledAt env site)) -> silent C (poll env site).
Proof.
  intros Hn w. unfold poll, cancelledAt in *. destruct (cancellationToken env).
  - apply addsNo_emit. exact Hn.
  - apply addsNo_refl.
Qed.

Lemma silent_bind {A B : Type} (m : M A) (k : A -> M B) :
  silent C m -> (forall a, silent C (k a)) -> silent C (bind m k).
Proof.
  intros Hm Hk w. specialize (Hm w). unfold bind.
  destruct (m w) as [w1 [a|e|]]; simpl in *; try exact Hm.
  eapply addsNo_trans; [exact Hm | apply Hk].
Qed.

Lemma silent_tryCatch {A : Type} (m : M A) (h : JsError -> M A) :
  silent C m -> (forall e, silent C (h e)) -> silent C (tryCatch m h).
Proof.
  intros Hm Hh w. specialize (Hm w). unfold tryCatch.
  destruct (m w) as [w1 [a|e|]]; simpl in *; try exact Hm.
  eapply addsNo_trans; [exact Hm | apply Hh].
Qed.

Lemma silent_race {A : Type} (m : M A) (d : N) (e : JsError) :
  silent C m -> silent C (race m d e).
Proof.
  intros Hm w. specialize (Hm w). unfold race.
  assert (addsNo C (trace w)
            (trace w ++ List.filter (fun ev => (fst ev <=? now w + d)%N)
                          (skipn (length (trace w)) (trace (fst (m w)))))) as Ht.
  { intros t ev H Hc. apply in_app_or in H. destruct H as [H|H]; [exact H|].
    apply filter_In in H. destruct H as [H _].
    apply Hm; [|exact Hc]. eapply skipn_In. exact H. }
  destruct (m w) as [w1 [a|e'|]]; simpl in *;
    try destruct (now w1 <=? now w + d)%N; simpl; assumption.
Qed.

Lemma guarded_bind {A B : Type} (m : M A) (k : A -> M B) :
  guarded C m -> (forall a, guarded C (k a)) -> guarded C (bind m k).
Proof.
  intros Hm Hk w. specialize (Hm w). unfold bind.
  destruct (m w) as [w1 o]; simpl in *. destruct Hm as [Hm | ->].
  - destruct o as [a|e|]; simpl; try (left; exact Hm).
    destruct (Hk a w1) as [Hk1 | Hk1].
    + left. eapply addsNo_trans; eassumption.
    + right. exact Hk1.
  - right. reflexivity.
Qed.

(** A handler that lets the cancellation error through. *)
Lemma guarded_tryCatch {A : Type} (m : M A) (h : JsError -> M A) :
  guarded C m -> (forall e, guarded C (h e)) ->
  (forall w, snd (h cancelled w) = Rejected cancelled) ->
  guarded C (tryCatch m h).
Proof.
  intros Hm Hh Hc w. specialize (Hm w). unfold tryCatch.
  destruct (m w) as [w1 o]; simpl in *. destruct Hm as [Hm | ->].
  - destruct o as [a|e|]; simpl; try (left; exact Hm).
    destruct (Hh e w1) as [Hh1 | Hh1].
    + left. eapply addsNo_trans; eassumption.
    + right. exact Hh1.
  - right. apply Hc.
Qed.

(** [if (cancellationToken && cancellationToken.isCancelled()) { ...;
    throw cancelled } k]. *)
Lemma guarded_poll {A : Type} (env : Env) (site : PollSite) (onTrue k : M A) :
  ~ C (EvPoll site false) ->
  (forall w, snd (onTrue w) = Rejected cancelled) ->
  guarded C k ->
  guarded C (let* c := poll env site in if c then onTrue else k).
Proof.
  intros Hn Ht Hk w. rewrite (bind_step _ _ _ _ _ (poll_eq _ _ _)).
  destruct (cancelledAt env site) eqn:E.
  - right. apply Ht.
  - destruct (Hk (polled env site w)) as [H | H]; [left | right; exact H].
    eapply addsNo_trans; [|exact H].
    apply (silent_poll env site). rewrite E. exact Hn.
Qed.

End Observations.

Lemma firstRejection_In {A : Type} (os : list (N * Outcome A)) (t : N) (e : JsError) :
  firstRejection os = Some (t, e) -> In (t, Rejected e) os.
Proof.
  revert t e. induction os as [|[t' o] os IH]; intros t e H; simpl in H; [discriminate|].
  destruct o as [a|e'|]; try (right; apply IH; exact H).
  destruct (firstRejection os) as [[t'' e'']|].
  - destruct (t'' <? t')%N; inversion H; subst.
    + right. apply IH. reflexivity.
    + left. reflexivity.
  - inversion H; subst. left. reflexivity.
Qed.

Lemma firstRejection_None {A : Type} (os : list (N * Outcome A)) (t : N) (e : JsError) :
  firstRejection os = None -> ~ In (t, Rejected e) os.
Proof.
  induction os as [|[t' o] os IH]; intros H Hin; simpl in *; [contradiction|].
  destruct o as [a|e'|].
  - destruct Hin as [Hin|Hin]; [discriminate | exact (IH H Hin)].
  - destruct (firstRejection os) as [[t'' e'']|]; [destruct (t'' <? t')%N|]; discriminate.
  - destruct Hin as [Hin|Hin]; [discriminate | exact (IH H Hin)].
Qed.

Lemma allResolved_Some {A : Type} (s0 : N) (os : list (N * Outcome A)) :
  (forall t o, In (t, o) os -> exists a, o = Resolved a) ->
  exists t l, allResolved s0 os = Some (t, l).
Proof.
  induction os as [|[t o] os IH]; intros H; simpl.
  - eexists _, _. reflexivity.
  - destruct (H t o (or_introl eq_refl)) as (a & ->).
    destruct IH as (t' & l & ->); [intros; eapply H; right; eassumption|].
    eexists _, _. reflexivity.
Qed.

(** What the promises of a batch observe and how they settle, when each of
    them is guarded and clean. *)
Lemma startAll_guarded {A : Type} (C : Event -> Prop) (ms : list (M A)) :
  (forall m, In m ms -> guarded C m) ->
  (forall m, In m ms -> clean m) ->
  forall (s : N) (w : World),
    (addsNo C (trace w) (trace (fst (startAll s ms w)))
     \/ exists t, In (t, Rejected cancelled) (snd (startAll s ms w)))
    /\ (forall t o, In (t, o) (snd (startAll s ms w)) ->
                    (exists a, o = Resolved a) \/ o = Rejected cancelled).
Proof.
  induction ms as [|m ms IH]; intros Hg Hc s w; simpl.
  - split; [left; apply addsNo_refl | intros t o []].
  - pose (w0 := {| now := s; trace := trace w; lastProgressLog := lastProgressLog w |}).
    fold w0.
    pose proof (Hg m (or_introl eq_refl) w0) as Hgm.
    pose proof (Hc m (or_introl eq_refl) w0) as Hcm.
    destruct (m w0) as [w1 o]. simpl in Hgm, Hcm.
    destruct (IH (fun m' H => Hg m' (or_intror H)) (fun m' H => Hc m' (or_intror H)) s w1)
      as [IHg IHc].
    destruct (startAll s ms w1) as [w2 os]. simpl in *. split.
    + destruct Hgm as [Hgm | ->].
      * destruct IHg as [IHg | (t & IHg)].
        -- left. eapply addsNo_trans; eassumption.
        -- right. exists t. right. exact IHg.
      * right. exists (now w1). left. reflexivity.
    + intros t o' [H | H].
      * inversion H; subst. exact Hcm.
      * eapply IHc. exact H.
Qed.

Lemma promiseAll_settles {A : Type} (ms : list (M A)) (w : World) :
  (forall t o, In (t, o) (snd (startAll (now w) ms w)) ->
               (exists a, o = Resolved a) \/ o = Rejected cancelled) ->
  (exists l, snd (promiseAll ms w) = Resolved l
             /\ forall t e, ~ In (t, Rejected e) (snd (startAll (now w) ms w)))
  \/ snd (promiseAll ms w) = Rejected cancelled.
Proof.
  intros Hc. unfold promiseAll.
  destruct (startAll (now w) ms w) as [w1 os]. simpl in *.
  destruct (firstRejection os) as [[t e]|] eqn:Er.
  - right. apply firstRejection_In in Er.
    destruct (Hc _ _ Er) as [(a & Ha) | Ha]; [discriminate|].
    inversion Ha. reflexivity.
  - left. destruct (allResolved_Some (now w) os) as (t & l & ->).
    + intros t o Hin. destruct (Hc _ _ Hin) as [Ha | ->]; [exact Ha|].
      exfalso. eapply firstRejection_None; eassumption.
    + exists l. split; [reflexivity|]. intros t' e'. apply firstRejection_None. exact Er.
Qed.

Lemma promiseAll_trace {A : Type} (ms : list (M A)) (w : World) :
  trace (fst (promiseAll ms w)) = trace (fst (startAll (now w) ms w)).
Proof.
  unfold promiseAll. destruct (startAll (now w) ms w) as [w1 os].
  destruct (firstRejection os) as [[t e]|]; [reflexivity|].
  destruct (allResolved (now w) os) as [[t l]|]; reflexivity.
Qed.

Lemma clean_promiseAll {A : Type} (ms : list (M A)) :
  (forall m, In m ms -> clean m) -> clean (promiseAll ms).
Proof.
  intros Hc w.
  assert (forall m, In m ms -> guarded (fun _ => False) m) as Hg
    by (intros m _ w'; left; intros t ev _ []).
  destruct (startAll_guarded (fun _ => False) ms Hg Hc (now w) w) as [_ Hos].
  destruct (promiseAll_settles ms w Hos) as [(l & Hl & _) | Hr];
    [left; exists l; exact Hl | right; exact Hr].
Qed.

Lemma guarded_promiseAll {A : Type} (C : Event -> Prop) (ms : list (M A)) :
  (forall m, In m ms -> guarded C m) ->
  (forall m, In m ms -> clean m) ->
  guarded C (promiseAll ms).
Proof.
  intros Hg Hc w. destruct (startAll_guarded C ms Hg Hc (now w) w) as [Hobs Hos].
  rewrite promiseAll_trace.
  destruct (promiseAll_settles ms w Hos) as [(l & Hl & Hno) | Hr]; [|right; exact Hr].
  destruct Hobs as [Hobs | (t & Hin)]; [left; exact Hobs|].
  exfalso. eapply Hno. exact Hin.
Qed.

Lemma In_mapFrom {A B : Type} (f : A -> nat -> B) (l : list A) (i : nat) (y : B) :
  In y (mapFrom f i l) -> exists x j, y = f x j.
Proof.
  revert i. induction l as [|x l IH]; intros i H; simpl in H; [contradiction|].
  destruct H as [<- | H]; [exists x, i; reflexivity | eapply IH; exact H].
Qed.

Lemma clean_bind {A B : Type} (m : M A) (k : A -> M B) :
  clean m -> (forall a, clean (k a)) -> clean (bind m k).
Proof.
  intros Hm Hk w. unfold bind. specialize (Hm w).
  destruct (m w) as [w1 o]. simpl in Hm. destruct Hm as [(a & ->) | ->].
  - apply Hk.
  - right. reflexivity.
Qed.

Lemma clean_ret {A : Type} (a : A) : clean (ret a).
Proof. intros w. left. exists a. reflexivity. Qed.

(** A clean computation followed by one that always rejects with the
    cancellation error rejects with the cancellation error. *)
Lemma clean_then_rejecting {A B : Type} (m : M A) (k : A -> M B) :
  clean m -> (forall a w, snd (k a w) = Rejected cancelled) ->
  forall w, snd (bind m k w) = Rejected cancelled.
Proof.
  intros Hm Hk w. unfold bind. specialize (Hm w).
  destruct (m w) as [w1 o]. simpl in Hm. destruct Hm as [(a & ->) | ->].
  - apply Hk.
  - reflexivity.
Qed.

Section Cancellation.

Variable env : Env.
Hypothesis Hquiet : quiet env.

Lemma clean_log (l : LogSite) : clean (log env l).
Proof. intros w. rewrite log_quiet by assumption. left. exists tt. reflexivity. Qed.

Lemma reported_then_thrown {A : Type} (l : LogSite) (w : World) :
  snd ((log env l ;; @throw A cancelled) w) = Rejected cancelled.
Proof. unfold bind. rewrite log_quiet by assumption. reflexivity. Qed.

Lemma progressLog_resolves (wallets : list Holder) (index : nat) (w : World) :
  exists w1,
    (let* last := readLastProgressLog in
     if (last + progressStep wallets <=? index)%nat
     then log env (LogAt 223 index) ;; writeLastProgressLog index
     else ret tt) w = (w1, Resolved tt).
Proof.
  unfold bind at 1. unfold readLastProgressLog.
  destruct (_ <=? index)%nat.
  - unfold bind. rewrite log_quiet by assumption. eexists. reflexivity.
  - eexists. reflexivity.
Qed.

Lemma clean_analyzeWalletWithTimeout (wallets : list Holder) (tokenAddress : string)
    (wallet : Holder) (index : nat) :
  clean (analyzeWalletWithTimeout env wallets tokenAddress wallet index).
Proof.
  intros w. unfold analyzeWalletWithTimeout.
  rewrite (bind_step _ _ _ _ _ (poll_eq _ _ _)).
  destruct (cancelledAt env (PollSchedule index)); [right; reflexivity|].
  destruct (progressLog_resolves wallets index (polled env (PollSchedule index) w))
    as (w1 & Hp).
  rewrite (bind_step _ _ _ _ _ Hp). left. unfold tryCatch, race.
  destruct (analyzeWallet env index wallet tokenAddress w1) as [w2 [v|e|]];
    try destruct (now w2 <=? now w1 + WALLET_ANALYSIS_TIMEOUT)%N;
    try (unfold bind; rewrite log_quiet by assumption);
    eexists; reflexivity.
Qed.

Lemma clean_batch (wallets : list Holder) (tokenAddress : string) (i : nat)
    (batch : list Holder) :
  clean (promiseAll (mapFrom (analyzeWalletWithTimeout env wallets tokenAddress) i batch)).
Proof.
  apply clean_promiseAll. intros m Hin.
  destruct (In_mapFrom _ _ _ _ Hin) as (x & j & ->).
  apply clean_analyzeWalletWithTimeout.
Qed.

Lemma clean_batches (wallets : list Holder) (tokenAddress : string) (fuel : nat) :
  forall (i : nat) (acc : list ClassifiedWallet),
    (length wallets <= i + fuel)%nat ->
    clean (batches env wallets tokenAddress fuel i acc).
Proof.
  induction fuel as [|fuel IH]; intros i acc Hfuel; simpl;
    destruct (Nat.ltb_spec i (length wallets)); try lia; try apply clean_ret.
  intros w. rewrite (bind_step _ _ _ _ _ (poll_eq _ _ _)).
  destruct (cancelledAt env (PollBatch i)); [right; apply reported_then_thrown|].
  revert w. intros w.
  apply clean_bind; [apply clean_log|]. intros _.
  apply clean_bind; [apply clean_batch|]. intros batchResults.
  apply clean_bind.
  - destruct (_ <? _)%nat; intros w'; left; exists tt; reflexivity.
  - intros _. apply IH. unfold BATCH_SIZE. lia.
Qed.

Lemma clean_analyzeWalletsWithTimeout (wallets : list Holder) (tokenAddress : string) :
  clean (analyzeWalletsWithTimeout env wallets tokenAddress).
Proof.
  unfold analyzeWalletsWithTimeout.
  apply clean_bind; [intros w; left; exists tt; reflexivity|]. intros _.
  apply clean_bind; [apply clean_batches; lia|]. intros analyzedWallets.
  apply clean_bind; [apply clean_log|]. intros _. apply clean_ret.
Qed.

(** The handler of the orchestrator lets the cancellation error through. *)
Lemma analyzeTeamSupply_catch_cancelled (w : World) :
  snd (analyzeTeamSupply_catch env cancelled w) = Rejected cancelled.
Proof.
  unfold analyzeTeamSupply_catch. rewrite (bind_step _ _ _ _ _ (poll_eq _ _ _)).
  destruct (cancelledAt env PollCatch); apply reported_then_thrown.
Qed.

Section Guarding.

Variable C : Event -> Prop.
Hypothesis HCfalse : forall site, ~ C (EvPoll site false).
Hypothesis HClog : forall l, ~ C (EvLog l).
Hypothesis HCcall : forall c, ~ C (EvCall c).

Lemma guarded_log (l : LogSite) : guarded C (log env l).
Proof. apply silent_guarded, silent_log, HClog. Qed.

Lemma guarded_await {A : Type} (c : Call) (r : Reply A) : guarded C (await c r).
Proof. apply silent_guarded, silent_await, HCcall. Qed.

Lemma guarded_checkCancellation (s : Step) : guarded C (checkCancellation env s).
Proof.
  unfold checkCancellation. apply guarded_poll.
  - apply HCfalse.
  - apply reported_then_thrown.
  - apply silent_guarded, silent_ret.
Qed.

Lemma guarded_aggregate (tokenAddress : string) (tokenInfo : TokenInfo)
    (analyzedWallets : list ClassifiedWallet) :
  guarded C (aggregate env tokenAddress tokenInfo analyzedWallets).
Proof.
  unfold aggregate.
  repeat first [ apply guarded_log | apply guarded_checkCancellation
               | apply silent_guarded, silent_ret
               | apply guarded_bind; [|intro]
               | progress cbv zeta ].
Qed.

Lemma guarded_analyzeTeamSupply_catch (e : JsError) :
  guarded C (analyzeTeamSupply_catch env e).
Proof.
  unfold analyzeTeamSupply_catch. apply guarded_poll.
  - apply HCfalse.
  - apply reported_then_thrown.
  - apply guarded_bind; [apply guarded_log | intro; apply silent_guarded, silent_throw].
Qed.

(** The orchestrator is guarded as soon as what it does from the scheduler
    on is. *)
Lemma guarded_analyzeTeamSupply (tokenAddress : string) :
  (forall tokenInfo holders,
      guarded C (bind (analyzeWalletsWithTimeout env holders tokenAddress)
                      (aggregate env tokenAddress tokenInfo))) ->
  guarded C (analyzeTeamSupply env tokenAddress).
Proof.
  intros Hrest. unfold analyzeTeamSupply.
  apply guarded_bind; [apply guarded_log|]. intros _.
  apply guarded_tryCatch;
    [|apply guarded_analyzeTeamSupply_catch | apply analyzeTeamSupply_catch_cancelled].
  unfold analyzeTeamSupply_try.
  apply guarded_bind; [apply guarded_checkCancellation|]. intros _.
  apply guarded_bind; [apply guarded_log|]. intros _.
  apply guarded_bind; [apply guarded_await|]. intros [assetInfo|];
    [|apply silent_guarded, silent_throw].
  repeat first [ apply Hrest | apply guarded_log | apply guarded_checkCancellation
               | apply guarded_await
               | apply guarded_bind; [|intro]
               | progress cbv zeta ].
Qed.

(** *** Polls inside a wallet's classification never of kind [C] *)

Hypothesis HCpoll :
  forall site, fatal site = false -> ~ C (EvPoll site (cancelledAt env site)).

Ltac silence :=
  repeat first
    [ apply silent_ret | apply silent_throw
    | apply silent_log; apply HClog
    | apply silent_await; apply HCcall
    | apply silent_poll; apply HCpoll; reflexivity
    | apply silent_readLastProgressLog | apply silent_writeLastProgressLog
    | apply silent_race
    | apply silent_bind; [|intro] | apply silent_tryCatch; [|intro]
    | match goal with
      | |- silent _ (if ?b then _ else _) => destruct b
      | |- silent _ (match ?x with _ => _ end) => destruct x
      end ].

Lemma silent_analyzeWallet (index : nat) (wallet : Holder) (tokenAddress : string) :
  silent C (analyzeWallet env index wallet tokenAddress).
Proof.
  unfold analyzeWallet, analyzeWallet_try, analyzeWallet_catch, detailedAnalysis,
    fundingStage, inactivityStage, isFreshWallet, hasExcessiveTransactions.
  silence.
Qed.

Lemma guarded_analyzeWalletWithTimeout (wallets : list Holder) (tokenAddress : string)
    (wallet : Holder) (index : nat) :
  guarded C (analyzeWalletWithTimeout env wallets tokenAddress wallet index).
Proof.
  unfold analyzeWalletWithTimeout. apply guarded_poll.
  - apply HCfalse.
  - reflexivity.
  - apply silent_guarded. apply silent_bind; [silence|]. intros _.
    apply silent_tryCatch; [apply silent_race, silent_analyzeWallet | intro; silence].
Qed.

Lemma guarded_batches (wallets : list Holder) (tokenAddress : string) (fuel : nat) :
  forall (i : nat) (acc : list ClassifiedWallet),
    guarded C (batches env wallets tokenAddress fuel i acc).
Proof.
  induction fuel as [|fuel IH]; intros i acc; simpl;
    destruct (i <? length wallets)%nat;
    try (apply silent_guarded, silent_ret);
    try (intros w; left; apply addsNo_refl).
  apply guarded_poll; [apply HCfalse | apply reported_then_thrown |].
  apply guarded_bind; [apply guarded_log|]. intros _.
  apply guarded_bind.
  - apply guarded_promiseAll; intros m Hin;
      destruct (In_mapFrom _ _ _ _ Hin) as (x & j & ->);
      [apply guarded_analyzeWalletWithTimeout | apply clean_analyzeWalletWithTimeout].
  - intros batchResults. apply guarded_bind; [|intros _; apply IH].
    destruct (_ <? _)%nat; apply silent_guarded; [apply silent_sleep | apply silent_ret].
Qed.

Lemma guarded_analyzeWalletsWithTimeout (wallets : list Holder) (tokenAddress : string) :
  guarded C (analyzeWalletsWithTimeout env wallets tokenAddress).
Proof.
  unfold analyzeWalletsWithTimeout.
  apply guarded_bind; [apply silent_guarded, silent_writeLastProgressLog|]. intros _.
  apply guarded_bind; [apply guarded_batches|]. intros analyzedWallets.
  apply guarded_bind; [apply guarded_log|]. intros _. apply silent_guarded, silent_ret.
Qed.

Lemma guarded_run (tokenAddress : string) : guarded C (analyzeTeamSupply env tokenAddress).
Proof.
  apply guarded_analyzeTeamSupply. intros tokenInfo holders.
  apply guarded_bind; [apply guarded_analyzeWalletsWithTimeout|].
  intros analyzedWallets. apply guarded_aggregate.
Qed.

End Guarding.

(** A poll made by the orchestrator or the scheduler that reports
    cancelled stops the run. *)
Lemma fatal_poll_rejects (tokenAddress : string) (site : PollSite) (w : World) :
  fatal site = true ->
  (exists t, In (t, EvPoll site true) (trace (fst (analyzeTeamSupply env tokenAddress w)))
             /\ ~ In (t, EvPoll site true) (trace w)) ->
  snd (analyzeTeamSupply env tokenAddress w) = Rejected cancelled.
Proof.
  intros Hf (t & Hin & Hnew).
  destruct (guarded_run (fun ev => ev = EvPoll site true)) with (tokenAddress := tokenAddress)
                                                                (w := w) as [H | H].
  - intros s E. discriminate.
  - intros l E. discriminate.
  - intros c E. discriminate.
  - intros s Hs E. inversion E; subst. congruence.
  - exfalso. apply Hnew. apply H; [exact Hin | reflexivity].
  - exact H.
Qed.

(** A poll made inside a classification that reports cancelled stops the
    run when the token still reports cancelled after the scheduler. *)
Lemma wallet_poll_rejects (tokenAddress : string) (site : PollSite) (w : World) :
  fatal site = false ->
  (cancelledAt env site = true -> cancelledAt env (PollStep FilterTeamWallets) = true) ->
  (exists t, In (t, EvPoll site true) (trace (fst (analyzeTeamSupply env tokenAddress w)))
             /\ ~ In (t, EvPoll site true) (trace w)) ->
  snd (analyzeTeamSupply env tokenAddress w) = Rejected cancelled.
Proof.
  intros Hf Hlater (t & Hin & Hnew).
  assert (guarded (fun ev => ev = EvPoll site true) (analyzeTeamSupply env tokenAddress))
    as Hg.
  { destruct (cancelledAt env site) eqn:Ec.
    - apply guarded_analyzeTeamSupply; try (intros ? E; discriminate).
      intros tokenInfo holders. apply rejecting_guarded.
      apply clean_then_rejecting; [apply clean_analyzeWalletsWithTimeout|].
      intros analyzedWallets w'. unfold aggregate.
      rewrite (bind_step _ _ _ _ _ (log_quiet _ _ _ Hquiet)).
      unfold checkCancellation at 1.
      unfold bind at 1. rewrite (bind_step _ _ _ _ _ (poll_eq _ _ _)).
      rewrite (Hlater eq_refl).
      unfold bind. rewrite log_quiet by assumption. reflexivity.
    - apply guarded_run; try (intros ? E; discriminate).
      intros s Hs E. inversion E; subst. congruence. }
  destruct (Hg w) as [H | H]; [|exact H].
  exfalso. apply Hnew. apply H; [exact Hin | reflexivity].
Qed.

End Cancellation.

(** The handler of the orchestrator always throws. *)
Lemma analyzeTeamSupply_catch_throws (env : Env) (e : JsError) (w : World) :
  exists e', snd (analyzeTeamSupply_catch env e w) = Rejected e'.
Proof.
  unfold analyzeTeamSupply_catch. rewrite (bind_step _ _ _ _ _ (poll_eq _ _ _)).
  destruct (cancelledAt env PollCatch); unfold bind, log;
    destruct (logger env _); eexists; reflexivity.
Qed.

Lemma no_token_info_rejects (env : Env) (tokenAddress : string) (d : N) (w : World) :
  getAsset env tokenAddress = Returns d None ->
  exists e, snd (analyzeTeamSupply env tokenAddress w) = Rejected e.
Proof.
  intros Hasset. unfold analyzeTeamSupply, bind at 1, log at 1.
  destruct (logger env (LogAt 54 0)); [eexists; reflexivity|].
  assert (forall w0, exists w1 e,
             analyzeTeamSupply_try env tokenAddress w0 = (w1, Rejected e)) as Htry.
  { intros w0. unfold analyzeTeamSupply_try, checkCancellation.
    unfold bind at 1. rewrite (bind_step _ _ _ _ _ (poll_eq _ _ _)).
    destruct (cancelledAt env (PollStep FetchTokenInfo)).
    - unfold bind, log. destruct (logger env _); eexists _, _; reflexivity.
    - unfold ret at 1. unfold bind at 1, log at 1.
      destruct (logger env (LogAt 83 0)); [eexists _, _; reflexivity|].
      unfold bind, await. rewrite Hasset. eexists _, _. reflexivity. }
  destruct (Htry (emit (EvLog (LogAt 54 0)) w)) as (w1 & e & He).
  rewrite (tryCatch_caught _ _ _ _ _ He). apply analyzeTeamSupply_catch_throws.
Qed.

Lemma wallet_polls_phase (site : PollSite) :
  fatal site = false -> (phase site < phase (PollStep FilterTeamWallets))%nat.
Proof. destruct site; simpl; intros H; try discriminate; lia. Qed.

(** X1. The fatal paths. A run with no token info rejects. With a logger
    that does not throw, a run in which the token reports cancelled at a
    poll of the orchestrator or of the scheduler, or at any poll when the
    token keeps reporting cancelled afterwards, rejects with the
    cancellation error: no result is returned. *)
Theorem fatal_paths_reject (env : Env) (tokenAddress : string) :
  ((exists d, getAsset env tokenAddress = Returns d None) ->
   exists e, snd (analyzeTeamSupply env tokenAddress start) = Rejected e)
  /\ (quiet env ->
      forall site,
        reportedCancelled (fst (analyzeTeamSupply env tokenAddress start)) site ->
        fatal site = true \/ staysCancelled env ->
        snd (analyzeTeamSupply env tokenAddress start) = Rejected cancelled).
Proof.
  split.
  - intros (d & Hd). eapply no_token_info_rejects. exact Hd.
  - intros Hq site (t & Hin) Hwhy.
    assert (exists t, In (t, EvPoll site true)
                         (trace (fst (analyzeTeamSupply env tokenAddress start)))
                      /\ ~ In (t, EvPoll site true) (trace start)) as Hnew
      by (exists t; split; [exact Hin | intros []]).
    destruct (fatal site) eqn:Ef.
    + exact (fatal_poll_rejects env Hq tokenAddress site start Ef Hnew).
    + destruct Hwhy as [Hf | Hstays]; [discriminate|].
      apply (wallet_poll_rejects env Hq tokenAddress site start Ef); [|exact Hnew].
      apply Hstays. apply wallet_polls_phase. exact Ef.
Qed.

(** C8. The fatal paths end without a result. A run for which [getAsset]
    resolves to [null] rejects, with 'No token info found' when the logger
    does not throw and no cancellation is reported. With a logger that
    does not throw, a run in which the token reports cancelled before a
    batch (in particular before any batch after the first) rejects with
    the cancellation error; and so does a run in which the token reports
    cancelled at any poll whatever, provided that a token that has
    reported cancelled goes on reporting cancelled: no result, not even a
    partial one, is returned. *)
Theorem cancelled_run_rejects (env : Env) (tokenAddress : string) :
  (forall d,
      getAsset env tokenAddress = Returns d None ->
      (exists e, snd (analyzeTeamSupply env tokenAddress start) = Rejected e)
      /\ (quiet env -> (forall site, cancelledAt env site = false) ->
          snd (analyzeTeamSupply env tokenAddress start)
          = Rejected (Error "No token info found")))
  /\ (quiet env ->
      forall i,
        reportedCancelled (fst (analyzeTeamSupply env tokenAddress start)) (PollBatch i) ->
        snd (analyzeTeamSupply env tokenAddress start) = Rejected cancelled)
  /\ (quiet env -> staysCancelled env ->
      forall site,
        reportedCancelled (fst (analyzeTeamSupply env tokenAddress start)) site ->
        snd (analyzeTeamSupply env tokenAddress start) = Rejected cancelled
        /\ forall w result,
             analyzeTeamSupply env tokenAddress start <> (w, Resolved result)).
Proof.
  assert (forall site,
             reportedCancelled (fst (analyzeTeamSupply env tokenAddress start)) site ->
             exists t, In (t, EvPoll site true)
                          (trace (fst (analyzeTeamSupply env tokenAddress start)))
                       /\ ~ In (t, EvPoll site true) (trace start)) as Hnew.
  { intros site (t & Hin). exists t. split; [exact Hin | intros []]. }
  split; [|split].
  - intros d Hd. split; [eapply no_token_info_rejects; exact Hd|].
    intros Hq Hgo. unfold analyzeTeamSupply.
    rewrite (bind_step _ _ _ _ _ (log_quiet _ _ _ Hq)).
    assert (exists w1, analyzeTeamSupply_try env tokenAddress
                         (emit (EvLog (LogAt 54 0)) start)
                       = (w1, Rejected (Error "No token info found"))) as (w1 & Htry).
    { unfold analyzeTeamSupply_try, checkCancellation.
      unfold bind at 1. rewrite (bind_step _ _ _ _ _ (poll_eq _ _ _)), Hgo.
      unfold ret at 1. rewrite (bind_step _ _ _ _ _ (log_quiet _ _ _ Hq)).
      unfold bind, await. rewrite Hd. eexists. reflexivity. }
    rewrite (tryCatch_caught _ _ _ _ _ Htry).
    unfold analyzeTeamSupply_catch.
    rewrite (bind_step _ _ _ _ _ (poll_eq _ _ _)), Hgo.
    rewrite (bind_step _ _ _ _ _ (log_quiet _ _ _ Hq)). reflexivity.
  - intros Hq i Hrep.
    exact (fatal_poll_rejects env Hq tokenAddress (PollBatch i) start eq_refl
             (Hnew _ Hrep)).
  - intros Hq Hstays site Hrep.
    assert (snd (analyzeTeamSupply env tokenAddress start) = Rejected cancelled) as Hr.
    { destruct (fatal site) eqn:Ef.
      - exact (fatal_poll_rejects env Hq tokenAddress site start Ef (Hnew _ Hrep)).
      - apply (wallet_poll_rejects env Hq tokenAddress site start Ef);
          [|exact (Hnew _ Hrep)].
        apply Hstays. apply wallet_polls_phase. exact Ef. }
    split; [exact Hr|]. intros w result H. rewrite H in Hr. discriminate Hr.
Qed.

Lemma cancelledAfterFirstBatch_stays : staysCancelled Cases.cancelledAfterFirstBatch.
Proof.
  intros s s'. destruct s as [[]| | | | | |]; destruct s' as [[]| | | | | |];
    simpl; intros Hlt Hs; try reflexivity; try discriminate; lia.
Qed.

(** ** Categories *)

(** X2. [isTeamWalletCategory] holds of the four team categories and of
    nothing else; in particular not of [Normal] nor of [Error]. *)
Theorem isTeamWalletCategory_exhaustive (c : string) :
  (isTeamWalletCategory c = true
   <-> c = "Fresh" \/ c = "Inactive" \/ c = "No Token" \/ c = "No ATA Transaction")
  /\ isTeamWalletCategory "Normal" = false
  /\ isTeamWalletCategory "Error" = false.
Proof.
  split; [|split; vm_compute; reflexivity].
  unfold isTeamWalletCategory. rewrite has_spec. unfold TEAM_WALLET_CATEGORIES.
  rewrite !elem_of_union, !elem_of_singleton. tauto.
Qed.

Lemma error_is_no_team_category (v : ClassifiedWallet) :
  category v = "Error" -> bool_decide (category v ∈ TEAM_WALLET_CATEGORIES) = false.
Proof. intros ->. vm_compute. reflexivity. Qed.

(** X3. A wallet recorded with category [Error] contributes nothing to the
    team balance nor to [totalSupplyControlled]. *)
Theorem error_wallet_never_counts (tokenInfo : TokenInfo) (before after : list ClassifiedWallet)
    (wallet : Holder) (e : JsError) :
  teamBalance (before ++ errorWallet wallet e :: after) = teamBalance (before ++ after)
  /\ totalSupplyControlledOf tokenInfo (before ++ errorWallet wallet e :: after)
     = totalSupplyControlledOf tokenInfo (before ++ after).
Proof.
  assert (teamBalance (before ++ errorWallet wallet e :: after)
          = teamBalance (before ++ after)) as Hb.
  { unfold teamBalance. rewrite !List.filter_app.
    change (List.filter ?f (errorWallet wallet e :: after))
      with (if f (errorWallet wallet e)
            then errorWallet wallet e :: List.filter f after
            else List.filter f after).
    cbv beta. rewrite (error_is_no_team_category (errorWallet wallet e) eq_refl).
    reflexivity. }
  split; [exact Hb|].
  unfold totalSupplyControlledOf. rewrite !teamSupplyHeldOf_sum, Hb. reflexivity.
Qed.

Lemma inactivityStage_category (env : Env) (index : nat) (wallet : Holder)
    (tokenAddress : string) (w w' : World) (c : string) (days : JsOpt Z) :
  inactivityStage env index wallet tokenAddress w = (w', Resolved (c, days)) ->
  In c ["Normal"; "No Token"; "No ATA Transaction"; "Inactive"].
Proof.
  unfold inactivityStage. intros H.
  apply tryCatch_resolved in H. destruct H as [H | (w1 & e & _ & H)].
  - resolved H. destruct a; [discriminate|]. resolved H. inversion H as [[Hw Hc]].
    unfold inactivityCategory in Hc.
    destruct a as [ic|]; [|inversion Hc; simpl; tauto].
    destruct (categoryIs ic "No Token"); [inversion Hc; simpl; tauto|].
    destruct (categoryIs ic "No ATA Transaction"); [inversion Hc; simpl; tauto|].
    destruct (isInactive ic); inversion Hc; simpl; tauto.
  - resolved H. inversion H. simpl. tauto.
Qed.

Lemma analyzeWallet_category (env : Env) (index : nat) (wallet : Holder)
    (tokenAddress : string) (w w' : World) (v : ClassifiedWallet) :
  analyzeWallet env index wallet tokenAddress w = (w', Resolved v) ->
  In (category v) WalletCategory.
Proof.
  unfold analyzeWallet. intros H. resolved H. destruct a; [discriminate|].
  apply tryCatch_resolved in H. destruct H as [H | (w1 & e & _ & H)].
  - unfold analyzeWallet_try in H. resolved H. destruct a.
    + inversion H. simpl. tauto.
    + unfold detailedAnalysis in H. resolved H.
      match type of H with
      | (let '(_, _) := ?p in _) _ = _ => destruct p as [c days]
      end.
      apply fundingStage_category in H. destruct H as (_ & -> & _).
      match goal with
      | E : (if ?b then _ else _) _ = _ |- _ => destruct b
      end.
      * match goal with E : ret _ _ = _ |- _ => inversion E end. simpl. tauto.
      * match goal with
        | E : inactivityStage _ _ _ _ _ = _ |- _ =>
            apply inactivityStage_category in E; simpl in E; simpl; tauto
        end.
  - unfold analyzeWallet_catch in H. destruct (includes (message e) "cancelled").
    + discriminate.
    + resolved H. inversion H. simpl. tauto.
Qed.

Lemma analyzeWalletWithTimeout_category (env : Env) (wallets : list Holder)
    (tokenAddress : string) (wallet : Holder) (index : nat) (w w' : World)
    (v : ClassifiedWallet) :
  analyzeWalletWithTimeout env wallets tokenAddress wallet index w = (w', Resolved v) ->
  In (category v) WalletCategory.
Proof.
  unfold analyzeWalletWithTimeout. intros H. resolved H. destruct a; [discriminate|].
  resolved H. apply tryCatch_resolved in H. destruct H as [H | (w2 & e & _ & H)].
  - apply race_resolved in H. eapply analyzeWallet_category. exact H.
  - resolved H. inversion H. simpl. tauto.
Qed.

Lemma batches_category (env : Env) (wallets : list Holder) (tokenAddress : string)
    (fuel : nat) :
  forall (i : nat) (acc : list ClassifiedWallet) (w w' : World)
         (out : list ClassifiedWallet),
    batches env wallets tokenAddress fuel i acc w = (w', Resolved out) ->
    Forall (fun v => In (category v) WalletCategory) acc ->
    Forall (fun v => In (category v) WalletCategory) out.
Proof.
  induction fuel as [|fuel IH]; intros i acc w w' out H Hacc; simpl in H;
    destruct (i <? length wallets)%nat; try discriminate;
    try (inversion H; subst; exact Hacc).
  resolved H. destruct a; [resolved H; discriminate|].
  resolved H. eapply IH; [exact H|].
  apply Forall_app. split; [exact Hacc|].
  match goal with
  | E : promiseAll ?ms _ = (_, Resolved ?l) |- _ =>
      apply (promiseAll_resolved (fun _ v => In (category v) WalletCategory)) in E
  end.
  - match goal with
    | E : Forall2 _ _ ?l |- Forall _ ?l =>
        clear - E; induction E; constructor; assumption
    end.
  - intros m ? ? v Hin Hv. destruct (In_mapFrom _ _ _ _ Hin) as (x & j & ->).
    eapply analyzeWalletWithTimeout_category. exact Hv.
Qed.

(** X4. Every wallet the scheduler returns has one of the six categories
    of the enumeration. *)
Theorem categories_closed (env : Env) (wallets : list Holder) (tokenAddress : string)
    (w w' : World) (analyzedWallets : list ClassifiedWallet) :
  analyzeWalletsWithTimeout env wallets tokenAddress w = (w', Resolved analyzedWallets) ->
  forall v, In v analyzedWallets -> In (category v) WalletCategory.
Proof.
  unfold analyzeWalletsWithTimeout. intros H. resolved H. inversion H; subst.
  match goal with
  | E : batches _ _ _ _ _ _ _ = _ |- _ =>
      apply batches_category in E; [|constructor]; rename E into Hall
  end.
  intros v Hin. rewrite List.Forall_forall in Hall. apply Hall. exact Hin.
Qed.

(** X5. With a logger that does not throw, the scheduler always settles:
    it resolves, or it rejects with the cancellation error. *)
Theorem scheduler_settles (env : Env) (wallets : list Holder) (tokenAddress : string)
    (w : World) :
  quiet env ->
  (exists analyzedWallets,
      snd (analyzeWalletsWithTimeout env wallets tokenAddress w) = Resolved analyzedWallets)
  \/ snd (analyzeWalletsWithTimeout env wallets tokenAddress w) = Rejected cancelled.
Proof.
  intros Hq. apply clean_analyzeWalletsWithTimeout. exact Hq.
Qed.

(** ** How far the percentage is from the exact quotient *)

Lemma spec_totalSupplyControlled_bounds (S T : Z) :
  0 <= S -> 0 < T ->
  (spec_totalSupplyControlled S T <= inject_Z 100 * inject_Z S / inject_Z T)%Q
  /\ (inject_Z 100 * inject_Z S / inject_Z T
      < spec_totalSupplyControlled S T + 1 / inject_Z (10 ^ 16))%Q
  /\ ((T | S * 10 ^ 18) ->
      (spec_totalSupplyControlled S T == inject_Z 100 * inject_Z S / inject_Z T)%Q).
Proof.
  intros HS HT. unfold spec_totalSupplyControlled, spec_share, fixed18.
  rewrite Qtruncate_ratio by assumption.
  rewrite Z.quot_div_nonneg by lia.
  pose proof (Z.mul_div_le (S * 10 ^ 18) T HT) as Hle.
  pose proof (Z.mul_succ_div_gt (S * 10 ^ 18) T HT) as Hgt.
  set (q := (S * 10 ^ 18) / T) in *.
  destruct T as [|p|p]; try lia.
  change (10 ^ 18) with 1000000000000000000 in *.
  change (10 ^ 16) with 10000000000000000 in *.
  unfold Qle, Qlt, Qeq, Qplus, Qdiv, Qmult, Qinv, inject_Z.
  cbn [Qnum Qden]. unfold Qmult, Qinv, Qplus. cbn [Qnum Qden].
  rewrite ?Pos2Z.inj_mul, ?Z.mul_1_l, ?Z.mul_1_r.
  assert (Z.succ q = q + 1) as Hs by lia. rewrite Hs in Hgt.
  assert ((Z.pos p | S * 1000000000000000000) ->
          Z.pos p * q = S * 1000000000000000000) as Hd.
  { intros (k & Hk). subst q. rewrite Hk, Z.div_mul by lia. lia. }
  clearbody q.
  split; [|split].
  - nia.
  - nia.
  - intros Hk. specialize (Hd Hk). nia.
Qed.

(** X6. With a positive supply and a team balance that is not negative,
    the decimal behind [totalSupplyControlled] is never above the exact
    [100 * teamBalance / totalSupply], falls short of it by less than
    [10^-16], and is equal to it when the supply divides
    [teamBalance * 10^18]. *)
Theorem totalSupplyControlled_accuracy (tokenInfo : TokenInfo)
    (analyzedWallets : list ClassifiedWallet) :
  0 < total_supply tokenInfo ->
  0 <= teamBalance analyzedWallets ->
  exists (d : BigNumber.t) (q : Q),
    totalSupplyControlledOf tokenInfo analyzedWallets = BigNumber.toNumber d
    /\ BigNumber.value d = Some q
    /\ (q <= inject_Z 100 * inject_Z (teamBalance analyzedWallets)
             / inject_Z (total_supply tokenInfo))%Q
    /\ (inject_Z 100 * inject_Z (teamBalance analyzedWallets)
        / inject_Z (total_supply tokenInfo) < q + 1 / inject_Z (10 ^ 16))%Q
    /\ ((total_supply tokenInfo | teamBalance analyzedWallets * 10 ^ 18) ->
        (q == inject_Z 100 * inject_Z (teamBalance analyzedWallets)
              / inject_Z (total_supply tokenInfo))%Q).
Proof.
  intros HT HS. rewrite totalSupplyControlledOf_integers by lia.
  destruct (spec_totalSupplyControlled_bounds _ _ HS HT) as (Hle & Hlt & Hex).
  assert ((Z.quot (teamBalance analyzedWallets * 10 ^ 18) (total_supply tokenInfo) * 100
           # Z.to_pos (BigNumber.pow10 18)
           == spec_totalSupplyControlled (teamBalance analyzedWallets)
                                         (total_supply tokenInfo))%Q) as Hq.
  { unfold spec_totalSupplyControlled, spec_share, fixed18.
    rewrite Qtruncate_ratio by assumption.
    unfold Qeq, Qdiv, Qmult, Qinv, inject_Z. simpl. lia. }
  eexists _, _. split; [reflexivity|]. split; [reflexivity|].
  rewrite Hq. split; [exact Hle|]. split; [exact Hlt | exact Hex].
Qed.

(** ** Freshness, inactivity and funding *)

Lemma isFreshWallet_returns (env : Env) (index : nat) (a : string) (d : N) (n : nat)
    (w : World) :
  getSignaturesForAddress env index a (FRESH_WALLET_THRESHOLD + 1) = Returns d n ->
  isFreshWallet env index a w
  = (tick d (emit (EvCall (CallSignatures index (FRESH_WALLET_THRESHOLD + 1))) w),
     Resolved (n <? FRESH_WALLET_THRESHOLD)%nat).
Proof.
  intros H. unfold isFreshWallet, tryCatch, bind, await. rewrite H. reflexivity.
Qed.

Lemma isFreshWallet_throws (env : Env) (index : nat) (a : string) (d : N) (e : JsError)
    (w : World) :
  getSignaturesForAddress env index a (FRESH_WALLET_THRESHOLD + 1) = Throws d e ->
  isFreshWallet env index a w
  = (tick d (emit (EvCall (CallSignatures index (FRESH_WALLET_THRESHOLD + 1))) w),
     Resolved false).
Proof.
  intros H. unfold isFreshWallet, tryCatch, bind, await. rewrite H. reflexivity.
Qed.

Section NoInactivityCall.

Variable env : Env.
Variable index : nat.

Let C : Event -> Prop := fun ev => ev = EvCall (CallInactivity index).

Lemma silent_hasExcessiveTransactions (a : string) :
  silent C (hasExcessiveTransactions env index a).
Proof.
  unfold hasExcessiveTransactions.
  apply silent_tryCatch; [|intro; apply silent_ret].
  apply silent_bind; [|intro; apply silent_ret].
  apply silent_await. intros E. discriminate E.
Qed.

Lemma silent_fundingStage (wallet : Holder) (c : string) (days : JsOpt Z) :
  silent C (fundingStage env index wallet c days).
Proof.
  unfold fundingStage.
  apply silent_bind; [apply silent_poll; intros E; discriminate E|].
  intros [|]; [apply silent_throw|].
  apply silent_bind.
  - apply silent_tryCatch.
    + apply silent_bind; [apply silent_await; intros E; discriminate E|].
      intros [[|? ?]|]; apply silent_ret.
    + intro. apply silent_bind; [apply silent_log; intros E; discriminate E|].
      intro. apply silent_ret.
  - intros [?|]; apply silent_ret.
Qed.

Lemma silent_analyzeWallet_catch (wallet : Holder) (e : JsError) :
  silent C (analyzeWallet_catch env index wallet e).
Proof.
  unfold analyzeWallet_catch. destruct (includes (message e) "cancelled").
  - apply silent_throw.
  - apply silent_bind; [apply silent_log; intros E; discriminate E|].
    intro. apply silent_ret.
Qed.

End NoInactivityCall.

(** X7. A wallet that is not busy and whose second signature lookup
    (limit 101) returns fewer than 100 entries is classified [Fresh]: the
    classification goes straight to the funding stage, the inactivity
    check is never called, and (unless reporting a funding failure itself
    fails) a wallet that is returned has category [Fresh] and a [null]
    inactivity age. A lookup that throws counts as "not fresh". *)
Theorem fresh_wallet_skips_inactivity (env : Env) (index : nat) (wallet : Holder)
    (tokenAddress : string) (w w1 : World) :
  cancelledAt env (PollClassify index) = false ->
  hasExcessiveTransactions env index (address wallet) (polled env (PollClassify index) w)
  = (w1, Resolved false) ->
  (forall d n,
      getSignaturesForAddress env index (address wallet) (FRESH_WALLET_THRESHOLD + 1)
      = Returns d n ->
      (n < FRESH_WALLET_THRESHOLD)%nat ->
      analyzeWallet env index wallet tokenAddress w
      = tryCatch (fundingStage env index wallet "Fresh" Null)
                 (analyzeWallet_catch env index wallet)
                 (tick d (emit (EvCall (CallSignatures index (FRESH_WALLET_THRESHOLD + 1)))
                               w1))
      /\ (forall t,
             In (t, EvCall (CallInactivity index))
                (trace (fst (analyzeWallet env index wallet tokenAddress w))) ->
             In (t, EvCall (CallInactivity index)) (trace w))
      /\ (logger env (LogAt 365 index) = None ->
          forall w' v,
            analyzeWallet env index wallet tokenAddress w = (w', Resolved v) ->
            category v = "Fresh" /\ daysSinceLastActivity v = Null
            /\ error v = Undefined))
  /\ (forall d e,
         getSignaturesForAddress env index (address wallet) (FRESH_WALLET_THRESHOLD + 1)
         = Throws d e ->
         exists w2, isFreshWallet env index (address wallet) w1 = (w2, Resolved false)).
Proof.
  intros Hc Hx. split.
  - intros d n Hs Hn.
    assert (analyzeWallet env index wallet tokenAddress w
            = tryCatch (fundingStage env index wallet "Fresh" Null)
                       (analyzeWallet_catch env index wallet)
                       (tick d (emit (EvCall (CallSignatures index
                                                (FRESH_WALLET_THRESHOLD + 1))) w1)))
      as Heq.
    { rewrite analyzeWallet_started by assumption.
      unfold tryCatch, analyzeWallet_try.
      rewrite (bind_step _ _ _ _ _ Hx). unfold detailedAnalysis.
      rewrite (bind_step _ _ _ _ _ (isFreshWallet_returns _ _ _ _ _ _ Hs)).
      apply Nat.ltb_lt in Hn. rewrite Hn. reflexivity. }
    split; [exact Heq|]. split.
    + intros t Hin. rewrite Heq in Hin.
      set (C := fun ev => ev = EvCall (CallInactivity index)).
      assert (addsNo C (trace w) (trace w1)) as H1.
      { eapply addsNo_trans.
        - apply (silent_poll C env (PollClassify index)). intros E. discriminate E.
        - pose proof (silent_hasExcessiveTransactions env index (address wallet)
                        (polled env (PollClassify index) w)) as Hsi.
          fold (polled env (PollClassify index) w). rewrite Hx in Hsi. exact Hsi. }
      assert (addsNo C (trace w1)
                (trace (tick d (emit (EvCall (CallSignatures index
                                                (FRESH_WALLET_THRESHOLD + 1))) w1))))
        as H2.
      { apply (addsNo_emit C). intros E. discriminate E. }
      pose proof (silent_tryCatch C _ _
                    (silent_fundingStage env index wallet "Fresh" Null)
                    (silent_analyzeWallet_catch env index wallet)
                    (tick d (emit (EvCall (CallSignatures index
                                             (FRESH_WALLET_THRESHOLD + 1))) w1)))
        as H3.
      apply (addsNo_trans C _ _ _ H1 (addsNo_trans C _ _ _ H2 H3) t _ Hin).
      reflexivity.
    + intros Hq w' v Hv. rewrite Heq in Hv.
      apply tryCatch_resolved in Hv. destruct Hv as [Hv | (w4 & e' & Hr & Hv)].
      * apply fundingStage_category in Hv. tauto.
      * exfalso. unfold fundingStage in Hr.
        rewrite (bind_step _ _ _ _ _ (poll_eq _ _ _)) in Hr.
        unfold analyzeWallet_catch in Hv.
        destruct (cancelledAt env (PollFunding index)).
        -- inversion Hr; subst e'. discriminate.
        -- unfold bind, tryCatch, await, log in Hr. rewrite Hq in Hr.
           destruct (analyzeFunding env index (address wallet)) as [? [[|? ?]|]|? ?|];
             discriminate.
  - intros d e Hs. eexists. apply (isFreshWallet_throws _ _ _ _ _ _ Hs).
Qed.

(** X8. The result of the inactivity check is read in a fixed order: the
    category 'No Token' wins over 'No ATA Transaction', which wins over
    [isInactive]; any other category string is ignored; the inactivity age
    is taken from the check only when the wallet is classified
    [Inactive], and [null] otherwise. A [null] result leaves [Normal]. *)
Theorem inactivity_result_order (env : Env) (index : nat) (wallet : Holder)
    (tokenAddress : string) (w : World) (d : N) (r : option InactivityCheck) :
  cancelledAt env (PollInactivity index) = false ->
  checkInactivityPeriod env index (address wallet) tokenAddress = Returns d r ->
  exists c days,
    inactivityStage env index wallet tokenAddress w
    = (tick d (emit (EvCall (CallInactivity index)) (polled env (PollInactivity index) w)),
       Resolved (c, days))
    /\ (r = None -> c = "Normal")
    /\ (forall ic, r = Some ic ->
          (ic_category ic = Some "No Token" -> c = "No Token")
          /\ (ic_category ic = Some "No ATA Transaction" -> c = "No ATA Transaction")
          /\ (ic_category ic <> Some "No Token" ->
              ic_category ic <> Some "No ATA Transaction" ->
              c = (if isInactive ic then "Inactive" else "Normal")))
    /\ (c <> "Inactive" -> days = Null)
    /\ (forall ic, r = Some ic -> c = "Inactive" ->
          days = match ic_daysSinceLastActivity ic with
                 | Some n => Val n
                 | None => Undefined
                 end).
Proof.
  intros Hc Hr.
  exists (fst (inactivityCategory r)), (snd (inactivityCategory r)). split.
  - unfold inactivityStage. apply tryCatch_step.
    rewrite (bind_step _ _ _ _ _ (poll_eq _ _ _)), Hc.
    unfold bind, await. rewrite Hr. unfold ret.
    destruct (inactivityCategory r). reflexivity.
  - assert (forall P Q : Prop, P -> Q -> P /\ Q) as conj' by tauto.
    unfold inactivityCategory, categoryIs.
    destruct r as [ic|]; cbn [fst snd];
      [|repeat apply conj'; intros; congruence].
    destruct (ic_category ic) as [cat|] eqn:Ecat;
      [destruct (String.eqb_spec cat "No Token");
       [|destruct (String.eqb_spec cat "No ATA Transaction")]|];
      try destruct (isInactive ic) eqn:Ei; cbn [fst snd];
      repeat apply conj';
      repeat match goal with
             | |- forall _, _ => intro
             | |- _ /\ _ => apply conj'
             | H : Some _ = Some _ |- _ => injection H as H; subst
             end;
      subst; rewrite ?Ecat, ?Ei in *; try congruence.
Qed.

(** ** The shape of an entry *)

Lemma stringOrNull_shape (x : option string) :
  stringOrNull x = Null \/ exists f, stringOrNull x = Val f /\ f <> "".
Proof.
  destruct x as [[|a s]|]; simpl; [tauto| |tauto].
  right. exists (String a s). split; [reflexivity | discriminate].
Qed.

Lemma objectOrNull_shape {A : Type} (x : option A) :
  objectOrNull x = Null \/ exists g, objectOrNull x = Val g.
Proof.
  destruct x as [a|]; simpl; [right; exists a; reflexivity | tauto].
Qed.

Lemma fundingStage_shape (env : Env) (index : nat) (wallet : Holder) (c : string)
    (days : JsOpt Z) (w w' : World) (v : ClassifiedWallet) :
  fundingStage env index wallet c days w = (w', Resolved v) ->
  exists funder funding,
    v = classified wallet c days funder funding
    /\ (funder = Null \/ exists f, funder = Val f /\ f <> "")
    /\ (funding = Null \/ exists g, funding = Val g).
Proof.
  unfold fundingStage. intros H. resolved H.
  destruct a; [discriminate|]. resolved H.
  destruct a as [v'|].
  - inversion H; subst v'.
    apply tryCatch_resolved in E0. destruct E0 as [E0 | (w2 & e & _ & E0)].
    + resolved E0. destruct a as [[|fundingInfo l]|]; inversion E0; subst.
      eexists _, _. split; [reflexivity|]. split.
      * apply stringOrNull_shape.
      * apply objectOrNull_shape.
    + resolved E0. discriminate.
  - inversion H; subst. exists Null, Null. tauto.
Qed.

Lemma inactivityStage_days (env : Env) (index : nat) (wallet : Holder)
    (tokenAddress : string) (w w' : World) (c : string) (days : JsOpt Z) :
  inactivityStage env index wallet tokenAddress w = (w', Resolved (c, days)) ->
  c <> "Inactive" -> days = Null.
Proof.
  unfold inactivityStage. intros H.
  apply tryCatch_resolved in H. destruct H as [H | (w1 & e & _ & H)].
  - resolved H. destruct a; [discriminate|]. resolved H. inversion H as [[Hw Hc]].
    unfold inactivityCategory in Hc.
    destruct a as [ic|]; [|inversion Hc; reflexivity].
    destruct (categoryIs ic "No Token"); [inversion Hc; reflexivity|].
    destruct (categoryIs ic "No ATA Transaction"); [inversion Hc; reflexivity|].
    destruct (isInactive ic); inversion Hc; [congruence | reflexivity].
  - resolved H. inversion H. reflexivity.
Qed.

Lemma coherent_errorWallet (wallet : Holder) (e : JsError) :
  coherent (errorWallet wallet e).
Proof.
  split; simpl; [|congruence].
  intros _. split; [exists (message e); reflexivity | tauto].
Qed.

Lemma coherent_classified (wallet : Holder) (c : string) (days : JsOpt Z)
    (funder : JsOpt string) (funding : JsOpt FundingDetails) :
  c <> "Error" ->
  (c <> "Inactive" -> days = Null) ->
  (funder = Null \/ exists f, funder = Val f /\ f <> "") ->
  (funding = Null \/ exists g, funding = Val g) ->
  coherent (classified wallet c days funder funding).
Proof.
  intros Hc Hd Hf Hg. split; simpl; [congruence|]. intros _. tauto.
Qed.

Lemma analyzeWallet_coherent (env : Env) (index : nat) (wallet : Holder)
    (tokenAddress : string) (w w' : World) (v : ClassifiedWallet) :
  analyzeWallet env index wallet tokenAddress w = (w', Resolved v) -> coherent v.
Proof.
  unfold analyzeWallet. intros H. resolved H. destruct a; [discriminate|].
  apply tryCatch_resolved in H. destruct H as [H | (w1 & e & _ & H)].
  - unfold analyzeWallet_try in H. resolved H. destruct a.
    + inversion H. apply coherent_classified; try tauto; discriminate.
    + unfold detailedAnalysis in H. resolved H.
      match type of H with
      | (let '(_, _) := ?p in _) _ = _ => destruct p as [c days]
      end.
      apply fundingStage_shape in H. destruct H as (funder & funding & -> & Hf & Hg).
      match goal with
      | E : (if ?b then _ else _) _ = _ |- _ => destruct b
      end.
      * match goal with E : ret _ _ = _ |- _ => inversion E end.
        apply coherent_classified; try tauto; discriminate.
      * match goal with
        | E : inactivityStage _ _ _ _ _ = _ |- _ =>
            pose proof (inactivityStage_category _ _ _ _ _ _ _ _ E) as Hin;
            pose proof (inactivityStage_days _ _ _ _ _ _ _ _ E) as Hdays
        end.
        apply coherent_classified; try assumption.
        simpl in Hin. intros ->.
        destruct Hin as [Hin | [Hin | [Hin | [Hin | []]]]]; discriminate Hin.
  - unfold analyzeWallet_catch in H. destruct (includes (message e) "cancelled").
    + discriminate.
    + resolved H. inversion H. apply coherent_errorWallet.
Qed.

Lemma batches_Forall (P : ClassifiedWallet -> Prop) (env : Env) (wallets : list Holder)
    (tokenAddress : string) :
  (forall wallet index w w' v,
      analyzeWalletWithTimeout env wallets tokenAddress wallet index w = (w', Resolved v) ->
      P v) ->
  forall (fuel i : nat) (acc : list ClassifiedWallet) (w w' : World)
         (out : list ClassifiedWallet),
    batches env wallets tokenAddress fuel i acc w = (w', Resolved out) ->
    Forall P acc -> Forall P out.
Proof.
  intros HP.
  induction fuel as [|fuel IH]; intros i acc w w' out H Hacc; simpl in H;
    destruct (i <? length wallets)%nat; try discriminate;
    try (inversion H; subst; exact Hacc).
  resolved H. destruct a; [resolved H; discriminate|].
  resolved H. eapply IH; [exact H|].
  apply Forall_app. split; [exact Hacc|].
  match goal with
  | E : promiseAll ?ms _ = (_, Resolved ?l) |- _ =>
      apply (promiseAll_resolved (fun _ v => P v)) in E
  end.
  - match goal with
    | E : Forall2 _ _ ?l |- Forall _ ?l =>
        clear - E; induction E; constructor; assumption
    end.
  - intros m ? ? v Hin Hv. destruct (In_mapFrom _ _ _ _ Hin) as (x & j & ->).
    eapply HP. exact Hv.
Qed.

Lemma analyzeWalletWithTimeout_coherent (env : Env) (wallets : list Holder)
    (tokenAddress : string) (wallet : Holder) (index : nat) (w w' : World)
    (v : ClassifiedWallet) :
  analyzeWalletWithTimeout env wallets tokenAddress wallet index w = (w', Resolved v) ->
  coherent v.
Proof.
  unfold analyzeWalletWithTimeout. intros H. resolved H. destruct a; [discriminate|].
  resolved H. apply tryCatch_resolved in H. destruct H as [H | (w2 & e & _ & H)].
  - apply race_resolved in H. eapply analyzeWallet_coherent. exact H.
  - resolved H. inversion H. apply coherent_errorWallet.
Qed.

(** X9. Every entry the scheduler returns is coherent: an entry with
    category [Error] has a message and no inactivity age nor funder
    fields; any other entry has no message, funder fields that are [null]
    or set (never [undefined], never an empty address), and an inactivity
    age other than [null] only when its category is [Inactive]. *)
Theorem entries_coherent (env : Env) (wallets : list Holder) (tokenAddress : string)
    (w w' : World) (analyzedWallets : list ClassifiedWallet) :
  analyzeWalletsWithTimeout env wallets tokenAddress w = (w', Resolved analyzedWallets) ->
  forall v, In v analyzedWallets -> coherent v.
Proof.
  unfold analyzeWalletsWithTimeout. intros H. resolved H. inversion H; subst.
  match goal with
  | E : batches _ _ _ _ _ _ _ = _ |- _ =>
      apply (batches_Forall coherent) in E;
        [rename E into Hall
        |intros; eapply analyzeWalletWithTimeout_coherent; eassumption
        |constructor]
  end.
  intros v Hin. rewrite List.Forall_forall in Hall. apply Hall. exact Hin.
Qed.

(** X10. The funding analysis only annotates: when it is reached with a
    category, the wallet returned keeps that category and inactivity age.
    The funder fields come from the first entry of the result alone; a
    missing result, an empty one, or (with a logger that reports it
    without throwing) a funding analysis that throws all give [null]
    funder fields, and the classification is not failed. *)
Theorem funding_only_annotates (env : Env) (index : nat) (wallet : Holder) (c : string)
    (days : JsOpt Z) (w : World) :
  cancelledAt env (PollFunding index) = false ->
  let w1 := emit (EvCall (CallFunding index)) (polled env (PollFunding index) w) in
  (forall d first others,
      analyzeFunding env index (address wallet) = Returns d (Some (first :: others)) ->
      fundingStage env index wallet c days w
      = (tick d w1,
         Resolved (classified wallet c days
                     (stringOrNull (optional fi_funderAddress first))
                     (objectOrNull (optional fi_fundingDetails first)))))
  /\ (forall d r,
         analyzeFunding env index (address wallet) = Returns d r ->
         r = None \/ r = Some [] ->
         fundingStage env index wallet c days w
         = (tick d w1, Resolved (classified wallet c days Null Null)))
  /\ (forall d e,
         analyzeFunding env index (address wallet) = Throws d e ->
         logger env (LogAt 365 index) = None ->
         fundingStage env index wallet c days w
         = (emit (EvLog (LogAt 365 index)) (tick d w1),
            Resolved (classified wallet c days Null Null))).
Proof.
  intros Hc w1. subst w1. unfold fundingStage.
  rewrite (bind_step _ _ _ _ _ (poll_eq _ _ _)), Hc.
  fold (polled env (PollFunding index) w).
  repeat split.
  - intros d first others Hr. unfold bind, tryCatch, await. rewrite Hr. reflexivity.
  - intros d r Hr [-> | ->]; unfold bind, tryCatch, await; rewrite Hr; reflexivity.
  - intros d e Hr Hl. unfold bind, tryCatch, await, log. rewrite Hr, Hl. reflexivity.
Qed.

(** ** How long the scheduler takes *)

Lemma within_le {A : Type} (d d' : N) (m : M A) :
  (d <= d')%N -> within d m -> within d' m.
Proof. intros Hd H w. specialize (H w). lia. Qed.

Lemma within_ret {A : Type} (a : A) (d : N) : within d (ret a).
Proof. intros w. simpl. lia. Qed.

Lemma within_throw {A : Type} (e : JsError) (d : N) : within d (@throw A e).
Proof. intros w. simpl. lia. Qed.

Lemma within_poll (env : Env) (site : PollSite) (d : N) : within d (poll env site).
Proof. intros w. unfold poll. destruct (cancellationToken env); simpl; lia. Qed.

Lemma within_log (env : Env) (l : LogSite) (d : N) : within d (log env l).
Proof. intros w. unfold log. destruct (logger env l); simpl; lia. Qed.

Lemma within_sleep (d : N) : within d (sleep d).
Proof. intros w. simpl. lia. Qed.

Lemma within_bind {A B : Type} (d1 d2 : N) (m : M A) (k : A -> M B) :
  within d1 m -> (forall a, within d2 (k a)) -> within (d1 + d2) (bind m k).
Proof.
  intros Hm Hk w. unfold bind. specialize (Hm w).
  destruct (m w) as [w1 [a|e|]]; simpl in *; try lia.
  specialize (Hk a w1). lia.
Qed.

Lemma within_tryCatch {A : Type} (d1 d2 : N) (m : M A) (h : JsError -> M A) :
  within d1 m -> (forall e, within d2 (h e)) -> within (d1 + d2) (tryCatch m h).
Proof.
  intros Hm Hh w. unfold tryCatch. specialize (Hm w).
  destruct (m w) as [w1 [a|e|]]; simpl in *; try lia.
  specialize (Hh e w1). lia.
Qed.

Lemma within_race {A : Type} (m : M A) (d : N) (e : JsError) : within d (race m d e).
Proof.
  intros w. unfold race. destruct (m w) as [w1 o].
  destruct o; try (destruct (N.leb_spec (now w1) (now w + d))); simpl; lia.
Qed.

Lemma within_analyzeWalletWithTimeout (env : Env) (wallets : list Holder)
    (tokenAddress : string) (wallet : Holder) (index : nat) :
  within WALLET_ANALYSIS_TIMEOUT
    (analyzeWalletWithTimeout env wallets tokenAddress wallet index).
Proof.
  unfold analyzeWalletWithTimeout.
  apply (within_le (0 + (0 + (WALLET_ANALYSIS_TIMEOUT + 0)))); [lia|].
  apply within_bind; [apply within_poll|].
  intros [|]; [apply within_throw|].
  apply within_bind.
  - intros w. unfold bind, readLastProgressLog, writeLastProgressLog, log.
    destruct (_ <=? _)%nat; [destruct (logger env _)|]; simpl; lia.
  - intro. apply within_tryCatch; [apply within_race|].
    intro. apply (within_le (0 + 0)); [lia|].
    apply within_bind; [apply within_log | intro; apply within_ret].
Qed.

Lemma startAll_within {A : Type} (d : N) (ms : list (M A)) :
  (forall m, In m ms -> within d m) ->
  forall (s : N) (w : World),
    Forall (fun p => (fst p <= s + d)%N) (snd (startAll s ms w)).
Proof.
  induction ms as [|m ms IH]; intros Hms s w; simpl; [constructor|].
  pose proof (Hms m (or_introl eq_refl)
                {| now := s; trace := trace w; lastProgressLog := lastProgressLog w |})
    as Hm.
  destruct (m {| now := s; trace := trace w; lastProgressLog := lastProgressLog w |})
    as [w1 o].
  specialize (IH (fun m' H => Hms m' (or_intror H)) s w1).
  destruct (startAll s ms w1) as [w2 os]. simpl in *.
  constructor; [exact Hm | exact IH].
Qed.

Lemma firstRejection_bound {A : Type} (b : N) (os : list (N * Outcome A)) (t : N)
    (e : JsError) :
  Forall (fun p => (fst p <= b)%N) os -> firstRejection os = Some (t, e) -> (t <= b)%N.
Proof.
  induction 1 as [|[t0 o] os Hp Hos IH]; simpl; [discriminate|].
  destruct o as [a|e0|]; try exact IH.
  destruct (firstRejection os) as [[t' e']|].
  - destruct (t' <? t0)%N; intros H; inversion H; subst; [apply IH; reflexivity|].
    exact Hp.
  - intros H. inversion H; subst. exact Hp.
Qed.

Lemma allResolved_bound {A : Type} (b s : N) (os : list (N * Outcome A)) (t : N)
    (l : list A) :
  (s <= b)%N ->
  Forall (fun p => (fst p <= b)%N) os -> allResolved s os = Some (t, l) -> (t <= b)%N.
Proof.
  intros Hs Hos. revert t l.
  induction Hos as [|[t0 o] os Hp Hos IH]; simpl; intros t l H.
  - inversion H; subst. exact Hs.
  - destruct o as [a|e0|]; try discriminate.
    destruct (allResolved s os) as [[t' l']|]; [|discriminate].
    inversion H; subst. specialize (IH t' l' eq_refl). simpl in Hp. lia.
Qed.

Lemma within_promiseAll {A : Type} (d : N) (ms : list (M A)) :
  (forall m, In m ms -> within d m) -> within d (promiseAll ms).
Proof.
  intros Hms w. unfold promiseAll.
  pose proof (startAll_within d ms Hms (now w) w) as Hos.
  destruct (startAll (now w) ms w) as [w1 os]. simpl in Hos.
  destruct (firstRejection os) as [[t e]|] eqn:Ef.
  - simpl. eapply firstRejection_bound; [exact Hos | exact Ef].
  - destruct (allResolved (now w) os) as [[t l]|] eqn:Ea; simpl; [|lia].
    eapply (allResolved_bound _ (now w)); [lia | exact Hos | exact Ea].
Qed.

Lemma rounds_step (n : nat) : (0 < n)%nat -> rounds n = S (rounds (n - BATCH_SIZE)).
Proof.
  unfold rounds, BATCH_SIZE. simpl Nat.sub at 1 3. intros Hn.
  destruct (Nat.le_gt_cases 5 n) as [H|H].
  - replace (n + 4)%nat with ((n - 5 + 4) + 1 * 5)%nat by lia.
    rewrite Nat.div_add by discriminate. lia.
  - destruct n as [|[|[|[|[|n]]]]]; try lia; reflexivity.
Qed.

Lemma worstCase_last (n : nat) :
  (0 < n)%nat -> (n <= BATCH_SIZE)%nat -> worstCase n = WALLET_ANALYSIS_TIMEOUT.
Proof.
  intros H0 H5. unfold worstCase. rewrite (rounds_step n H0).
  replace (n - BATCH_SIZE)%nat with 0%nat by lia. reflexivity.
Qed.

Lemma worstCase_step (n : nat) :
  (BATCH_SIZE < n)%nat ->
  worstCase n
  = (WALLET_ANALYSIS_TIMEOUT + (BATCH_DELAY + worstCase (n - BATCH_SIZE)))%N.
Proof.
  intros H. unfold worstCase.
  rewrite (rounds_step n) by (unfold BATCH_SIZE in H; lia).
  assert (0 < n - BATCH_SIZE)%nat as H' by lia.
  rewrite (rounds_step _ H'). set (r := rounds (n - BATCH_SIZE - BATCH_SIZE)).
  replace (S (S r) - 1)%nat with (S r) by lia.
  replace (S r - 1)%nat with r by lia.
  rewrite !Nat2N.inj_succ. unfold WALLET_ANALYSIS_TIMEOUT, BATCH_DELAY. lia.
Qed.

Lemma within_after {A B : Type} (d : N) (m : M A) (k : A -> M B) :
  within 0 m -> (forall a, within d (k a)) -> within d (bind m k).
Proof.
  intros Hm Hk. apply (within_le (0 + d)); [lia|]. apply within_bind; assumption.
Qed.

Lemma within_batches (env : Env) (wallets : list Holder) (tokenAddress : string)
    (fuel : nat) :
  forall (i : nat) (acc : list ClassifiedWallet),
    within (worstCase (length wallets - i)) (batches env wallets tokenAddress fuel i acc).
Proof.
  induction fuel as [|fuel IH]; intros i acc; simpl;
    destruct (Nat.ltb_spec i (length wallets)) as [Hi|Hi];
    try apply within_ret; [intros w; simpl; lia|].
  assert (within WALLET_ANALYSIS_TIMEOUT
            (promiseAll (mapFrom (analyzeWalletWithTimeout env wallets tokenAddress) i
                           (slice i (i + BATCH_SIZE) wallets)))) as Hp.
  { apply within_promiseAll. intros m Hin.
    destruct (In_mapFrom _ _ _ _ Hin) as (x & j & ->).
    apply within_analyzeWalletWithTimeout. }
  apply within_after; [apply within_poll|].
  intros [|].
  { apply within_after; [apply within_log | intro; apply within_throw]. }
  apply within_after; [apply within_log|]. intros _.
  destruct (Nat.ltb_spec (i + BATCH_SIZE) (length wallets)) as [Hn|Hn].
  - rewrite worstCase_step by lia.
    replace (length wallets - i - BATCH_SIZE)%nat
      with (length wallets - (i + BATCH_SIZE))%nat by lia.
    apply (within_bind WALLET_ANALYSIS_TIMEOUT
             (BATCH_DELAY + worstCase (length wallets - (i + BATCH_SIZE))));
      [exact Hp|].
    intros batchResults.
    apply (within_bind BATCH_DELAY (worstCase (length wallets - (i + BATCH_SIZE))));
      [apply within_sleep|].
    intros _. apply IH.
  - rewrite worstCase_last by lia.
    apply (within_le (WALLET_ANALYSIS_TIMEOUT + 0)); [lia|].
    apply (within_bind WALLET_ANALYSIS_TIMEOUT 0); [exact Hp|].
    intros batchResults. apply within_after; [apply within_ret|]. intros _.
    replace 0%N with (worstCase (length wallets - (i + BATCH_SIZE))); [apply IH|].
    replace (length wallets - (i + BATCH_SIZE))%nat with 0%nat by lia.
    reflexivity.
Qed.

(** ** The scheduler always settles *)

Lemma settling_ret {A : Type} (a : A) : settling (ret a).
Proof. intros w. discriminate. Qed.

Lemma settling_throw {A : Type} (e : JsError) : settling (@throw A e).
Proof. intros w. discriminate. Qed.

Lemma settling_poll (env : Env) (site : PollSite) : settling (poll env site).
Proof. intros w. unfold poll. destruct (cancellationToken env); discriminate. Qed.

Lemma settling_log (env : Env) (l : LogSite) : settling (log env l).
Proof. intros w. unfold log. destruct (logger env l); discriminate. Qed.

Lemma settling_bind {A B : Type} (m : M A) (k : A -> M B) :
  settling m -> (forall a, settling (k a)) -> settling (bind m k).
Proof.
  intros Hm Hk w. unfold bind. specialize (Hm w).
  destruct (m w) as [w1 [a|e|]]; simpl in *; [apply Hk | discriminate | congruence].
Qed.

Lemma settling_tryCatch {A : Type} (m : M A) (h : JsError -> M A) :
  settling m -> (forall e, settling (h e)) -> settling (tryCatch m h).
Proof.
  intros Hm Hh w. unfold tryCatch. specialize (Hm w).
  destruct (m w) as [w1 [a|e|]]; simpl in *; [discriminate | apply Hh | congruence].
Qed.

(** The timer settles the race, whatever the computation does. *)
Lemma settling_race {A : Type} (m : M A) (d : N) (e : JsError) : settling (race m d e).
Proof.
  intros w. unfold race. destruct (m w) as [w1 [a|e'|]];
    try destruct (now w1 <=? now w + d)%N; discriminate.
Qed.

Lemma settling_analyzeWalletWithTimeout (env : Env) (wallets : list Holder)
    (tokenAddress : string) (wallet : Holder) (index : nat) :
  settling (analyzeWalletWithTimeout env wallets tokenAddress wallet index).
Proof.
  unfold analyzeWalletWithTimeout.
  apply settling_bind; [apply settling_poll|].
  intros [|]; [apply settling_throw|].
  apply settling_bind.
  - apply settling_bind; [intros w; discriminate|]. intros last.
    destruct (_ <=? _)%nat; [|apply settling_ret].
    apply settling_bind; [apply settling_log | intros _ w; discriminate].
  - intros _. apply settling_tryCatch; [apply settling_race|].
    intros e. apply settling_bind; [apply settling_log | intro; apply settling_ret].
Qed.

Lemma startAll_settling {A : Type} (ms : list (M A)) :
  (forall m, In m ms -> settling m) ->
  forall (s : N) (w : World) (t : N) (o : Outcome A),
    In (t, o) (snd (startAll s ms w)) -> o <> Pending.
Proof.
  induction ms as [|m ms IH]; intros Hms s w t o; simpl; [intros []|].
  pose proof (Hms m (or_introl eq_refl)
                {| now := s; trace := trace w; lastProgressLog := lastProgressLog w |})
    as Hm.
  destruct (m {| now := s; trace := trace w; lastProgressLog := lastProgressLog w |})
    as [w1 o1].
  specialize (IH (fun m' H => Hms m' (or_intror H)) s w1 t o).
  destruct (startAll s ms w1) as [w2 os]. simpl in *.
  intros [H | H]; [inversion H; subst; exact Hm | exact (IH H)].
Qed.

Lemma settling_promiseAll {A : Type} (ms : list (M A)) :
  (forall m, In m ms -> settling m) -> settling (promiseAll ms).
Proof.
  intros Hms w. unfold promiseAll.
  pose proof (startAll_settling ms Hms (now w) w) as Hos.
  destruct (startAll (now w) ms w) as [w1 os]. simpl in Hos.
  destruct (firstRejection os) as [[t e]|] eqn:Er; [discriminate|].
  destruct (allResolved_Some (now w) os) as (t & l & ->); [|discriminate].
  intros t o Hin. specialize (Hos t o Hin).
  destruct o as [a|e|]; [exists a; reflexivity | | contradiction].
  exfalso. eapply firstRejection_None; eassumption.
Qed.

Lemma settling_batches (env : Env) (wallets : list Holder) (tokenAddress : string)
    (fuel : nat) :
  forall (i : nat) (acc : list ClassifiedWallet),
    (length wallets <= i + fuel)%nat ->
    settling (batches env wallets tokenAddress fuel i acc).
Proof.
  induction fuel as [|fuel IH]; intros i acc Hfuel; simpl;
    destruct (Nat.ltb_spec i (length wallets)); try lia; try apply settling_ret.
  apply settling_bind; [apply settling_poll|].
  intros [|].
  { apply settling_bind; [apply settling_log | intro; apply settling_throw]. }
  apply settling_bind; [apply settling_log|]. intros _.
  apply settling_bind.
  { apply settling_promiseAll. intros m Hin.
    destruct (In_mapFrom _ _ _ _ Hin) as (x & j & ->).
    apply settling_analyzeWalletWithTimeout. }
  intros batchResults. apply settling_bind.
  - destruct (_ <? _)%nat; intros w; discriminate.
  - intros _. apply IH. unfold BATCH_SIZE. lia.
Qed.

Lemma settling_analyzeWalletsWithTimeout (env : Env) (wallets : list Holder)
    (tokenAddress : string) :
  settling (analyzeWalletsWithTimeout env wallets tokenAddress).
Proof.
  unfold analyzeWalletsWithTimeout.
  apply settling_bind; [intros w; discriminate|]. intros _.
  apply settling_bind; [apply settling_batches; lia|]. intros analyzedWallets.
  apply settling_bind; [apply settling_log | intro; apply settling_ret].
Qed.

(** X11. Whatever the collaborators do (answer late, throw, never
    answer), whatever the token and the logger do, the scheduler settles,
    and it has settled, for [n] wallets, no later than [ceil(n/5) * 30000
    + (ceil(n/5) - 1) * 200] milliseconds after it started: each round of
    at most five wallets is cut at the timeout, and two rounds are 200 ms
    apart. *)
Theorem scheduler_time_bound (env : Env) (wallets : list Holder) (tokenAddress : string)
    (w : World) :
  ((exists analyzedWallets,
       snd (analyzeWalletsWithTimeout env wallets tokenAddress w) = Resolved analyzedWallets)
   \/ exists e, snd (analyzeWalletsWithTimeout env wallets tokenAddress w) = Rejected e)
  /\ (now (fst (analyzeWalletsWithTimeout env wallets tokenAddress w))
      <= now w + worstCase (length wallets))%N.
Proof.
  split.
  - pose proof (settling_analyzeWalletsWithTimeout env wallets tokenAddress w) as Hs.
    destruct (snd (analyzeWalletsWithTimeout env wallets tokenAddress w)) as [l|e|].
    + left. exists l. reflexivity.
    + right. exists e. reflexivity.
    + contradiction.
  - revert w. fold (within (worstCase (length wallets))
                      (analyzeWalletsWithTimeout env wallets tokenAddress)).
    unfold analyzeWalletsWithTimeout.
    apply within_after; [intros w; simpl; lia|]. intros _.
    apply (within_le (worstCase (length wallets - 0) + 0)).
    { rewrite Nat.sub_0_r. lia. }
    apply (within_bind (worstCase (length wallets - 0)) 0); [apply within_batches|].
    intros analyzedWallets.
    apply within_after; [apply within_log | intro; apply within_ret].
Qed.

(** ** How many calls a run makes *)

Lemma calls_app (l l' : list (N * Event)) : calls (l ++ l') = (calls l + calls l')%nat.
Proof. unfold calls. rewrite List.filter_app, length_app. reflexivity. Qed.

Lemma calls_filter (f : N * Event -> bool) (l : list (N * Event)) :
  (calls (List.filter f l) <= calls l)%nat.
Proof.
  unfold calls. induction l as [|x l IH]; simpl; [lia|].
  destruct (f x); simpl; destruct (isCall x); simpl; lia.
Qed.

Lemma skipn_length_app {A : Type} (l l' : list A) : skipn (length l) (l ++ l') = l'.
Proof. induction l as [|x l IH]; simpl; [reflexivity | exact IH]. Qed.

Lemma spends_le {A : Type} (k k' : nat) (m : M A) :
  (k <= k')%nat -> spends k m -> spends k' m.
Proof.
  intros Hk H w. destruct (H w) as (new & Hn & Hc). exists new. split; [exact Hn | lia].
Qed.

Lemma spends_nothing {A : Type} (m : M A) :
  (forall w, trace (fst (m w)) = trace w) -> spends 0 m.
Proof. intros H w. exists []. rewrite app_nil_r. split; [apply H | reflexivity]. Qed.

Lemma spends_ret {A : Type} (a : A) : spends 0 (ret a).
Proof. apply spends_nothing. reflexivity. Qed.

Lemma spends_throw {A : Type} (e : JsError) : spends 0 (@throw A e).
Proof. apply spends_nothing. reflexivity. Qed.

Lemma spends_sleep (d : N) : spends 0 (sleep d).
Proof. apply spends_nothing. reflexivity. Qed.

Lemma spends_poll (env : Env) (site : PollSite) : spends 0 (poll env site).
Proof.
  intros w. unfold poll. destruct (cancellationToken env) as [isCancelled|]; simpl.
  - eexists. split; reflexivity.
  - exists []. rewrite app_nil_r. split; reflexivity.
Qed.

Lemma spends_log (env : Env) (l : LogSite) : spends 0 (log env l).
Proof.
  intros w. unfold log. destruct (logger env l); simpl; eexists; split; reflexivity.
Qed.

Lemma spends_await {A : Type} (c : Call) (r : Reply A) : spends 1 (await c r).
Proof.
  intros w. unfold await. destruct r; simpl; eexists; split; reflexivity.
Qed.

Lemma spends_bind {A B : Type} (k1 k2 : nat) (m : M A) (k : A -> M B) :
  spends k1 m -> (forall a, spends k2 (k a)) -> spends (k1 + k2) (bind m k).
Proof.
  intros Hm Hk w. unfold bind. destruct (Hm w) as (new & Hn & Hc).
  destruct (m w) as [w1 [a|e|]]; simpl in *;
    try (exists new; split; [exact Hn | lia]).
  destruct (Hk a w1) as (new' & Hn' & Hc'). exists (new ++ new')%list.
  rewrite Hn', Hn, app_assoc, calls_app. split; [reflexivity | lia].
Qed.

Lemma spends_after {A B : Type} (k2 : nat) (m : M A) (k : A -> M B) :
  spends 0 m -> (forall a, spends k2 (k a)) -> spends k2 (bind m k).
Proof. intros Hm Hk. apply (spends_bind 0 k2); assumption. Qed.

Lemma spends_tryCatch {A : Type} (k1 k2 : nat) (m : M A) (h : JsError -> M A) :
  spends k1 m -> (forall e, spends k2 (h e)) -> spends (k1 + k2) (tryCatch m h).
Proof.
  intros Hm Hh w. unfold tryCatch. destruct (Hm w) as (new & Hn & Hc).
  destruct (m w) as [w1 [a|e|]]; simpl in *;
    try (exists new; split; [exact Hn | lia]).
  destruct (Hh e w1) as (new' & Hn' & Hc'). exists (new ++ new')%list.
  rewrite Hn', Hn, app_assoc, calls_app. split; [reflexivity | lia].
Qed.

Lemma spends_race {A : Type} (k : nat) (m : M A) (d : N) (e : JsError) :
  spends k m -> spends k (race m d e).
Proof.
  intros Hm w. unfold race. destruct (Hm w) as (new & Hn & Hc).
  destruct (m w) as [w1 o]. simpl in Hn.
  assert (exists new',
             (trace w ++
              List.filter (fun ev => (fst ev <=? now w + d)%N)
                (skipn (length (trace w)) (trace w1)))%list
             = (trace w ++ new')%list /\ (calls new' <= k)%nat) as Hcut.
  { eexists. split; [reflexivity|]. rewrite Hn, skipn_length_app.
    pose proof (calls_filter (fun ev => (fst ev <=? now w + d)%N) new). lia. }
  destruct o; try destruct (now w1 <=? now w + d)%N; simpl;
    solve [exact Hcut | exists new; split; [exact Hn | exact Hc]].
Qed.

Lemma startAll_spends {A : Type} (k : nat) (ms : list (M A)) :
  (forall m, In m ms -> spends k m) ->
  forall (s : N) (w : World),
  exists new,
    trace (fst (startAll s ms w)) = (trace w ++ new)%list
    /\ (calls new <= k * length ms)%nat.
Proof.
  induction ms as [|m ms IH]; intros Hms s w; simpl.
  - exists []. rewrite app_nil_r. split; [reflexivity | unfold calls; simpl; lia].
  - destruct (Hms m (or_introl eq_refl)
                {| now := s; trace := trace w; lastProgressLog := lastProgressLog w |})
      as (new & Hn & Hc).
    destruct (m {| now := s; trace := trace w; lastProgressLog := lastProgressLog w |})
      as [w1 o].
    destruct (IH (fun m' H => Hms m' (or_intror H)) s w1) as (new' & Hn' & Hc').
    destruct (startAll s ms w1) as [w2 os]. simpl in *.
    exists (new ++ new')%list. rewrite Hn', Hn, app_assoc, calls_app.
    split; [reflexivity | lia].
Qed.

Lemma spends_promiseAll {A : Type} (k : nat) (ms : list (M A)) :
  (forall m, In m ms -> spends k m) -> spends (k * length ms) (promiseAll ms).
Proof.
  intros Hms w. unfold promiseAll.
  destruct (startAll_spends k ms Hms (now w) w) as (new & Hn & Hc).
  destruct (startAll (now w) ms w) as [w1 os]. simpl in Hn.
  exists new.
  destruct (firstRejection os) as [[t e]|]; [|destruct (allResolved (now w) os) as [[t l]|]];
    simpl; split; assumption.
Qed.

Lemma length_mapFrom {A B : Type} (f : A -> nat -> B) (l : list A) (i : nat) :
  length (mapFrom f i l) = length l.
Proof. revert i. induction l as [|x l IH]; intros i; simpl; [|rewrite IH]; reflexivity. Qed.

Lemma length_slice {A : Type} (i n : nat) (l : list A) :
  length (slice i (i + n) l) = Nat.min n (length l - i).
Proof.
  unfold slice. rewrite length_firstn, length_skipn. f_equal. lia.
Qed.

Lemma spends_analyzeWallet (env : Env) (index : nat) (wallet : Holder)
    (tokenAddress : string) :
  spends 4 (analyzeWallet env index wallet tokenAddress).
Proof.
  unfold analyzeWallet. apply spends_after; [apply spends_poll|].
  intros [|]; [apply (spends_le 0); [lia | apply spends_throw]|].
  apply (spends_tryCatch 4 0).
  - unfold analyzeWallet_try. apply (spends_bind 1 3).
    + unfold hasExcessiveTransactions. apply (spends_tryCatch 1 0).
      * apply (spends_bind 1 0); [apply spends_await | intro; apply spends_ret].
      * intro. apply spends_ret.
    + intros [|]; [apply (spends_le 0); [lia | apply spends_ret]|].
      unfold detailedAnalysis. apply (spends_bind 1 2).
      * unfold isFreshWallet. apply (spends_tryCatch 1 0).
        -- apply (spends_bind 1 0); [apply spends_await | intro; apply spends_ret].
        -- intro. apply spends_ret.
      * intros isFresh. apply (spends_bind 1 1).
        -- destruct isFresh; [apply (spends_le 0); [lia | apply spends_ret]|].
           unfold inactivityStage. apply (spends_tryCatch 1 0).
           ++ apply spends_after; [apply spends_poll|].
              intros [|]; [apply (spends_le 0); [lia | apply spends_throw]|].
              apply (spends_bind 1 0); [apply spends_await | intro; apply spends_ret].
           ++ intros e. apply spends_after; [|intro; apply spends_ret].
              destruct (worthLogging e); [apply spends_log | apply spends_ret].
        -- intros [c days]. unfold fundingStage.
           apply spends_after; [apply spends_poll|].
           intros [|]; [apply (spends_le 0); [lia | apply spends_throw]|].
           apply (spends_bind 1 0).
           ++ apply (spends_tryCatch 1 0).
              ** apply (spends_bind 1 0); [apply spends_await|].
                 intros [[|? ?]|]; apply spends_ret.
              ** intro. apply spends_after; [apply spends_log | intro; apply spends_ret].
           ++ intros [?|]; apply spends_ret.
  - intros e. unfold analyzeWallet_catch.
    destruct (includes (message e) "cancelled"); [apply spends_throw|].
    apply spends_after; [apply spends_log | intro; apply spends_ret].
Qed.

Lemma spends_analyzeWalletWithTimeout (env : Env) (wallets : list Holder)
    (tokenAddress : string) (wallet : Holder) (index : nat) :
  spends 4 (analyzeWalletWithTimeout env wallets tokenAddress wallet index).
Proof.
  unfold analyzeWalletWithTimeout. apply spends_after; [apply spends_poll|].
  intros [|]; [apply (spends_le 0); [lia | apply spends_throw]|].
  apply spends_after.
  - apply spends_after; [apply spends_nothing; reflexivity|]. intros last.
    destruct (_ <=? _)%nat; [|apply spends_ret].
    apply spends_after; [apply spends_log|]. intros _.
    apply spends_nothing. reflexivity.
  - intros _. apply (spends_tryCatch 4 0).
    + apply spends_race. apply spends_analyzeWallet.
    + intro. apply spends_after; [apply spends_log | intro; apply spends_ret].
Qed.

Lemma spends_batches (env : Env) (wallets : list Holder) (tokenAddress : string)
    (fuel : nat) :
  forall (i : nat) (acc : list ClassifiedWallet),
    spends (4 * (length wallets - i)) (batches env wallets tokenAddress fuel i acc).
Proof.
  induction fuel as [|fuel IH]; intros i acc; simpl;
    destruct (Nat.ltb_spec i (length wallets)) as [Hi|Hi];
    try (apply (spends_le 0); [lia | apply spends_ret]).
  { apply (spends_le 0); [lia|]. apply spends_nothing. reflexivity. }
  apply spends_after; [apply spends_poll|].
  intros [|].
  { apply (spends_le 0); [lia|].
    apply spends_after; [apply spends_log | intro; apply spends_throw]. }
  apply spends_after; [apply spends_log|]. intros _.
  apply (spends_le (4 * Nat.min BATCH_SIZE (length wallets - i)
                    + 4 * (length wallets - (i + BATCH_SIZE)))); [lia|].
  apply spends_bind.
  - rewrite <- (length_slice i BATCH_SIZE wallets), <- (length_mapFrom
      (analyzeWalletWithTimeout env wallets tokenAddress)
      (slice i (i + BATCH_SIZE) wallets) i).
    apply spends_promiseAll. intros m Hin.
    destruct (In_mapFrom _ _ _ _ Hin) as (x & j & ->).
    apply spends_analyzeWalletWithTimeout.
  - intros batchResults. apply spends_after; [|intros _; apply IH].
    destruct (_ <? _)%nat; [apply spends_sleep | apply spends_ret].
Qed.

Lemma spends_analyzeWalletsWithTimeout (env : Env) (wallets : list Holder)
    (tokenAddress : string) :
  spends (4 * length wallets) (analyzeWalletsWithTimeout env wallets tokenAddress).
Proof.
  unfold analyzeWalletsWithTimeout.
  apply spends_after; [apply spends_nothing; reflexivity|]. intros _.
  apply (spends_le (4 * (length wallets - 0) + 0)); [lia|].
  apply spends_bind; [apply spends_batches|].
  intros analyzedWallets.
  apply spends_after; [apply spends_log | intro; apply spends_ret].
Qed.

Lemma spends_await_then {A B : Type} (k2 : nat) (c : Call) (r : Reply A) (k : A -> M B) :
  (forall d a, r = Returns d a -> spends k2 (k a)) ->
  spends (1 + k2) (bind (await c r) k).
Proof.
  intros Hk w. unfold bind, await. destruct r as [d a|d e|]; simpl.
  - destruct (Hk d a eq_refl (tick d (emit (EvCall c) w))) as (new & Hn & Hc).
    exists ((now w, EvCall c) :: new). rewrite Hn. simpl trace.
    rewrite <- app_assoc. split; [reflexivity|]. unfold calls in *. simpl. lia.
  - exists [(now w, EvCall c)]. split; [reflexivity|]. unfold calls. simpl. lia.
  - exists [(now w, EvCall c)]. split; [reflexivity|]. unfold calls. simpl. lia.
Qed.

Lemma spends_checkCancellation (env : Env) (s : Step) : spends 0 (checkCancellation env s).
Proof.
  unfold checkCancellation. apply spends_after; [apply spends_poll|].
  intros [|]; [|apply spends_ret].
  apply spends_after; [apply spends_log | intro; apply spends_throw].
Qed.

Lemma spends_aggregate (env : Env) (tokenAddress : string) (tokenInfo : TokenInfo)
    (analyzedWallets : list ClassifiedWallet) :
  spends 0 (aggregate env tokenAddress tokenInfo analyzedWallets).
Proof.
  unfold aggregate.
  repeat (apply spends_after;
          [first [apply spends_log | apply spends_checkCancellation] | intros _]).
  apply spends_ret.
Qed.

Lemma spends_analyzeTeamSupply (env : Env) (tokenAddress : string) :
  spends (2 + 4 * length (holdersReturned env tokenAddress))
         (analyzeTeamSupply env tokenAddress).
Proof.
  unfold analyzeTeamSupply. apply spends_after; [apply spends_log|]. intros _.
  apply (spends_le (2 + 4 * length (holdersReturned env tokenAddress) + 0)); [lia|].
  apply spends_tryCatch.
  - unfold analyzeTeamSupply_try.
    apply spends_after; [apply spends_checkCancellation|]. intros _.
    apply spends_after; [apply spends_log|]. intros _.
    apply (spends_bind 1 (1 + 4 * length (holdersReturned env tokenAddress)));
      [apply spends_await|].
    intros [assetInfo|]; [|apply (spends_le 0); [lia | apply spends_throw]].
    apply spends_after; [apply spends_log|]. intros _.
    apply spends_after; [apply spends_checkCancellation|]. intros _.
    apply spends_after; [apply spends_log|]. intros _.
    apply spends_await_then. intros d allHolders Hr.
    unfold holdersReturned. rewrite Hr.
    apply spends_after; [apply spends_log|]. intros _.
    apply spends_after; [apply spends_checkCancellation|]. intros _.
    apply spends_after; [apply spends_log|]. intros _.
    apply spends_after; [apply spends_checkCancellation|]. intros _.
    apply spends_after; [apply spends_log|]. intros _.
    match goal with
    | |- spends _ (bind (analyzeWalletsWithTimeout _ ?ws _) _) =>
        apply (spends_le (4 * length ws + 0));
          [pose proof (List.filter_length_le
                         (isSignificant
                            {| total_supply := supply_total assetInfo;
                               ti_symbol := symbol assetInfo;
                               ti_name := name assetInfo;
                               ti_decimals := decimals assetInfo;
                               ti_address := tokenAddress |}) allHolders); lia|]
    end.
    apply spends_bind; [apply spends_analyzeWalletsWithTimeout|].
    intros analyzedWallets. apply spends_aggregate.
  - intros e. unfold analyzeTeamSupply_catch.
    apply spends_after; [apply spends_poll|].
    intros [|]; (apply spends_after; [apply spends_log | intro; apply spends_throw]).
Qed.

(** X12. A run only adds to its record, and what it adds holds a bounded
    number of calls to collaborators, whatever they answer: the scheduler
    makes at most four per wallet (two signature lookups, one inactivity
    check, one funding analysis), and [analyzeTeamSupply] at most two more
    than four times the number of holders [getHolders] returned. *)
Theorem call_budget (env : Env) (tokenAddress : string) (w : World) :
  (forall wallets,
      exists new,
        trace (fst (analyzeWalletsWithTimeout env wallets tokenAddress w))
        = (trace w ++ new)%list
        /\ (calls new <= 4 * length wallets)%nat)
  /\ exists new,
       trace (fst (analyzeTeamSupply env tokenAddress w)) = (trace w ++ new)%list
       /\ (calls new <= 2 + 4 * length (holdersReturned env tokenAddress))%nat.
Proof.
  split.
  - intros wallets. apply spends_analyzeWalletsWithTimeout.
  - apply spends_analyzeTeamSupply.
Qed.

(** ** Where the result comes from *)

Lemma await_resolved {A : Type} (c : Call) (r : Reply A) (w w' : World) (a : A) :
  await c r w = (w', Resolved a) -> exists d, r = Returns d a.
Proof.
  unfold await. destruct r as [d a'|d e|]; intros H; inversion H.
  exists d. reflexivity.
Qed.

Lemma analyzeWalletsWithTimeout_spread (env : Env) (wallets : list Holder)
    (tokenAddress : string) (w w' : World) (analyzedWallets : list ClassifiedWallet) :
  analyzeWalletsWithTimeout env wallets tokenAddress w = (w', Resolved analyzedWallets) ->
  map spread analyzedWallets = wallets.
Proof.
  unfold analyzeWalletsWithTimeout. intros H. resolved H. inversion H; subst.
  match goal with
  | E : batches _ _ _ _ _ _ _ = _ |- _ => apply batches_spread in E; [exact E | reflexivity]
  end.
Qed.

(** What a successful run returns, and from which answers. *)
Lemma analyzeTeamSupply_provenance (env : Env) (tokenAddress : string) (w w' : World)
    (result : AnalysisResult) :
  analyzeTeamSupply env tokenAddress w = (w', Resolved result) ->
  exists d1 assetInfo d2 allHolders analyzedWallets,
    getAsset env tokenAddress = Returns d1 (Some assetInfo)
    /\ getHolders env tokenAddress = Returns d2 allHolders
    /\ map spread analyzedWallets
       = List.filter (isSignificant (tokenInfoOf tokenAddress assetInfo)) allHolders
    /\ result = resultObject tokenAddress (tokenInfoOf tokenAddress assetInfo)
                  analyzedWallets
                  (teamWalletsOf (tokenInfoOf tokenAddress assetInfo) analyzedWallets)
                  (totalSupplyControlledOf (tokenInfoOf tokenAddress assetInfo)
                     analyzedWallets).
Proof.
  unfold analyzeTeamSupply. intros H. resolved H.
  apply tryCatch_resolved in H. destruct H as [H | (w1 & e & _ & H)].
  2: { exfalso. eapply analyzeTeamSupply_catch_rejects. exact H. }
  unfold analyzeTeamSupply_try in H. resolved H.
  destruct a2 as [assetInfo|]; [|discriminate].
  resolved H. unfold aggregate in H. resolved H. inversion H; subst.
  repeat match goal with
         | E : await _ _ _ = (_, Resolved _) |- _ =>
             apply await_resolved in E; destruct E as (? & E)
         end.
  match goal with
  | E : analyzeWalletsWithTimeout _ _ _ _ = (_, Resolved ?ws) |- _ =>
      apply analyzeWalletsWithTimeout_spread in E;
        eexists _, assetInfo, _, _, ws;
        split; [eassumption|]; split; [eassumption|]; split; [exact E | reflexivity]
  end.
Qed.

Lemma isSignificant_no_pool (tokenInfo : TokenInfo) (h : Holder) :
  isSignificant tokenInfo h = true -> address h ∉ KNOWN_LP_POOLS.
Proof.
  intros H C. apply has_spec in C. unfold isSignificant in H. rewrite C in H.
  discriminate H.
Qed.

Lemma teamWalletsOf_In (tokenInfo : TokenInfo) (analyzedWallets : list ClassifiedWallet)
    (tw : TeamWallet) :
  In tw (teamWalletsOf tokenInfo analyzedWallets) ->
  exists v,
    In v analyzedWallets
    /\ isTeamWalletCategory (category v) = true
    /\ tw_address tw = address (spread v)
    /\ tw_category tw = category v
    /\ tw_funderAddress tw <> Undefined
    /\ tw_fundingDetails tw <> Undefined.
Proof.
  unfold teamWalletsOf. intros H. apply in_map_iff in H. destruct H as (v & <- & Hv).
  apply List.filter_In in Hv. destruct Hv as [Hin Hc].
  exists v. cbn [tw_address tw_category tw_funderAddress tw_fundingDetails].
  repeat split; try assumption.
  - destruct (funderAddress v) as [| |[|? ?]]; discriminate.
  - destruct (fundingDetails v); discriminate.
Qed.

(** X13. What a completed run reports comes from what the collaborators
    answered: the token fields are those of the asset [getAsset] returned;
    the analysed wallets are, in order, the holders [getHolders] returned
    that pass the filter, so each is a returned holder outside
    [KNOWN_LP_POOLS]; and every team wallet is one of the analysed
    wallets, with the same address and category, a team category, and
    funder fields that are [null] or set. *)
Theorem result_provenance (env : Env) (tokenAddress : string) (w w' : World)
    (result : AnalysisResult) :
  analyzeTeamSupply env tokenAddress w = (w', Resolved result) ->
  exists d assetInfo,
    getAsset env tokenAddress = Returns d (Some assetInfo)
    /\ sd_tokenInfo (scanData result)
       = {| st_totalSupply := supply_total assetInfo;
            st_symbol := symbol assetInfo;
            st_name := name assetInfo;
            st_decimals := decimals assetInfo;
            st_address := tokenAddress |}
    /\ map spread (sd_analyzedWallets (scanData result))
       = List.filter (isSignificant (tokenInfoOf tokenAddress assetInfo))
           (holdersReturned env tokenAddress)
    /\ (forall v, In v (sd_analyzedWallets (scanData result)) ->
          In (spread v) (holdersReturned env tokenAddress)
          /\ address (spread v) ∉ KNOWN_LP_POOLS)
    /\ (forall tw, In tw (sd_teamWallets (scanData result)) ->
          exists v,
            In v (sd_analyzedWallets (scanData result))
            /\ isTeamWalletCategory (category v) = true
            /\ tw_address tw = address (spread v)
            /\ tw_category tw = category v
            /\ tw_funderAddress tw <> Undefined
            /\ tw_fundingDetails tw <> Undefined).
Proof.
  intros Hrun.
  destruct (analyzeTeamSupply_provenance _ _ _ _ _ Hrun)
    as (d1 & assetInfo & d2 & allHolders & analyzedWallets & Ha & Hh & Hs & ->).
  exists d1, assetInfo. unfold holdersReturned. rewrite Hh.
  cbn [scanData sd_tokenInfo sd_analyzedWallets sd_teamWallets resultObject].
  split; [exact Ha|]. split; [reflexivity|]. split; [exact Hs|]. split.
  - intros v Hv.
    assert (In (spread v)
              (List.filter (isSignificant (tokenInfoOf tokenAddress assetInfo)) allHolders))
      as Hin by (rewrite <- Hs; apply in_map; exact Hv).
    apply List.filter_In in Hin. destruct Hin as [Hin Hsig].
    split; [exact Hin | eapply isSignificant_no_pool; exact Hsig].
  - intros tw Htw. eapply teamWalletsOf_In. exact Htw.
Qed.

(** ** Degenerate supplies and weights *)

Lemma share_of_nothing (b : Z) :
  BigNumber.isGreaterThanOrEqualTo
    (BigNumber.dividedBy (BigNumber.of_Z b) (BigNumber.of_Z 0)) SUPPLY_THRESHOLD
  = (0 <? b).
Proof.
  unfold BigNumber.dividedBy, BigNumber.of_Z. change (0 =? 0) with true. cbv iota.
  destruct (Z.eqb_spec b 0) as [->|H0]; [reflexivity|].
  unfold BigNumber.isGreaterThanOrEqualTo, SUPPLY_THRESHOLD.
  destruct (Z.ltb_spec b 0), (Z.ltb_spec 0 b); try lia; reflexivity.
Qed.

(** X14. A total supply of zero is not an error. Every holder outside
    [KNOWN_LP_POOLS] with a positive balance passes the filter (its share
    is [Infinity]); a holder with balance zero or less does not; and
    [totalSupplyControlled] is [NaN] when the team wallets hold nothing,
    [Infinity] when they hold something. *)
Theorem zero_supply (tokenInfo : TokenInfo) :
  total_supply tokenInfo = 0 ->
  (forall h,
      isSignificant tokenInfo h = true
      <-> (address h ∉ KNOWN_LP_POOLS) /\ 0 < balance h)
  /\ (forall analyzedWallets,
         totalSupplyControlledOf tokenInfo analyzedWallets
         = if teamBalance analyzedWallets =? 0 then JsNumber.NaN
           else JsNumber.Infinity (teamBalance analyzedWallets <? 0)).
Proof.
  intros HT. split.
  - intros h. unfold isSignificant. rewrite HT, share_of_nothing.
    destruct (has KNOWN_LP_POOLS (address h)) eqn:E.
    + apply has_spec in E. split; [discriminate | tauto].
    + assert (address h ∉ KNOWN_LP_POOLS) as Hn.
      { intros C. apply has_spec in C. congruence. }
      rewrite Z.ltb_lt. tauto.
  - intros analyzedWallets. unfold totalSupplyControlledOf.
    rewrite teamSupplyHeldOf_sum, HT.
    unfold BigNumber.dividedBy, BigNumber.of_Z. change (0 =? 0) with true. cbv iota.
    destruct (teamBalance analyzedWallets =? 0); [reflexivity|].
    destruct (teamBalance analyzedWallets <? 0); reflexivity.
Qed.

Lemma isSignificant_share (tokenInfo : TokenInfo) (h : Holder) :
  isSignificant tokenInfo h = true ->
  BigNumber.isGreaterThanOrEqualTo
    (BigNumber.dividedBy (BigNumber.of_Z (balance h))
                         (BigNumber.of_Z (total_supply tokenInfo)))
    SUPPLY_THRESHOLD = true.
Proof.
  unfold isSignificant. destruct (has KNOWN_LP_POOLS (address h)); [discriminate|].
  intros H. exact H.
Qed.

Lemma teamBalance_weight (T : Z) (analyzedWallets : list ClassifiedWallet) :
  Forall (fun v => T <= 1000 * balance (spread v)) analyzedWallets ->
  Z.of_nat (length (List.filter (fun w => isTeamWalletCategory (category w))
                      analyzedWallets)) * T
  <= 1000 * teamBalance analyzedWallets.
Proof.
  unfold teamBalance, isTeamWalletCategory, has.
  induction 1 as [|v l Hv Hl IH]; [simpl; lia|].
  change (List.filter ?f (v :: l)) with (if f v then v :: List.filter f l else List.filter f l).
  cbv beta. destruct (bool_decide (category v ∈ TEAM_WALLET_CATEGORIES)); [|exact IH].
  cbn [length map fold_right]. lia.
Qed.

(** X15. In a completed run for a token with a positive supply, each team
    wallet weighs at least a tenth of a percentage point: the decimal that
    [totalSupplyControlled] is converted from is at least 0.1 times the
    number of team wallets, and it is exactly 0 when there is none. *)
Theorem team_wallets_weigh (env : Env) (tokenAddress : string) (w w' : World)
    (result : AnalysisResult) :
  analyzeTeamSupply env tokenAddress w = (w', Resolved result) ->
  0 < st_totalSupply (sd_tokenInfo (scanData result)) ->
  exists c,
    sd_totalSupplyControlled (scanData result)
    = BigNumber.toNumber (BigNumber.Fin c 18)
    /\ Z.of_nat (length (sd_teamWallets (scanData result))) * 10 ^ 17 <= c
    /\ (sd_teamWallets (scanData result) = [] -> c = 0).
Proof.
  intros Hrun HT.
  destruct (analyzeTeamSupply_provenance _ _ _ _ _ Hrun)
    as (d1 & assetInfo & d2 & allHolders & analyzedWallets & Ha & Hh & Hs & ->).
  cbn [scanData sd_tokenInfo sd_teamWallets sd_totalSupplyControlled resultObject
       st_totalSupply tokenInfoOf total_supply] in *.
  set (T := supply_total assetInfo) in *.
  rewrite totalSupplyControlledOf_integers by (cbn [tokenInfoOf total_supply]; fold T; lia).
  cbn [tokenInfoOf total_supply]. fold T.
  eexists. split; [reflexivity|].
  assert (Forall (fun v => T <= 1000 * balance (spread v)) analyzedWallets) as Hall.
  { apply List.Forall_forall. intros v Hv.
    assert (In (spread v)
              (List.filter (isSignificant (tokenInfoOf tokenAddress assetInfo)) allHolders))
      as Hin by (rewrite <- Hs; apply in_map; exact Hv).
    apply List.filter_In in Hin. destruct Hin as [_ Hsig].
    apply isSignificant_share in Hsig.
    cbn [tokenInfoOf total_supply] in Hsig. fold T in Hsig.
    rewrite dividedBy_integers in Hsig by lia.
    unfold BigNumber.isGreaterThanOrEqualTo, SUPPLY_THRESHOLD in Hsig.
    apply Z.leb_le in Hsig.
    apply (share_threshold (balance (spread v)) T HT).
    change (BigNumber.pow10 18) with (10 ^ 18) in Hsig.
    change (BigNumber.pow10 3) with (10 ^ 3) in Hsig. lia. }
  pose proof (teamBalance_weight T analyzedWallets Hall) as Hw.
  unfold teamWalletsOf. rewrite length_map.
  set (n := Z.of_nat (length (List.filter (fun w => isTeamWalletCategory (category w))
                                analyzedWallets))) in *.
  assert (0 <= n) by (unfold n; lia).
  split.
  - assert (n * 10 ^ 15 <= Z.quot (teamBalance analyzedWallets * 10 ^ 18) T); [|lia].
    rewrite Z.quot_div_nonneg by nia.
    apply Z.div_le_lower_bound; [lia|]. nia.
  - intros Hnil. apply map_eq_nil in Hnil.
    assert (teamBalance analyzedWallets = 0) as ->.
    { unfold teamBalance. unfold isTeamWalletCategory, has in Hnil. rewrite Hnil.
      reflexivity. }
    reflexivity.
Qed.

(** ** What a run comes to *)

Section Outcome.

Variable env : Env.
Variable tokenAddress : string.

Hypothesis Hquiet : quiet env.
Hypothesis Hgo : forall site, cancelledAt env site = false.






End Outcome.

(** * Properties of the handlers *)

(** ** Computations of the handlers *)

Lemma settles_ret {S A : Type} (a : A) : IO.settles (@IO.ret S A a).
Proof. intros s. discriminate. Qed.

Lemma settles_throw {S A : Type} (e : JsError) : IO.settles (@IO.throw S A e).
Proof. intros s. discriminate. Qed.

Lemma settles_bind {S A B : Type} (m : IO.t S A) (k : A -> IO.t S B) :
  IO.settles m -> (forall a, IO.settles (k a)) -> IO.settles (IO.bind m k).
Proof.
  intros Hm Hk s. unfold IO.bind. specialize (Hm s).
  destruct (m s) as [s' [a|e|]]; simpl in *; [apply Hk | discriminate | congruence].
Qed.

Lemma settles_tryCatch {S A : Type} (m : IO.t S A) (h : JsError -> IO.t S A) :
  IO.settles m -> (forall e, IO.settles (h e)) -> IO.settles (IO.tryCatch m h).
Proof.
  intros Hm Hh s. unfold IO.tryCatch. specialize (Hm s).
  destruct (m s) as [s' [a|e|]]; simpl in *; [discriminate | apply Hh | congruence].
Qed.

Lemma keeps_ret {S A P : Type} (part : S -> P) (a : A) : IO.keeps part (@IO.ret S A a).
Proof. intros s. reflexivity. Qed.

Lemma keeps_throw {S A P : Type} (part : S -> P) (e : JsError) :
  IO.keeps part (@IO.throw S A e).
Proof. intros s. reflexivity. Qed.

Lemma keeps_bind {S A B P : Type} (part : S -> P) (m : IO.t S A) (k : A -> IO.t S B) :
  IO.keeps part m -> (forall a, IO.keeps part (k a)) -> IO.keeps part (IO.bind m k).
Proof.
  intros Hm Hk s. unfold IO.bind. specialize (Hm s).
  destruct (m s) as [s' [a|e|]]; simpl in *; try exact Hm.
  rewrite Hk. exact Hm.
Qed.

Lemma keeps_tryCatch {S A P : Type} (part : S -> P) (m : IO.t S A)
    (h : JsError -> IO.t S A) :
  IO.keeps part m -> (forall e, IO.keeps part (h e)) -> IO.keeps part (IO.tryCatch m h).
Proof.
  intros Hm Hh s. unfold IO.tryCatch. specialize (Hm s).
  destruct (m s) as [s' [a|e|]]; simpl in *; try exact Hm.
  rewrite Hh. exact Hm.
Qed.

Lemma io_bind_step {S A B : Type} (m : IO.t S A) (k : A -> IO.t S B) (s s' : S) (a : A) :
  m s = (s', Resolved a) -> IO.bind m k s = k a s'.
Proof. intros H. unfold IO.bind. rewrite H. reflexivity. Qed.

(** ** The log of group messages *)

Section AddressPatterns.

Import GroupMessages.

Lemma append_assoc (a b c : string) : ((a ++ b) ++ c = a ++ (b ++ c))%string.
Proof.
  induction a as [|x a IH]; [reflexivity|].
  change (String x ((a ++ b) ++ c) = String x (a ++ (b ++ c)))%string.
  f_equal. exact IH.
Qed.

Lemma append_nil (s : string) : ("" ++ s)%string = s.
Proof. reflexivity. Qed.

Lemma append_cons (c : ascii) (a b : string) :
  (String c a ++ b)%string = String c (a ++ b)%string.
Proof. reflexivity. Qed.

Lemma classRun_spec (class : ascii -> bool) (n : nat) :
  forall s,
    (n <= classRun class s)%nat
    <-> exists run rest,
          s = (run ++ rest)%string /\ String.length run = n /\ every class run = true.
Proof.
  induction n as [|n IH]; intros s.
  - split; [|lia]. intros _. exists "", s. repeat split.
  - split.
    + destruct s as [|c s]; simpl; [lia|].
      destruct (class c) eqn:Ec; [|lia]. intros H.
      destruct (proj1 (IH s) ltac:(lia)) as (run & rest & -> & Hl & He).
      exists (String c run), rest. simpl. rewrite Ec, He, Hl. repeat split.
    + intros (run & rest & -> & Hl & He).
      destruct run as [|c run]; [discriminate|]. simpl in *.
      apply andb_true_iff in He. destruct He as [-> He].
      assert (n <= classRun class (run ++ rest))%nat; [|lia].
      apply IH. exists run, rest. repeat split; [lia | exact He].
Qed.

Lemma repeated_matches (class : ascii -> bool) (min max : nat) (s : string) :
  (min <= max)%nat ->
  (repeated class min max s <> None <-> (min <= classRun class s)%nat).
Proof.
  intros Hm. unfold repeated.
  destruct (Nat.leb_spec min (Nat.min max (classRun class s))); split;
    try discriminate; try lia; congruence.
Qed.

Lemma literal_spec (l : string) :
  forall s rest, literal l s = Some rest <-> s = (l ++ rest)%string.
Proof.
  induction l as [|a l IH]; intros s rest; simpl.
  - split; [intros [= ->]; reflexivity | intros ->; reflexivity].
  - destruct s as [|b s]; [split; discriminate|].
    destruct (Ascii.eqb_spec a b) as [->|Hab].
    + rewrite IH. split; [intros ->; reflexivity | intros [= ->]; reflexivity].
    + split; [discriminate | intros [= -> _]; contradiction].
Qed.

Lemma test_spec (pattern : string -> option string) :
  forall input,
    test pattern input = true
    <-> exists pre rest, input = (pre ++ rest)%string /\ pattern rest <> None.
Proof.
  intros input. induction input as [|c input IH]; simpl.
  - destruct (pattern "") eqn:E.
    + split; [|reflexivity]. intros _. exists "", "". rewrite E. split; [reflexivity | discriminate].
    + split; [discriminate|]. intros (pre & rest & H & Hp).
      destruct pre; [|discriminate]. rewrite append_nil in H. subst rest. congruence.
  - destruct (pattern (String c input)) eqn:E.
    + split; [|reflexivity]. intros _. exists "", (String c input). rewrite E.
      split; [reflexivity | discriminate].
    + rewrite IH. split.
      * intros (pre & rest & -> & Hp). exists (String c pre), rest. split; [reflexivity | exact Hp].
      * intros (pre & rest & H & Hp).
        destruct pre as [|c' pre]; rewrite ?append_nil, ?append_cons in H.
        -- subst rest. congruence.
        -- inversion H; subst. exists pre, rest. split; [reflexivity | exact Hp].
Qed.

Lemma solana_spec (input : string) :
  test SOLANA_ADDRESS_REGEX input = true
  <-> exists pre run post,
        input = (pre ++ run ++ post)%string /\ String.length run = 32%nat
        /\ every base58 run = true.
Proof.
  rewrite test_spec. unfold SOLANA_ADDRESS_REGEX. split.
  - intros (pre & rest & -> & Hp). apply repeated_matches in Hp; [|lia].
    apply classRun_spec in Hp. destruct Hp as (run & post & -> & Hl & He).
    exists pre, run, post. repeat split; assumption.
  - intros (pre & run & post & -> & Hl & He). exists pre, (run ++ post)%string.
    split; [reflexivity|]. apply repeated_matches; [lia|]. apply classRun_spec.
    exists run, post. repeat split; assumption.
Qed.

Lemma ethereum_spec (input : string) :
  test ETHEREUM_ADDRESS_REGEX input = true
  <-> exists pre digits post,
        input = (pre ++ "0x" ++ digits ++ post)%string /\ String.length digits = 40%nat
        /\ every hex digits = true.
Proof.
  rewrite test_spec. unfold ETHEREUM_ADDRESS_REGEX. split.
  - intros (pre & rest & -> & Hp).
    destruct (literal "0x" rest) as [rest'|] eqn:El; [|congruence].
    apply literal_spec in El. subst rest.
    apply repeated_matches in Hp; [|lia].
    apply classRun_spec in Hp. destruct Hp as (run & post & -> & Hl & He).
    exists pre, run, post. repeat split; assumption.
  - intros (pre & run & post & -> & Hl & He). exists pre, ("0x" ++ run ++ post)%string.
    split; [reflexivity|].
    rewrite (proj2 (literal_spec "0x" _ (run ++ post)%string) eq_refl).
    apply repeated_matches; [lia|]. apply classRun_spec.
    exists run, post. repeat split; assumption.
Qed.

(** X17. [containsValidAddress] finds an address anywhere in a text: it
    answers [true] exactly when the text holds 32 consecutive characters
    of the base-58 alphabet, or [0x] followed by 40 hexadecimal digits.
    The upper bound 44 of the first pattern rejects nothing: a longer run
    holds a run of 32. What surrounds a text in which an address is found
    does not matter. *)
Theorem containsValidAddress_spec (input : string) :
  (containsValidAddress input = true
   <-> (exists pre run post,
           input = (pre ++ run ++ post)%string /\ String.length run = 32%nat
           /\ every base58 run = true)
       \/ (exists pre digits post,
              input = (pre ++ "0x" ++ digits ++ post)%string
              /\ String.length digits = 40%nat /\ every hex digits = true))
  /\ (forall before after,
         containsValidAddress input = true ->
         containsValidAddress (before ++ input ++ after)%string = true).
Proof.
  assert (forall i,
             containsValidAddress i = true
             <-> (exists pre run post,
                     i = (pre ++ run ++ post)%string /\ String.length run = 32%nat
                     /\ every base58 run = true)
                 \/ (exists pre digits post,
                        i = (pre ++ "0x" ++ digits ++ post)%string
                        /\ String.length digits = 40%nat /\ every hex digits = true))
    as Hspec.
  { intros i. unfold containsValidAddress.
    rewrite orb_true_iff, solana_spec, ethereum_spec. reflexivity. }
  split; [apply Hspec|].
  intros before after H. apply Hspec. apply Hspec in H.
  destruct H as [(pre & run & post & -> & Hl & He) | (pre & digits & post & -> & Hl & He)].
  - left. exists (before ++ pre)%string, run, (post ++ after)%string.
    split; [|split; assumption]. rewrite !append_assoc. reflexivity.
  - right. exists (before ++ pre)%string, digits, (post ++ after)%string.
    split; [|split; assumption]. rewrite !append_assoc. reflexivity.
Qed.

End AddressPatterns.

Section GroupLog.

Import GroupMessages.

Variable faults : Faults.

Lemma settles_logger (line : nat) : IO.settles (logger faults line).
Proof. intros s. unfold logger. simpl. destruct (logger_throws faults line); discriminate. Qed.

Lemma keeps_logger (line : nat) : IO.keeps disk (logger faults line).
Proof. intros s. reflexivity. Qed.

Lemma settles_property {A B : Type} (object : option A) (field : A -> B) (name : string) :
  IO.settles (@property State A B object field name).
Proof. destruct object; [apply settles_ret | apply settles_throw]. Qed.

Lemma messageDataOf_pure (msg : Message) (input : string) (s : State) :
  fst (messageDataOf msg input s) = s
  /\ snd (messageDataOf msg input s) <> Pending.
Proof.
  unfold messageDataOf, property, toISOString, IO.bind.
  destruct (msg_from msg), (msg_chat msg), (msg_date msg) as [t|];
    try destruct (Z.abs (t * 1000) <=? 8640000000000000);
    simpl; split; try reflexivity; discriminate.
Qed.

Lemma existingMessages_kept (s : State) :
  disk (fst (existingMessages faults s)) = disk s
  /\ snd (existingMessages faults s) <> Pending
  /\ forall l, snd (existingMessages faults s) = Resolved (Some l) ->
               l = kept faults (disk s).
Proof.
  unfold existingMessages, existsSync, readFileSync, kept, logger, IO.bind, IO.tryCatch.
  destruct (GROUP_MESSAGES_FILE (disk s)) as [[|e|l0|]|] eqn:Ef,
           (readFileSync_throws faults), (logger_throws faults 50);
    cbn; rewrite ?Ef; cbn; (split; [reflexivity|]); (split; [discriminate|]);
    intros l H; inversion H; subst; reflexivity.
Qed.

Lemma settles_write (data : Content) :
  IO.settles (IO.tryCatch (IO.bind (writeFileSync faults data) (fun _ => logger faults 61))
                          (fun _ => logger faults 63)).
Proof.
  apply settles_tryCatch; [|intro; apply settles_logger].
  apply settles_bind; [|intro; apply settles_logger].
  intros s. unfold writeFileSync.
  destruct (writeFileSync_throws faults); [discriminate|].
  destruct (dataDir (disk s)); discriminate.
Qed.

Lemma settles_logGroupMessage_try (msg : option Message) :
  IO.settles (logGroupMessage_try faults msg).
Proof.
  unfold logGroupMessage_try.
  destruct msg as [msg|]; [|apply settles_logger].
  destruct (msg_text msg) as [[|c input]|]; try apply settles_logger.
  destruct (negb _); [apply settles_ret|].
  apply settles_bind; [intros s; apply messageDataOf_pure|]. intros messageData.
  apply settles_bind; [intros s; apply existingMessages_kept|]. intros messages.
  apply settles_bind.
  { destruct messages; [apply settles_ret | apply settles_throw]. }
  intros items. apply settles_write.
Qed.

(** X18. [logGroupMessage] does not throw, whatever the message and the
    state of the disk: it returns, unless the call of the logger that
    reports a failure (line 66) throws itself. *)
Theorem logGroupMessage_contained (msg : option Message) (s : State) :
  (exists s', logGroupMessage faults msg s = (s', Resolved tt))
  \/ (exists s' e, logGroupMessage faults msg s = (s', Rejected e)
                   /\ logger_throws faults 66 = Some e).
Proof.
  unfold logGroupMessage, IO.tryCatch.
  pose proof (settles_logGroupMessage_try msg s) as Hs.
  destruct (logGroupMessage_try faults msg s) as [s1 [[]|e|]]; simpl in Hs.
  - left. eexists. reflexivity.
  - unfold logger. destruct (logger_throws faults 66) as [e'|].
    + right. eexists _, e'. split; reflexivity.
    + left. eexists. reflexivity.
  - contradiction.
Qed.

Lemma write_effect (data : Content) (s : State) :
  disk (fst (IO.tryCatch (IO.bind (writeFileSync faults data) (fun _ => logger faults 61))
                         (fun _ => logger faults 63) s)) = disk s
  \/ (writeFileSync_throws faults = None /\ dataDir (disk s) = true
      /\ disk (fst (IO.tryCatch
                      (IO.bind (writeFileSync faults data) (fun _ => logger faults 61))
                      (fun _ => logger faults 63) s))
         = {| dataDir := true; GROUP_MESSAGES_FILE := Some data |}).
Proof.
  unfold IO.tryCatch, IO.bind, writeFileSync, logger.
  destruct (writeFileSync_throws faults); [left; reflexivity|].
  destruct (dataDir (disk s)) eqn:Ed; [|left; reflexivity].
  right. split; [reflexivity|]. split; [reflexivity|].
  simpl. destruct (logger_throws faults 61); reflexivity.
Qed.

(** X19. A call of [logGroupMessage] leaves the disk as it is, or
    replaces the file by the array of the messages kept from it followed
    by the one record made of the message; the latter only for a message
    with a text in which [containsValidAddress] finds an address, and only
    when its sender, chat and date can be read. Nothing but a readable
    JSON array is kept. *)
Theorem logGroupMessage_effect (msg : option Message) (s : State) :
  disk (fst (logGroupMessage faults msg s)) = disk s
  \/ exists m input messageData,
       msg = Some m /\ msg_text m = Some input
       /\ containsValidAddress input = true
       /\ messageDataOf m input s = (s, Resolved messageData)
       /\ dataDir (disk s) = true
       /\ disk (fst (logGroupMessage faults msg s))
          = {| dataDir := true;
               GROUP_MESSAGES_FILE :=
                 Some (Array (kept faults (disk s) ++ [Logged messageData])) |}.
Proof.
  assert (disk (fst (logGroupMessage faults msg s))
          = disk (fst (logGroupMessage_try faults msg s))) as Houter.
  { unfold logGroupMessage, IO.tryCatch.
    destruct (logGroupMessage_try faults msg s) as [s1 [[]|e|]]; reflexivity. }
  rewrite Houter. clear Houter.
  remember (disk (fst (logGroupMessage_try faults msg s))) as d eqn:Hrun.
  unfold logGroupMessage_try in Hrun.
  destruct msg as [m|]; [|left; exact Hrun].
  destruct (msg_text m) as [[|c input]|] eqn:Et; try (left; exact Hrun).
  destruct (containsValidAddress (String c input)) eqn:Ea; [|left; exact Hrun].
  cbn [negb] in Hrun. cbv iota in Hrun.
  destruct (messageDataOf_pure m (String c input) s) as [Hfst Hsnd].
  unfold IO.bind at 1 in Hrun.
  destruct (messageDataOf m (String c input) s) as [s0 [messageData|e|]] eqn:Em;
    simpl in Hfst, Hsnd; subst s0; [|left; exact Hrun|contradiction].
  destruct (existingMessages_kept s) as (Hd & _ & Hk).
  unfold IO.bind at 1 in Hrun.
  destruct (existingMessages faults s) as [s1 [[l|]|e|]]; simpl in Hd;
    try (left; rewrite Hrun; exact Hd).
  specialize (Hk l eq_refl). subst l. unfold push in Hrun.
  unfold IO.bind at 1 in Hrun. unfold IO.ret at 1 in Hrun.
  destruct (write_effect (Array (kept faults (disk s) ++ [Logged messageData])) s1)
    as [Hw | (Hw1 & Hw2 & Hw3)].
  - left. rewrite Hrun. exact (eq_trans Hw Hd).
  - right. exists m, (String c input), messageData.
    rewrite Hd in Hw2.
    split; [reflexivity|]. split; [exact Et|]. split; [exact Ea|].
    split; [exact Em|]. split; [exact Hw2|]. rewrite Hrun. exact Hw3.
Qed.


(** X20. A message with an address in its text, a sender, a chat and a
    date is recorded when the directory exists and the write does not
    fail: the file becomes the array of the messages kept from it followed
    by one record with the fields of the message. The messages of a
    readable JSON array are all kept, in order; a file that is missing or
    blank gives a one-element array; and so does a file that cannot be
    read or parsed, whose former content is lost. *)
Theorem logGroupMessage_records (m : Message) (from : User) (chat : Chat) (t : Z)
    (input : string) (s : State) :
  msg_text m = Some input ->
  containsValidAddress input = true ->
  msg_from m = Some from ->
  msg_chat m = Some chat ->
  msg_date m = Some t ->
  Z.abs (t * 1000) <= 8640000000000000 ->
  dataDir (disk s) = true ->
  writeFileSync_throws faults = None ->
  logger_throws faults 50 = None ->
  (readFileSync_throws faults = None -> GROUP_MESSAGES_FILE (disk s) <> Some NotArray) ->
  let messageData :=
    {| userId := from_id from;
       username := from_username from;
       firstName := from_first_name from;
       lastName := from_last_name from;
       chatId := chat_id chat;
       chatTitle := chat_title chat;
       date := t * 1000;
       text := input |} in
  let after := disk (fst (logGroupMessage faults (Some m) s)) in
  after = {| dataDir := true;
             GROUP_MESSAGES_FILE :=
               Some (Array (kept faults (disk s) ++ [Logged messageData])) |}
  /\ (forall messages,
         readFileSync_throws faults = None ->
         GROUP_MESSAGES_FILE (disk s) = Some (Array messages) ->
         GROUP_MESSAGES_FILE after = Some (Array (messages ++ [Logged messageData])))
  /\ (GROUP_MESSAGES_FILE (disk s) = None \/ GROUP_MESSAGES_FILE (disk s) = Some Blank ->
      GROUP_MESSAGES_FILE after = Some (Array [Logged messageData]))
  /\ ((exists e, readFileSync_throws faults = Some e)
      \/ (exists e, GROUP_MESSAGES_FILE (disk s) = Some (Malformed e)) ->
      GROUP_MESSAGES_FILE after = Some (Array [Logged messageData])).
Proof.
  intros Et Ea Hfrom Hchat Hdate Ht Hdir Hw H50 Harr messageData after.
  assert (after = {| dataDir := true;
                     GROUP_MESSAGES_FILE :=
                       Some (Array (kept faults (disk s) ++ [Logged messageData])) |})
    as Hafter.
  { subst after. unfold logGroupMessage, logGroupMessage_try. rewrite Et.
    destruct input as [|c input]; [vm_compute in Ea; discriminate Ea|].
    rewrite Ea. cbn [negb]. cbv iota.
    assert (messageDataOf m (String c input) s = (s, Resolved messageData)) as Hmd.
    { unfold messageDataOf, property, toISOString. rewrite Hfrom, Hchat, Hdate.
      apply Z.leb_le in Ht. rewrite Ht. reflexivity. }
    unfold IO.tryCatch at 1. rewrite (io_bind_step _ _ _ _ _ Hmd).
    assert (existingMessages faults s = (s, Resolved (Some (kept faults (disk s))))
            \/ exists s1, disk s1 = disk s
                          /\ existingMessages faults s
                             = (s1, Resolved (Some (kept faults (disk s))))) as Hex.
    { unfold existingMessages, existsSync, readFileSync, kept, logger, IO.bind,
        IO.tryCatch.
      destruct (GROUP_MESSAGES_FILE (disk s)) as [[|e|l0|]|] eqn:Ef,
               (readFileSync_throws faults) eqn:Er;
        cbn; rewrite ?Ef, ?H50; cbn;
        try (left; reflexivity);
        try (right; eexists; split; [|reflexivity]; reflexivity).
      exfalso. apply Harr; reflexivity. }
    assert (exists s1, disk s1 = disk s
                       /\ existingMessages faults s
                          = (s1, Resolved (Some (kept faults (disk s))))) as (s1 & Hd & Hs1).
    { destruct Hex as [Hex | Hex]; [exists s; split; [reflexivity | exact Hex] | exact Hex]. }
    rewrite (io_bind_step _ _ _ _ _ Hs1).
    rewrite (io_bind_step _ _ s1 s1 _ eq_refl).
    unfold IO.tryCatch, IO.bind, writeFileSync, logger.
    rewrite Hw, Hd, Hdir. cbn.
    destruct (logger_throws faults 61); cbn;
      try destruct (logger_throws faults 63); cbn;
      try destruct (logger_throws faults 66); reflexivity. }
  split; [exact Hafter|]. rewrite Hafter. cbn [GROUP_MESSAGES_FILE]. unfold kept.
  split; [|split].
  - intros messages -> ->. reflexivity.
  - intros [-> | ->]; destruct (readFileSync_throws faults); reflexivity.
  - intros [(e & ->) | (e & ->)]; [|destruct (readFileSync_throws faults)]; reflexivity.
Qed.

(** X21. [initialize] makes the directory and, when the file is missing,
    an empty array; a file that is there is left as it is, so that no
    recorded message is lost and a second call changes nothing. A failure
    to create the file is reported and swallowed; a failure to create the
    directory is thrown to the caller. *)
Theorem initialize_prepares (s : State) :
  (mkdirSync_throws faults = None ->
   writeFileSync_throws faults = None ->
   initialize faults s
   = ({| disk := {| dataDir := true;
                    GROUP_MESSAGES_FILE :=
                      Some (match GROUP_MESSAGES_FILE (disk s) with
                            | Some data => data
                            | None => Array []
                            end) |};
         logged := logged s |}, Resolved tt)
   /\ kept faults (disk (fst (initialize faults s))) = kept faults (disk s)
   /\ disk (fst (initialize faults (fst (initialize faults s))))
      = disk (fst (initialize faults s)))
  /\ (forall e,
         dataDir (disk s) = false -> mkdirSync_throws faults = Some e ->
         initialize faults s = (s, Rejected e))
  /\ (forall e,
         dataDir (disk s) = true -> GROUP_MESSAGES_FILE (disk s) = None ->
         writeFileSync_throws faults = Some e -> logger_throws faults 82 = None ->
         initialize faults s
         = ({| disk := disk s; logged := logged s ++ [82%nat] |}, Resolved tt)).
Proof.
  destruct s as [[dir file] logs]. cbn [disk logged dataDir GROUP_MESSAGES_FILE].
  split; [|split].
  - intros Hm Hw.
    assert (forall dir file logs,
               initialize faults {| disk := {| dataDir := dir; GROUP_MESSAGES_FILE := file |};
                                    logged := logs |}
               = ({| disk := {| dataDir := true;
                                GROUP_MESSAGES_FILE :=
                                  Some (match file with
                                        | Some data => data
                                        | None => Array []
                                        end) |};
                     logged := logs |}, Resolved tt)) as Hinit.
    { intros dir' file' logs'.
      unfold initialize, existsSync, mkdirSync, writeFileSync, IO.bind, IO.tryCatch.
      cbn. rewrite Hm, Hw. destruct dir', file'; reflexivity. }
    split; [apply Hinit|]. rewrite !Hinit. cbn [fst disk]. split.
    + unfold kept. cbn. destruct (readFileSync_throws faults); [reflexivity|].
      destruct file as [[]|]; reflexivity.
    + rewrite Hinit. reflexivity.
  - intros e -> Hm.
    unfold initialize, existsSync, mkdirSync, IO.bind. cbn. rewrite Hm. reflexivity.
  - intros e -> -> Hw H82.
    unfold initialize, existsSync, writeFileSync, logger, IO.bind, IO.tryCatch.
    cbn. rewrite Hw, H82. reflexivity.
Qed.

End GroupLog.

Section GroupLogOrder.

Import GroupMessages.

Variable faults : Faults.

Hypothesis Hread : readFileSync_throws faults = None.
Hypothesis Hwrite : writeFileSync_throws faults = None.

Lemma logGroupMessage_appends (msg : Message) (messageData : MessageData) (s : State) :
  recordOf msg messageData ->
  dataDir (disk s) = true ->
  GROUP_MESSAGES_FILE (disk s) <> Some NotArray ->
  (forall e, GROUP_MESSAGES_FILE (disk s) <> Some (Malformed e)) ->
  disk (fst (logGroupMessage faults (Some msg) s))
  = {| dataDir := true;
       GROUP_MESSAGES_FILE :=
         Some (Array (kept faults (disk s) ++ [Logged messageData])) |}.
Proof.
  intros (input & Et & Ea & Hmd) Hdir Harr Hmal.
  unfold logGroupMessage, logGroupMessage_try. rewrite Et.
  destruct input as [|c input]; [vm_compute in Ea; discriminate Ea|].
  rewrite Ea. cbn [negb]. cbv iota.
  unfold IO.tryCatch at 1. rewrite (io_bind_step _ _ _ _ _ (Hmd s)).
  assert (existingMessages faults s = (s, Resolved (Some (kept faults (disk s))))) as Hex.
  { unfold existingMessages, existsSync, readFileSync, kept, IO.bind, IO.tryCatch.
    rewrite Hread.
    destruct (GROUP_MESSAGES_FILE (disk s)) as [[|e|l0|]|] eqn:Ef;
      cbn; rewrite ?Ef, ?Hread; cbn; try reflexivity.
    - exfalso. apply (Hmal e). reflexivity.
    - exfalso. apply Harr. reflexivity. }
  rewrite (io_bind_step _ _ _ _ _ Hex).
  rewrite (io_bind_step _ _ s s _ eq_refl).
  unfold IO.tryCatch, IO.bind, writeFileSync, logger.
  rewrite Hwrite, Hdir. cbn.
  destruct (logger_throws faults 61); cbn;
    try destruct (logger_throws faults 63); cbn;
    try destruct (logger_throws faults 66); reflexivity.
Qed.

(** X22. The log is append-only and keeps the order of arrival: when
    reading and writing the file do not fail, handing one after the other
    messages that each quote an address (and have a sender, a chat and a
    date) to [logGroupMessage] leaves in the file what a readable array
    held before, followed by their records, one per message, in the order
    of the calls. *)
Theorem log_keeps_order (msgs : list Message) (records : list MessageData) (s : State) :
  Forall2 recordOf msgs records ->
  dataDir (disk s) = true ->
  GROUP_MESSAGES_FILE (disk s) <> Some NotArray ->
  (forall e, GROUP_MESSAGES_FILE (disk s) <> Some (Malformed e)) ->
  msgs <> [] ->
  disk (logAll faults msgs s)
  = {| dataDir := true;
       GROUP_MESSAGES_FILE :=
         Some (Array (kept faults (disk s) ++ map Logged records)) |}.
Proof.
  intros Hall. revert s.
  induction Hall as [|msg messageData msgs records Hm Hrest IH]; intros s Hdir Harr Hmal Hne;
    [contradiction|].
  pose proof (logGroupMessage_appends msg messageData s Hm Hdir Harr Hmal) as Hstep.
  unfold logAll. cbn [fold_left map].
  fold (logAll faults msgs (fst (logGroupMessage faults (Some msg) s))).
  destruct msgs as [|msg' msgs].
  - inversion Hrest; subst. exact Hstep.
  - rewrite IH; try discriminate; rewrite Hstep; cbn [dataDir GROUP_MESSAGES_FILE];
      try reflexivity; try discriminate.
    unfold kept at 1. rewrite Hread. cbn [GROUP_MESSAGES_FILE].
    rewrite <- app_assoc. reflexivity.
Qed.

End GroupLogOrder.

(** ** The search command *)

Section SearchCommand.

Import SearchHandler.

Variable env : Env.

Lemma keeps_searches_logger (line : nat) : IO.keeps searches (logger env line).
Proof. intros s. reflexivity. Qed.

Lemma keeps_searches_send (chat : Z) (text : string) (o : SendOptions) :
  IO.keeps searches (send env chat text o).
Proof. intros s. reflexivity. Qed.

Lemma keeps_property {S A B P : Type} (part : S -> P) (object : option A) (field : A -> B)
    (name : string) :
  IO.keeps part (@property S A B object field name).
Proof. destruct object; [apply keeps_ret | apply keeps_throw]. Qed.

Lemma keeps_searches_usage (msg : Message) (text : string) (thread : option Z) :
  IO.keeps searches
    (IO.bind (property (msg_chat msg) chat_id "id")
             (fun chat => send env chat text (inThread thread))).
Proof.
  apply keeps_bind; [apply keeps_property | intro; apply keeps_searches_send].
Qed.

Lemma keeps_searches_sendResults (msg : Message) (results : list string)
    (thread : option Z) :
  IO.keeps searches
    (IO.bind (property (msg_chat msg) chat_id "id")
             (fun chat => _sendResults env chat results thread)).
Proof.
  apply keeps_bind; [apply keeps_property|]. intro. unfold _sendResults.
  destruct (_ =? _)%nat; apply keeps_searches_send.
Qed.

Lemma handleCommand_try_searches (msg : Message) (args : option (list string))
    (thread : option Z) (s : State) :
  searches (fst (handleCommand_try env msg args thread s)) = searches s
  \/ exists token criteria,
       args = Some (token :: criteria) /\ token <> "" /\ criteria <> []
       /\ searches (fst (handleCommand_try env msg args thread s))
          = (searches s ++ [{| tokenAddress := token; searchCriteria := criteria;
                               mainContext := "searchWallet" |}])%list.
Proof.
  remember (searches (fst (handleCommand_try env msg args thread s))) as after eqn:Hrun.
  unfold handleCommand_try in Hrun.
  destruct args as [[|token criteria]|]; try (left; exact Hrun).
  - left. rewrite Hrun.
    apply (keeps_searches_usage msg "Please provide a token address." thread s).
  - rewrite (io_bind_step _ _ s s (Some token, criteria) eq_refl) in Hrun.
    cbn [fst snd] in Hrun.
    destruct token as [|c token].
    { left. rewrite Hrun.
      apply (keeps_searches_usage msg "Please provide a token address." thread s). }
    destruct criteria as [|criterion criteria].
    { left. rewrite Hrun.
      apply (keeps_searches_usage msg "Please provide search criteria." thread s). }
    cbn [length Nat.eqb] in Hrun.
    unfold IO.bind at 1 in Hrun. unfold property at 1 in Hrun.
    destruct (msg_chat msg) as [chat|] eqn:Ec; [|left; exact Hrun].
    cbn [IO.ret] in Hrun. unfold IO.bind at 1 in Hrun.
    unfold _sendInitialMessage, send at 1 in Hrun.
    destruct (sendLongMessage env _) as [[]| |]; try (left; exact Hrun).
    unfold IO.bind at 1 in Hrun. unfold _performSearch at 1 in Hrun.
    right. exists (String c token), (criterion :: criteria).
    split; [reflexivity|]. split; [discriminate|]. split; [discriminate|].
    destruct (searchWallets env _) as [results| |]; try exact Hrun.
    rewrite <- Ec in Hrun.
    rewrite (keeps_searches_sendResults msg results thread _) in Hrun. exact Hrun.
Qed.

(** X23. [handleCommand] calls [searchWallets] at most once, and only
    when the arguments start with a token address that is not empty and
    go on with at least one criterion; it is then called with that
    address, all the criteria, and the context ['searchWallet']. *)
Theorem search_needs_arguments (msg : Message) (args : option (list string))
    (thread : option Z) (s : State) :
  searches (fst (handleCommand env msg args thread s)) = searches s
  \/ exists token criteria,
       args = Some (token :: criteria) /\ token <> "" /\ criteria <> []
       /\ searches (fst (handleCommand env msg args thread s))
          = (searches s ++ [{| tokenAddress := token; searchCriteria := criteria;
                               mainContext := "searchWallet" |}])%list.
Proof.
  remember (searches (fst (handleCommand env msg args thread s))) as after eqn:Hrun.
  unfold handleCommand, property in Hrun.
  destruct (msg_from msg) as [from|]; [|left; exact Hrun].
  unfold IO.bind at 1 2 3 in Hrun. cbn [IO.ret] in Hrun. unfold logger at 1 in Hrun.
  destruct (logger_throws env 11); [left; exact Hrun|].
  unfold IO.tryCatch in Hrun.
  match type of Hrun with
  | context [handleCommand_try env msg args thread ?s1] =>
      destruct (handleCommand_try_searches msg args thread s1) as [H | H];
        destruct (handleCommand_try env msg args thread s1) as [s2 [[]|e|]]
  end; cbn in H;
    try (left; rewrite Hrun; exact H);
    try (right; destruct H as (token & criteria & Ha & Ht & Hc & H);
         exists token, criteria; rewrite Hrun;
         split; [exact Ha|]; split; [exact Ht|]; split; [exact Hc|]; exact H).
  - left. rewrite Hrun. unfold IO.bind, logger.
    destruct (logger_throws env 40); exact H.
  - right. destruct H as (token & criteria & Ha & Ht & Hc & H).
    exists token, criteria. rewrite Hrun.
    split; [exact Ha|]. split; [exact Ht|]. split; [exact Hc|].
    unfold IO.bind, logger. destruct (logger_throws env 40); exact H.
Qed.

(** X24. With too few arguments the command answers with one message
    and stops: without a token address (no argument, or an empty first
    argument) it asks for one; with a token address and nothing else it
    asks for criteria. Nothing else is sent, and it resolves when the
    message is sent. *)
Theorem usage_replies (msg : Message) (from : User) (chat : Chat)
    (args : list string) (thread : option Z) (s : State) :
  msg_from msg = Some from ->
  msg_chat msg = Some chat ->
  logger_throws env 11 = None ->
  (args = [] \/ (exists rest, args = "" :: rest) \/ (exists token, args = [token])) ->
  let usage :=
    {| chatId := chat_id chat;
       message := match args with
                  | [] | EmptyString :: _ => "Please provide a token address."
                  | _ => "Please provide search criteria."
                  end;
       options := inThread thread |} in
  sent (fst (handleCommand env msg (Some args) thread s)) = (sent s ++ [usage])%list
  /\ (sendLongMessage env usage = Resolved tt ->
      snd (handleCommand env msg (Some args) thread s) = Resolved tt).
Proof.
  intros Hfrom Hchat H11 Hargs usage. subst usage.
  unfold handleCommand, handleCommand_try, property, logger, send, IO.tryCatch, IO.bind.
  rewrite Hfrom, Hchat. cbn. rewrite H11.
  destruct Hargs as [-> | [(rest & ->) | (token & ->)]]; cbn.
  - destruct (sendLongMessage env _) as [[]|e|]; cbn;
      try destruct (logger_throws env 40); cbn; split; try reflexivity; discriminate.
  - destruct (sendLongMessage env _) as [[]|e|]; cbn;
      try destruct (logger_throws env 40); cbn; split; try reflexivity; discriminate.
  - destruct token as [|c token]; cbn;
      destruct (sendLongMessage env _) as [[]|e|]; cbn;
      try destruct (logger_throws env 40); cbn; split; try reflexivity; discriminate.
Qed.

Lemma sendResults_report (chat : Z) (results : list string) (thread : option Z)
    (s : State) :
  _sendResults env chat results thread s
  = ({| sent := (sent s ++ [report chat results thread])%list;
        searches := searches s; logged := logged s |},
     sendLongMessage env (report chat results thread)).
Proof.
  unfold _sendResults, report, send. destruct results as [|r results]; [reflexivity|].
  cbn [length Nat.eqb]. rewrite !append_assoc. reflexivity.
Qed.

(** X25. With a token address and criteria, once the first message is
    sent the command searches and reports: when [searchWallets] resolves,
    exactly two messages have been sent, the announcement and the report;
    the report of an empty list says that nothing matches, and any other
    starts with the number of results and holds them all, in order, sent
    as HTML without preview. When [searchWallets] rejects, no report is
    sent and the command rejects with the same error. *)
Theorem search_reports (msg : Message) (from : User) (chat : Chat) (token : string)
    (criterion : string) (criteria : list string) (thread : option Z) (s : State) :
  msg_from msg = Some from ->
  msg_chat msg = Some chat ->
  logger_throws env 11 = None ->
  token <> "" ->
  let announcement :=
    {| chatId := chat_id chat;
       message := "Searching wallets for coin: " ++ token;
       options := inThread thread |} in
  let search :=
    {| tokenAddress := token; searchCriteria := criterion :: criteria;
       mainContext := "searchWallet" |} in
  let run := handleCommand env msg (Some (token :: criterion :: criteria)) thread s in
  sendLongMessage env announcement = Resolved tt ->
  (forall results,
      searchWallets env search = Resolved results ->
      sent (fst run) = (sent s ++ [announcement; report (chat_id chat) results thread])%list
      /\ (sendLongMessage env (report (chat_id chat) results thread) = Resolved tt ->
          snd run = Resolved tt)
      /\ (forall e,
             sendLongMessage env (report (chat_id chat) results thread) = Rejected e ->
             logger_throws env 40 = None -> snd run = Rejected e))
  /\ (forall e,
         searchWallets env search = Rejected e ->
         logger_throws env 40 = None ->
         sent (fst run) = (sent s ++ [announcement])%list
         /\ snd run = Rejected e
         /\ In 40%nat (logged (fst run))).
Proof.
  intros Hfrom Hchat H11 Htoken announcement search run Hsent.
  destruct token as [|c token]; [contradiction|].
  assert (run
          = IO.tryCatch
              (IO.bind (_performSearch env (String c token) (criterion :: criteria))
                 (fun results =>
                    IO.bind (property (msg_chat msg) chat_id "id")
                      (fun chat => _sendResults env chat results thread)))
              (fun error => IO.bind (logger env 40) (fun _ => IO.throw error))
              {| sent := (sent s ++ [announcement])%list; searches := searches s;
                 logged := (logged s ++ [11%nat])%list |}) as Hrun.
  { subst run. unfold handleCommand, handleCommand_try.
    unfold property at 1 2. rewrite Hfrom.
    rewrite (io_bind_step _ _ s s _ eq_refl), (io_bind_step _ _ s s _ eq_refl).
    unfold IO.bind at 1. unfold logger at 1. rewrite H11.
    unfold IO.tryCatch. unfold IO.bind at 1. cbn [_parseArgs IO.ret fst snd length Nat.eqb].
    unfold IO.bind at 1. unfold property at 1. rewrite Hchat. cbn [IO.ret].
    unfold IO.bind at 1. unfold _sendInitialMessage, send at 1.
    cbn [sent searches logged]. fold announcement. rewrite Hsent. reflexivity. }
  clearbody run. split.
  - intros results Hs.
    set (r := report (chat_id chat) results thread).
    set (s2 := {| sent := (sent s ++ [announcement; r])%list;
                  searches := (searches s ++ [search])%list;
                  logged := (logged s ++ [11%nat])%list |}).
    assert (run = match sendLongMessage env r with
                  | Resolved u => (s2, Resolved u)
                  | Rejected e => IO.bind (logger env 40) (fun _ => IO.throw e) s2
                  | Pending => (s2, Pending)
                  end) as Hr.
    { rewrite Hrun. unfold IO.tryCatch, IO.bind at 1. unfold _performSearch.
      cbn [sent searches logged]. fold search. rewrite Hs.
      unfold IO.bind at 1. unfold property. rewrite Hchat. cbn [IO.ret].
      rewrite sendResults_report. cbn [sent searches logged].
      rewrite <- app_assoc. cbn [app]. fold r. fold s2.
      destruct (sendLongMessage env r); reflexivity. }
    rewrite Hr. destruct (sendLongMessage env r) as [[]|e'|].
    + split; [reflexivity|]. split; [reflexivity|]. intros e He. discriminate He.
    + unfold IO.bind, logger. destruct (logger_throws env 40) eqn:E40; cbn;
        (split; [reflexivity|]); (split; [discriminate|]); intros e He H40;
        [discriminate H40 | inversion He; reflexivity].
    + split; [reflexivity|]. split; [discriminate|]. intros e He. discriminate He.
  - intros e Hs H40. rewrite Hrun.
    unfold IO.tryCatch, IO.bind at 1. unfold _performSearch.
    cbn [sent searches logged]. fold search. rewrite Hs.
    unfold IO.bind, logger. rewrite H40. cbn.
    split; [reflexivity|]. split; [reflexivity|].
    apply in_or_app. right. left. reflexivity.
Qed.

End SearchCommand.

(** ** The statements at work on the scenarios *)

(** The supply of 3 held by three fresh wallets of balance 1: exactly 100. *)
Lemma totalSupplyControlled_fixed_precision_witness :
  exists w result,
    analyzeTeamSupply Scenario.threeFresh "mint" start = (w, Resolved result)
    /\ sd_totalSupplyControlled (scanData result) = JsNumber.of_Z 100.
Proof.
  eexists _, _. split; [vm_compute; reflexivity|].
  eapply (proj2 (totalSupplyControlled_fixed_precision
                   Scenario.threeFresh "mint" start _ _ ltac:(vm_compute; reflexivity)
                   ltac:(vm_compute; reflexivity)));
    vm_compute; reflexivity.
Defined.

(** A supply of 1,000,000: 2,000 and 1,000 are kept, 500 is dropped, and a
    known pool is dropped although it holds 300,000. *)
Lemma significant_holders_iff_witness :
  let tokenInfo := {| total_supply := 1000000; ti_symbol := "TKN"; ti_name := "Token";
                      ti_decimals := 0; ti_address := "mint" |} in
  let a := {| address := "HolderA"; balance := 2000 |} in
  let b := {| address := "HolderB"; balance := 500 |} in
  let c := {| address := "675kPX9MHTjS2zt1qfr1NYHuzeLXfQM9H24wFSUt1Mp8";
              balance := 300000 |} in
  let d := {| address := "HolderD"; balance := 1000 |} in
  In a (List.filter (isSignificant tokenInfo) [a; b; c; d])
  /\ In d (List.filter (isSignificant tokenInfo) [a; b; c; d])
  /\ ~ In c (List.filter (isSignificant tokenInfo) [a; b; c; d])
  /\ ~ (1 # 1000 <= spec_share (balance b) (total_supply tokenInfo))%Q.
Proof.
  intros tokenInfo a b c d.
  destruct (significant_holders_iff tokenInfo [a; b; c; d] ltac:(vm_compute; reflexivity))
    as (Hiff & Hexact & Hpool).
  assert (forall x, has KNOWN_LP_POOLS x = false -> x ∉ KNOWN_LP_POOLS) as Hout
    by (intros x E F; apply has_spec in F; congruence).
  split; [|split; [|split]].
  - refine (proj2 (Hiff a) (conj (or_introl eq_refl) (conj (Hout _ _) _))).
    + vm_compute. reflexivity.
    + vm_compute. discriminate.
  - refine (Hexact d (or_intror (or_intror (or_intror (or_introl eq_refl))))
                   (Hout _ _) eq_refl).
    vm_compute. reflexivity.
  - refine (Hpool c (proj1 (has_spec _ _) _)). vm_compute. reflexivity.
  - vm_compute. intros H. apply H. reflexivity.
Defined.

(** Three wallets, the second of which never answers: three entries, in
    order. *)
Lemma analyzedWallets_follow_input_witness :
  exists w analyzedWallets,
    analyzeWalletsWithTimeout Scenario.secondHangs
      [Scenario.alice; Scenario.bob; Scenario.carol] "mint" start
    = (w, Resolved analyzedWallets)
    /\ length analyzedWallets = 3%nat
    /\ map spread analyzedWallets = [Scenario.alice; Scenario.bob; Scenario.carol].
Proof.
  eexists _, _. split; [vm_compute; reflexivity|].
  destruct (analyzedWallets_follow_input Scenario.secondHangs
              [Scenario.alice; Scenario.bob; Scenario.carol] "mint" start _ _
              ltac:(vm_compute; reflexivity)) as (Hlen & Hmap & _).
  split; [exact Hlen | exact Hmap].
Defined.

(** A wallet with 1001 signatures. *)
Lemma excessive_activity_short_circuit_witness :
  analyzeWallet Scenario.busy 0 Scenario.alice "mint" start
  = (tick 5 (emit (EvCall (CallSignatures 0 1001)) start),
     Resolved {| spread := Scenario.alice;
                 category := "Normal";
                 daysSinceLastActivity := Null;
                 funderAddress := Null;
                 fundingDetails := Null;
                 error := Undefined |}).
Proof.
  apply (proj1 (excessive_activity_short_circuit Scenario.busy 0 Scenario.alice "mint"
                  start ltac:(reflexivity)) 5%N 1001%nat ltac:(reflexivity) ltac:(lia)).
Defined.

(** An inactivity check that throws "No Token account found": the wallet
    comes back [Normal]. *)
Lemma inactivity_exception_swallowed_witness :
  let env := Scenario.inactivityFails (Error "No Token account found") None in
  exists w v,
    analyzeWallet env 0 Scenario.alice "mint" start = (w, Resolved v)
    /\ category v = "Normal" /\ error v = Undefined.
Proof.
  intros env. eexists _, _. split; [vm_compute; reflexivity|].
  destruct (inactivity_exception_swallowed env 0 Scenario.alice "mint" start _ _
              5%N (Error "No Token account found")
              ltac:(reflexivity) ltac:(vm_compute; reflexivity)
              ltac:(vm_compute; reflexivity) ltac:(reflexivity) ltac:(reflexivity)
              ltac:(intros _; reflexivity)) as (w3 & _ & _ & Hnormal).
  eapply (Hnormal ltac:(reflexivity)). vm_compute. reflexivity.
Defined.


Lemma cancelledDuringClassification_stays :
  staysCancelled Scenario.cancelledDuringClassification.
Proof.
  intros s s'. destruct s as [[]| | | | | |]; destruct s' as [[]| | | | | |];
    simpl; intros Hlt Hs; try reflexivity; try discriminate; lia.
Defined.

(** The user cancels while the first wallet is being classified and the
    token stays cancelled: the run rejects with the cancellation error. *)
Lemma fatal_paths_reject_witness :
  reportedCancelled
    (fst (analyzeTeamSupply Scenario.cancelledDuringClassification "mint" start))
    (PollFunding 0)
  /\ snd (analyzeTeamSupply Scenario.cancelledDuringClassification "mint" start)
     = Rejected cancelled.
Proof.
  assert (reportedCancelled
            (fst (analyzeTeamSupply Scenario.cancelledDuringClassification "mint" start))
            (PollFunding 0)) as Hpoll
    by (exists 45%N; vm_compute; tauto).
  split; [exact Hpoll|].
  apply (proj2 (fatal_paths_reject Scenario.cancelledDuringClassification "mint")
               ltac:(intros l; reflexivity) (PollFunding 0) Hpoll).
  right. exact cancelledDuringClassification_stays.
Defined.

(** The two views of the result of the three fresh wallets. *)
Lemma views_agree_witness :
  exists w result,
    analyzeTeamSupply Scenario.threeFresh "mint" start = (w, Resolved result)
    /\ sd_analyzedWallets (scanData result) = tr_allWalletsDetails (trackingInfo result)
    /\ sd_teamWallets (scanData result) = tr_teamWallets (trackingInfo result)
    /\ sd_totalSupplyControlled (scanData result)
       = tr_totalSupplyControlled (trackingInfo result).
Proof.
  eexists _, _. split; [vm_compute; reflexivity|].
  apply (views_agree Scenario.threeFresh "mint" start _ _ ltac:(vm_compute; reflexivity)).
Defined.

(** Every entry of the batch with a silent wallet has a category of the
    enumeration. *)
Lemma categories_closed_witness :
  exists w analyzedWallets,
    analyzeWalletsWithTimeout Scenario.secondHangs
      [Scenario.alice; Scenario.bob; Scenario.carol] "mint" start
    = (w, Resolved analyzedWallets)
    /\ forall v, In v analyzedWallets -> In (category v) WalletCategory.
Proof.
  eexists _, _. split; [vm_compute; reflexivity|].
  apply (categories_closed Scenario.secondHangs
           [Scenario.alice; Scenario.bob; Scenario.carol] "mint" start _ _
           ltac:(vm_compute; reflexivity)).
Defined.

(** The scheduler settles when the token is cancelled from the start. *)
Lemma scheduler_settles_witness :
  snd (analyzeWalletsWithTimeout Scenario.cancelledFromTheStart [Scenario.alice] "mint" start)
  = Rejected cancelled.
Proof.
  destruct (scheduler_settles Scenario.cancelledFromTheStart [Scenario.alice] "mint" start
              ltac:(intros l; reflexivity)) as [(ws & H) | H].
  - vm_compute in H. discriminate H.
  - exact H.
Defined.

(** One fresh wallet holding 1 of a supply of 3: a third, cut at 18
    digits. *)
Lemma totalSupplyControlled_accuracy_witness :
  let tokenInfo := {| total_supply := 3; ti_symbol := "TKN"; ti_name := "Token";
                      ti_decimals := 0; ti_address := "mint" |} in
  let wallets := [classified Scenario.alice "Fresh" Null Null Null] in
  exists (d : BigNumber.t) (q : Q),
    totalSupplyControlledOf tokenInfo wallets = BigNumber.toNumber d
    /\ BigNumber.value d = Some q
    /\ (q <= inject_Z 100 * inject_Z (teamBalance wallets)
             / inject_Z (total_supply tokenInfo))%Q.
Proof.
  intros tokenInfo wallets.
  destruct (totalSupplyControlled_accuracy tokenInfo wallets
              ltac:(vm_compute; reflexivity) ltac:(vm_compute; discriminate))
    as (d & q & Hd & Hq & Hle & _).
  exists d, q. split; [exact Hd|]. split; [exact Hq | exact Hle].
Defined.

(** A wallet with five signatures is fresh. *)
Lemma fresh_wallet_skips_inactivity_witness :
  exists w v,
    analyzeWallet Scenario.threeFresh 0 Scenario.alice "mint" start = (w, Resolved v)
    /\ category v = "Fresh" /\ daysSinceLastActivity v = Null /\ error v = Undefined.
Proof.
  eexists _, _. split; [vm_compute; reflexivity|].
  destruct (fresh_wallet_skips_inactivity Scenario.threeFresh 0 Scenario.alice "mint"
              start _ ltac:(reflexivity) ltac:(vm_compute; reflexivity)) as [Hfresh _].
  destruct (Hfresh 5%N 5%nat ltac:(reflexivity) ltac:(unfold FRESH_WALLET_THRESHOLD; lia))
    as (_ & _ & Hv).
  eapply (Hv ltac:(reflexivity)). vm_compute. reflexivity.
Defined.

(** A check that answers both 'No Token' and inactive: 'No Token' it is,
    and the 40 days are dropped. *)
Lemma inactivity_result_order_witness :
  exists w,
    inactivityStage Cases.dormant 0 Scenario.alice "mint" start
    = (w, Resolved ("No Token", Null)).
Proof.
  destruct (inactivity_result_order Cases.dormant 0 Scenario.alice "mint" start 5%N
              (Some Cases.dormantCheck) ltac:(reflexivity) ltac:(reflexivity))
    as (c & days & Hs & _ & Hic & Hd & _).
  destruct (Hic _ eq_refl) as (Hnt & _). specialize (Hnt eq_refl). subst c.
  rewrite (Hd ltac:(discriminate)) in Hs.
  eexists. exact Hs.
Defined.

(** The entries of the batch with a silent wallet are coherent. *)
Lemma entries_coherent_witness :
  exists w analyzedWallets,
    analyzeWalletsWithTimeout Scenario.secondHangs
      [Scenario.alice; Scenario.bob; Scenario.carol] "mint" start
    = (w, Resolved analyzedWallets)
    /\ forall v, In v analyzedWallets -> coherent v.
Proof.
  eexists _, _. split; [vm_compute; reflexivity|].
  apply (entries_coherent Scenario.secondHangs
           [Scenario.alice; Scenario.bob; Scenario.carol] "mint" start _ _
           ltac:(vm_compute; reflexivity)).
Defined.

(** The funder of the first entry is attached; the second entry is not
    looked at. *)
Lemma funding_only_annotates_witness :
  snd (fundingStage Cases.dormant 0 Scenario.alice "No Token" Null start)
  = Resolved (classified Scenario.alice "No Token" Null (Val "FunderWallet4444")
                (Val {| details := "exchange" |})).
Proof.
  destruct (funding_only_annotates Cases.dormant 0 Scenario.alice "No Token" Null start
              ltac:(reflexivity)) as (Hfirst & _).
  rewrite (Hfirst 7%N (Some Cases.funded) [None] ltac:(reflexivity)). reflexivity.
Defined.

(** The three holders of the supply of 3 are all reported, and all are
    team wallets. *)
Lemma result_provenance_witness :
  exists w result,
    analyzeTeamSupply Scenario.threeFresh "mint" start = (w, Resolved result)
    /\ st_totalSupply (sd_tokenInfo (scanData result)) = 3
    /\ forall tw, In tw (sd_teamWallets (scanData result)) ->
         exists v, In v (sd_analyzedWallets (scanData result))
                   /\ tw_address tw = address (spread v).
Proof.
  eexists _, _. split; [vm_compute; reflexivity|].
  destruct (result_provenance Scenario.threeFresh "mint" start _ _
              ltac:(vm_compute; reflexivity))
    as (d & assetInfo & Ha & Ht & _ & _ & Htw).
  split; [reflexivity|].
  intros tw Hin. destruct (Htw tw Hin) as (v & Hv & _ & Haddr & _).
  exists v. split; [exact Hv | exact Haddr].
Defined.

(** With a supply of zero a holder of one token passes the filter, and
    nothing held by the team gives [NaN]. *)
Lemma zero_supply_witness :
  let tokenInfo := {| total_supply := 0; ti_symbol := "TKN"; ti_name := "Token";
                      ti_decimals := 0; ti_address := "mint" |} in
  isSignificant tokenInfo Scenario.alice = true
  /\ totalSupplyControlledOf tokenInfo [] = JsNumber.NaN.
Proof.
  intros tokenInfo.
  destruct (zero_supply tokenInfo ltac:(reflexivity)) as (Hfilter & Htotal).
  split.
  - refine (proj2 (Hfilter Scenario.alice) (conj _ _)).
    + intros F. apply has_spec in F. vm_compute in F. discriminate F.
    + reflexivity.
  - exact (Htotal []).
Defined.

(** Three team wallets: at least 0.3. *)
Lemma team_wallets_weigh_witness :
  exists w result c,
    analyzeTeamSupply Scenario.threeFresh "mint" start = (w, Resolved result)
    /\ sd_totalSupplyControlled (scanData result)
       = BigNumber.toNumber (BigNumber.Fin c 18)
    /\ 3 * 10 ^ 17 <= c.
Proof.
  destruct (team_wallets_weigh Scenario.threeFresh "mint" start _ _
              ltac:(vm_compute; reflexivity) ltac:(vm_compute; reflexivity))
    as (c & Hc & Hw & _).
  eexists _, _, c. split; [vm_compute; reflexivity|]. split; [exact Hc | exact Hw].
Defined.

(** A message quoting an address is appended to what the file held. *)
Lemma logGroupMessage_records_witness :
  GroupMessages.GROUP_MESSAGES_FILE
    (GroupMessages.disk
       (fst (GroupMessages.logGroupMessage GroupMessages.faultless (Some Cases.quoting)
               Cases.used)))
  = Some (GroupMessages.Array
            [GroupMessages.Foreign "{}";
             GroupMessages.Logged
               {| GroupMessages.userId := 7;
                  GroupMessages.username := Some "dana";
                  GroupMessages.firstName := Some "Dana";
                  GroupMessages.lastName := None;
                  GroupMessages.chatId := -100;
                  GroupMessages.chatTitle := Some "traders";
                  GroupMessages.date := 1700000000000;
                  GroupMessages.text :=
                    "look at 5Q544fKrFoe6tsEbD7S8EmxGTJYAKtTVhAW5Q5pge4j1 today" |}]).
Proof.
  pose proof (logGroupMessage_records GroupMessages.faultless Cases.quoting
                {| from_id := 7; from_username := Some "dana";
                   from_first_name := Some "Dana"; from_last_name := None |}
                {| chat_id := -100; chat_title := Some "traders" |}
                1700000000
                "look at 5Q544fKrFoe6tsEbD7S8EmxGTJYAKtTVhAW5Q5pge4j1 today"
                Cases.used
                ltac:(reflexivity) ltac:(vm_compute; reflexivity) ltac:(reflexivity)
                ltac:(reflexivity) ltac:(reflexivity) ltac:(vm_compute; discriminate)
                ltac:(reflexivity) ltac:(reflexivity) ltac:(reflexivity)
                ltac:(intros _; discriminate)) as H.
  cbv zeta in H. destruct H as (_ & Hkept & _).
  exact (Hkept [GroupMessages.Foreign "{}"] eq_refl eq_refl).
Defined.

(** On an empty disk [initialize] makes the directory and an empty array. *)
Lemma initialize_prepares_witness :
  let empty :=
    {| GroupMessages.disk :=
         {| GroupMessages.dataDir := false; GroupMessages.GROUP_MESSAGES_FILE := None |};
       GroupMessages.logged := [] |} in
  GroupMessages.initialize GroupMessages.faultless empty
  = ({| GroupMessages.disk :=
          {| GroupMessages.dataDir := true;
             GroupMessages.GROUP_MESSAGES_FILE := Some (GroupMessages.Array []) |};
        GroupMessages.logged := [] |}, Resolved tt).
Proof.
  intros empty.
  exact (proj1 (proj1 (initialize_prepares GroupMessages.faultless empty)
                  eq_refl eq_refl)).
Defined.

(** A token address alone: the command asks for criteria. *)
Lemma usage_replies_witness :
  map SearchHandler.message
      (SearchHandler.sent
         (fst (SearchHandler.handleCommand Cases.twoFound Cases.quoting (Some ["mint"])
                 None Cases.idle)))
  = ["Please provide search criteria."]
  /\ snd (SearchHandler.handleCommand Cases.twoFound Cases.quoting (Some ["mint"])
            None Cases.idle) = Resolved tt.
Proof.
  pose proof (usage_replies Cases.twoFound Cases.quoting
                {| from_id := 7; from_username := Some "dana";
                   from_first_name := Some "Dana"; from_last_name := None |}
                {| chat_id := -100; chat_title := Some "traders" |}
                ["mint"] None Cases.idle
                ltac:(reflexivity) ltac:(reflexivity) ltac:(reflexivity)
                ltac:(right; right; exists "mint"; reflexivity)) as H.
  cbv zeta in H. destruct H as (Hsent & Hdone).
  split; [rewrite Hsent; reflexivity | apply Hdone; reflexivity].
Defined.

(** Two wallets found: an announcement, then a report that counts them. *)
Lemma search_reports_witness :
  map SearchHandler.message
      (SearchHandler.sent
         (fst (SearchHandler.handleCommand Cases.twoFound Cases.quoting
                 (Some ["mint"; "whale"]) None Cases.idle)))
  = ["Searching wallets for coin: mint";
     "Found 2 matching wallet(s):" ++ SearchHandler.newline ++ SearchHandler.newline
     ++ "<b>one</b><b>two</b>"]
  /\ snd (SearchHandler.handleCommand Cases.twoFound Cases.quoting
            (Some ["mint"; "whale"]) None Cases.idle) = Resolved tt.
Proof.
  pose proof (search_reports Cases.twoFound Cases.quoting
                {| from_id := 7; from_username := Some "dana";
                   from_first_name := Some "Dana"; from_last_name := None |}
                {| chat_id := -100; chat_title := Some "traders" |}
                "mint" "whale" [] None Cases.idle
                ltac:(reflexivity) ltac:(reflexivity) ltac:(reflexivity)
                ltac:(discriminate)) as H.
  cbv zeta in H. destruct (H eq_refl) as (Hfound & _).
  destruct (Hfound ["<b>one</b>"; "<b>two</b>"] eq_refl) as (Hsent & Hdone & _).
  split; [rewrite Hsent; vm_compute; reflexivity | apply Hdone; reflexivity].
Defined.


(** Two messages in a row: two records after what the file held. *)
Lemma log_keeps_order_witness :
  let record :=
    {| GroupMessages.userId := 7;
       GroupMessages.username := Some "dana";
       GroupMessages.firstName := Some "Dana";
       GroupMessages.lastName := None;
       GroupMessages.chatId := -100;
       GroupMessages.chatTitle := Some "traders";
       GroupMessages.date := 1700000000000;
       GroupMessages.text :=
         "look at 5Q544fKrFoe6tsEbD7S8EmxGTJYAKtTVhAW5Q5pge4j1 today" |} in
  GroupMessages.GROUP_MESSAGES_FILE
    (GroupMessages.disk
       (GroupMessages.logAll GroupMessages.faultless [Cases.quoting; Cases.quoting]
          Cases.used))
  = Some (GroupMessages.Array
            [GroupMessages.Foreign "{}"; GroupMessages.Logged record;
             GroupMessages.Logged record]).
Proof.
  intros record.
  assert (GroupMessages.recordOf Cases.quoting record) as Hrecord.
  { eexists. split; [reflexivity|]. split; [vm_compute; reflexivity|].
    intros s. reflexivity. }
  rewrite (log_keeps_order GroupMessages.faultless eq_refl eq_refl
             [Cases.quoting; Cases.quoting] [record; record] Cases.used
             ltac:(repeat constructor; exact Hrecord)
             eq_refl ltac:(discriminate) ltac:(discriminate) ltac:(discriminate)).
  reflexivity.
Defined.

(** The user cancels during the first of two batches and the token stays
    cancelled: the poll before the second batch reports it, and the run
    rejects with the cancellation error. *)
Lemma cancelled_run_rejects_witness :
  reportedCancelled
    (fst (analyzeTeamSupply Cases.cancelledAfterFirstBatch "mint" start)) (PollBatch 5)
  /\ snd (analyzeTeamSupply Cases.cancelledAfterFirstBatch "mint" start)
     = Rejected cancelled.
Proof.
  assert (reportedCancelled
            (fst (analyzeTeamSupply Cases.cancelledAfterFirstBatch "mint" start))
            (PollBatch 5)) as Hpoll
    by (exists 247%N; vm_compute; tauto).
  split; [exact Hpoll|].
  exact (proj1 (proj2 (proj2 (cancelled_run_rejects Cases.cancelledAfterFirstBatch "mint"))
                  ltac:(intros l; reflexivity) cancelledAfterFirstBatch_stays
                  (PollBatch 5) Hpoll)).
Defined.
